(** * The acfun chunked uploader: model and verified properties

    The repository holds the uploader at two stages.  [src/unnamed/part_000]
    is the later one (resume request, [Content-Range] header, validation of
    the fragment response, three finalize calls); it is modelled at the top
    level of this file.  [src/main.go] is the earlier one; the places where it
    differs are modelled in [Module MainGo] at the end.

    Conventions of the model.
    - Go [int]/[int64] values are [Z].  The only arithmetic on a value that
      comes from outside the program is [config.Config.PartSize-1]; its
      wrap-around is written out ([wrap_int]).  [part], the progress value and
      the [Content-Range] offsets count bytes or reads of one file and stay
      below its size, so they are kept unwrapped.
    - [log.Printf]/[log.Println] diagnostics (stderr) are not part of the
      trace.  The one place where [*debug] changes control flow
      ([uploadRequest] reading the body) is modelled.
    - The file system and the network are inputs of each step, and so is
      the order in which [main], the uploaders and the re-send goroutines
      take their steps.
    - The transition system has the language's treatment of the variable of
      a [for] statement as a parameter ([loopvar]): the re-send goroutine of
      the uploader refers to that variable. *)

From Stdlib Require Import String Ascii.
From Stdlib Require Import ZArith List Bool Lia Permutation.
From Stdlib Require Import Init.Byte.
From Stdlib Require Strings.Byte.
Import ListNotations.
Open Scope Z_scope.

(** ** Data *)

Definition error := string.
Definition bytes := list byte.

(** [type UploadConfigBlock struct] *)
Record UploadConfigBlock := mkBlock {
  PartSize : Z;
  Parallel : Z;
  RetryCount : Z;
  RetryDurationSeconds : Z
}.

(** [type UploadConfigResp struct] *)
Record UploadConfigResp := mkResp {
  Result : Z;
  Host : string;
  Config : UploadConfigBlock;
  TaskID : string;
  Token : string
}.

(** [type UploadPart struct] *)
Record UploadPart := mkPart {
  content : bytes;
  count : Z
}.

(** [type UploadPartResult struct]; the field [Result] is [PartResult] here
    because [Result] is taken by [UploadConfigResp]. *)
Record UploadPartResult := mkPartResult {
  PartResult : Z;
  Checksum : string;
  Size : Z
}.

(** What [os.Stat] gives: [info.Name()] and [info.Size()]. *)
Record FileInfo := mkInfo {
  Name : string;
  FileSize : Z
}.

(** The command line: [*token], [*uid], [*debug]. *)
Record Flags := mkFlags {
  token : string;
  uid : string;
  debug : bool
}.

Definition len (b : bytes) : Z := Z.of_nat (length b).

(** ** Machine integers *)

Definition wrap_int (x : Z) : Z := (x + 2 ^ 63) mod 2 ^ 64 - 2 ^ 63.

(** [make([]byte, n)]: a run-time panic for a negative length, else [n]
    zero bytes. *)
Definition make (n : Z) : option bytes :=
  if n <? 0 then None else Some (repeat x00 (Z.to_nat n)).

(** ** The source file

    An open [*os.File] is the file's bytes and the read offset.  [Read]
    follows [os.File.Read] on a regular file: nothing and no error for an
    empty buffer, [io.EOF] with [0] at the end, otherwise as many bytes as
    fit, and the offset moves on.  A failing device is an input:
    [fault = Some e] makes this call return [0, e].  The result is
    [(nr, err, buf', file')]. *)

Record File := mkFile {
  data : bytes;
  pos : nat
}.

Definition unread (f : File) : bytes := skipn (pos f) (data f).

Definition EOF : error := "EOF"%string.

Definition overwrite (buf d : bytes) : bytes :=
  d ++ skipn (length d) buf.

Definition Read (f : File) (buf : bytes) (fault : option error)
  : Z * option error * bytes * File :=
  match fault with
  | Some e => (0, Some e, buf, f)
  | None =>
      match buf with
      | [] => (0, None, buf, f)
      | _ :: _ =>
          match unread f with
          | [] => (0, Some EOF, buf, f)
          | _ :: _ =>
              let d := firstn (length buf) (unread f) in
              (len d, None, overwrite buf d, mkFile (data f) (pos f + length d))
          end
      end
  end.

(** [buf[:nr]] *)
Definition slice_to (buf : bytes) (nr : Z) : bytes := firstn (Z.to_nat nr) buf.

(** ** The Fragment Reader: one turn of the loop in [main]

<<
    part++
    buf := make([]byte, config.Config.PartSize-1)
    nr, err := file.Read(buf[:])
    if nr <= 0 || err != nil { break }
    if nr > 0 { wg.Add(1); ch <- &UploadPart{content: buf[:nr], count: part} }
>>
*)

Inductive turn :=
| TurnPanic                                     (* makeslice: len out of range *)
| TurnBreak (nr : Z) (part : Z)                 (* the loop is left *)
| TurnEmit (nr : Z) (item : UploadPart) (f : File) (part : Z).

Definition is_some {A} (o : option A) : bool :=
  match o with Some _ => true | None => false end.

Definition read_turn (config : UploadConfigResp) (f : File) (part : Z)
    (fault : option error) : turn :=
  let part := part + 1 in
  match make (wrap_int (PartSize (Config config) - 1)) with
  | None => TurnPanic
  | Some buf =>
      let '(nr, err, buf, f') := Read f buf fault in
      if (nr <=? 0) || is_some err then TurnBreak nr part
      else TurnEmit nr (mkPart (slice_to buf nr) part) f' part
  end.

(** The whole loop on a healthy file, with the channel sends collected in
    order.  Every turn that does not leave the loop consumes at least one
    byte, so one turn more than the file has bytes is enough. *)

Inductive reading :=
| OutOfFuel
| ReadPanic
| ReadDone (sent : list UploadPart) (part : Z).

Fixpoint read_loop (fuel : nat) (config : UploadConfigResp) (f : File) (part : Z)
  : reading :=
  match fuel with
  | O => OutOfFuel
  | S fuel =>
      match read_turn config f part None with
      | TurnPanic => ReadPanic
      | TurnBreak _ part => ReadDone [] part
      | TurnEmit _ item f' part =>
          match read_loop fuel config f' part with
          | ReadDone sent part => ReadDone (item :: sent) part
          | r => r
          end
      end
  end.

(** [os.Open], [part := int64(-1)] and the loop. *)
Definition os_Open (contents : bytes) : File := mkFile contents 0.

Definition fragments (config : UploadConfigResp) (contents : bytes) : reading :=
  read_loop (S (length contents)) config (os_Open contents) (-1).

(** ** The remote service

    The six requests the program makes, with the data it puts into the URL,
    the headers and the body. *)

Inductive NetRequest :=
| ConfigReq (fileName : string) (size : Z)       (* POST UploadConfig *)
| ResumeReq (upload_token : string)              (* GET UploadResume *)
| FragmentReq (upload_token : string) (fragment_id : Z)
    (range_first range_last range_total : Z) (body : bytes)
                                                 (* POST UploadEndpoint *)
| CompleteReq (fragment_count : Z) (upload_token : string)
                                                 (* POST UploadComplete *)
| CreateVideoReq (videoKey fileName : string)    (* POST CreateVideo *)
| FinishReq (taskId : string).                   (* POST UploadFinish *)

(** A response body is known by what [json.Unmarshal] makes of it for each
    of the two structs the program decodes into. *)
Record Body := mkBody {
  as_config : error + UploadConfigResp;
  as_part : error + UploadPartResult
}.

(** What one HTTP exchange can come to: [http.NewRequest] fails,
    [client.Do] fails, or there is a response with a status code whose body
    [ioutil.ReadAll] reads or fails to read. *)
Inductive http_reply :=
| NewRequestError (e : error)
| DoError (e : error)
| Response (StatusCode : Z) (b : error + Body).

Definition network := NetRequest -> http_reply.

(** ** What a run leaves behind *)

Inductive output :=
| MissingCredentials                 (* "token or uid is missing" *)
| Usage                              (* printUsage() *)
| Local (v : string)                 (* "Local: %s\n" *)
| GetFileInfoError (e : error)
| GetUploadConfigError (e : error)
| UploadRequestError (e : error)
| OpenFileError (e : error)
| FinishUploadError (e : error).

Inductive event :=
| Stdout (o : output)
| Stat (path : string)               (* os.Stat *)
| Open (path : string)               (* os.Open *)
| FileRead (nr : Z)                  (* file.Read returned nr *)
| Net (req : NetRequest) (ok : bool) (* a call of the upload client; ok: no error came back *)
| BarStart (total : Z)               (* pb.Full.Start64 *)
| Go (n : nat)                       (* n uploader goroutines started *)
| Send (item : UploadPart)           (* wg.Add(1); ch <- item, in main *)
| Resend (item : UploadPart)         (* a re-send goroutine has read item and
                                        is blocked in *ch <- item *)
| Ack (item : UploadPart)            (* bar.Add(len(item.content)); wg.Done() *)
| BarFinish (current : Z).           (* wg.Wait() returned; close(ch); bar.Finish() *)

(** ** The upload client *)

(** [func request(link string, postBody string) ([]byte, error)] *)
Definition request (net : network) (req : NetRequest) : list event * (error + Body) :=
  match net req with
  | NewRequestError e => ([Net req false], inl e)
  | DoError e => ([Net req false], inl e)
  | Response _ (inl e) => ([Net req false], inl e)
  | Response _ (inr b) => ([Net req true], inr b)
  end.

(** [func uploadRequest(method string, link string) error]: the body is read
    only in verbose mode. *)
Definition uploadRequest (dbg : bool) (net : network) (req : NetRequest)
  : list event * option error :=
  match net req with
  | NewRequestError e => ([Net req false], Some e)
  | DoError e => ([Net req false], Some e)
  | Response _ (inl e) =>
      if dbg then ([Net req false], Some e) else ([Net req true], None)
  | Response _ (inr _) => ([Net req true], None)
  end.

(** [func getUploadConfig(info os.FileInfo)], returning the decoded
    [UploadConfigResp] or an error *)
Definition getUploadConfig (net : network) (i : FileInfo)
  : list event * (error + UploadConfigResp) :=
  let '(evs, r) := request net (ConfigReq (Name i) (FileSize i)) in
  match r with
  | inl e => (evs, inl e)
  | inr body =>
      match as_config body with
      | inl e => (evs, inl e)
      | inr c => (evs, inr c)
      end
  end.

(** [func finishUpload(token string, part int64, task string, filename string) error] *)
Definition finishUpload (dbg : bool) (net : network)
    (tok : string) (part : Z) (task filename : string)
  : list event * option error :=
  let '(ev1, r1) := uploadRequest dbg net (CompleteReq part tok) in
  match r1 with
  | Some e => (ev1, Some e)
  | None =>
      let '(ev2, r2) := request net (CreateVideoReq task filename) in
      match r2 with
      | inl e => (ev1 ++ ev2, Some e)
      | inr _ =>
          let '(ev3, r3) := request net (FinishReq task) in
          match r3 with
          | inl e => (ev1 ++ ev2 ++ ev3, Some e)
          | inr _ => (ev1 ++ ev2 ++ ev3, None)
          end
      end
  end.

(** ** One pass of the [uploader] loop on a received item

    [http.NewRequest]'s error is not looked at; when it fails [req] is nil
    and [req.Header.Set] panics. *)

Inductive verdict :=
| Acked      (* bar.Add(len(item.content)); wg.Done() *)
| Retried    (* go func() { *ch <- item }(); continue *)
| Crashed.   (* nil pointer dereference *)

Definition fragment_request (tok : string) (partSize fileSize : Z)
    (item : UploadPart) : NetRequest :=
  let start := count item * partSize in
  FragmentReq tok (count item) start (start + len (content item) - 1) fileSize
    (content item).

Definition uploader_pass (tok : string) (partSize fileSize : Z)
    (net : network) (item : UploadPart) : list event * verdict :=
  let req := fragment_request tok partSize fileSize item in
  match net req with
  | NewRequestError _ => ([], Crashed)
  | DoError _ => ([Net req false], Retried)
  | Response _ (inl _) => ([Net req true], Retried)
  | Response _ (inr body) =>
      match as_part body with
      | inl _ => ([Net req true], Retried)
      | inr result =>
          if negb (PartResult result =? 1) || negb (Size result =? len (content item))
          then ([Net req true], Retried)
          else ([Net req true], Acked)
      end
  end.

(** ** [path.Base] *)

Definition is_slash (c : ascii) : bool := Ascii.eqb c "/"%char.

Fixpoint drop_slashes (l : list ascii) : list ascii :=
  match l with
  | c :: l' => if is_slash c then drop_slashes l' else l
  | [] => []
  end.

Fixpoint upto_slash (l : list ascii) : list ascii :=
  match l with
  | c :: l' => if is_slash c then [] else c :: upto_slash l'
  | [] => []
  end.

Definition path_Base (p : string) : string :=
  match list_ascii_of_string p with
  | [] => "."%string
  | l =>
      match rev (upto_slash (drop_slashes (rev l))) with
      | [] => "/"%string
      | b => string_of_list_ascii b
      end
  end.

(** ** The program as a transition system

    [main] runs alone until it starts the uploader goroutines; from then on
    it shares the channel, the [WaitGroup] and the progress bar with them.
    A state holds where [main] is, its variables, and the shared objects.
    - Every uploader has its loop variable [item] ([for item := range *ch])
      and is either inside a pass ([working]) or blocked in the receive.
    - A failed pass starts [go func() { *ch <- item }()].  The function
      literal does not get a copy of [item]: it refers to the variable and
      reads it when the goroutine comes to run.  What variable that is
      depends on the language version ([loopvar]).
    - The channel is unbuffered, so a send and a receive happen together
      ([Recv]).  The item [main] is blocked on sending is in [Sending]. *)

(** Go before 1.22, and any module whose [go] directive is below 1.22 (these
    sources use [io/ioutil] and name Chrome 80 as their user agent: they are
    of 2020): the iteration variable of a [for] statement is one variable,
    re-used in each iteration ([PerLoop]).  From 1.22 on each iteration has
    its own ([PerIteration]). *)
Inductive loopvar := PerLoop | PerIteration.

Inductive control :=
| Start                        (* after flag.Parse *)
| NextFile                     (* head of [for _, v := range files] *)
| Negotiate                    (* before getUploadConfig *)
| Resume                       (* before the resume request *)
| Opening                      (* before pb.Start64 and os.Open *)
| Reading                      (* head of the read loop *)
| Sending (item : UploadPart)  (* blocked in [ch <- item] *)
| Waiting                      (* in wg.Wait() *)
| Finishing                    (* before finishUpload *)
| Exited.                      (* main has returned *)

Record locals := mkLocals {
  v : string;
  info : FileInfo;
  config : UploadConfigResp;
  file : File;
  part : Z
}.

(** An uploader goroutine: its variable [item] (nil before the first
    receive) and whether it is inside a pass. *)
Record uploader := mkUploader {
  loop_item : option UploadPart;
  working : bool
}.

(** A goroutine [go func() { *ch <- item }()]: started by uploader [w] and
    not yet come to evaluate [item], or blocked in the send of the item it
    read. *)
Inductive resend :=
| Started (w : nat)
| Blocked (item : UploadPart).

Record pool := mkPool {
  wg : Z;
  bar : Z;
  uploaders : list uploader;
  resends : list resend
}.

Record state := mkState {
  pc : control;
  files : list string;      (* the arguments not yet taken by the loop *)
  vars : locals;
  shared : pool;
  trace : list event;       (* newest first *)
  panicked : bool
}.

Definition goto (c : control) (s : state) : state :=
  mkState c (files s) (vars s) (shared s) (trace s) (panicked s).
Definition with_files (l : list string) (s : state) : state :=
  mkState (pc s) l (vars s) (shared s) (trace s) (panicked s).
Definition with_vars (x : locals) (s : state) : state :=
  mkState (pc s) (files s) x (shared s) (trace s) (panicked s).
Definition with_shared (p : pool) (s : state) : state :=
  mkState (pc s) (files s) (vars s) p (trace s) (panicked s).
(** [log evs s]: the events [evs], oldest first, happen. *)
Definition log (evs : list event) (s : state) : state :=
  mkState (pc s) (files s) (vars s) (shared s) (rev evs ++ trace s) (panicked s).
Definition panic (s : state) : state :=
  mkState (pc s) (files s) (vars s) (shared s) (trace s) true.

Definition remove_nth {A} (k : nat) (l : list A) : list A :=
  firstn k l ++ skipn (S k) l.
Definition set_nth {A} (k : nat) (x : A) (l : list A) : list A :=
  firstn k l ++ x :: skipn (S k) l.

(** What the outside world hands to a step of [main]. *)
Inductive input :=
| Tick
| StatResult (r : error + FileInfo)
| Network (net : network)
| OpenResult (r : error + bytes)
| ReadResult (fault : option error).

Inductive label :=
| Main (i : input)              (* main takes its next step *)
| Recv (src : option nat) (w : nat)
                                (* uploader w, blocked in the receive, gets
                                   an item: from main (None) or from the
                                   g-th re-send (Some g) *)
| Eval (g : nat)                (* the g-th re-send comes to run and reads
                                   [item] *)
| Work (w : nat) (net : network).
                                (* uploader w finishes its pass *)

Definition init_locals : locals :=
  mkLocals ""%string (mkInfo ""%string 0)
    (mkResp 0 ""%string (mkBlock 0 0 0 0) ""%string ""%string) (mkFile [] 0) 0.

Definition init (args : list string) : state :=
  mkState Start args init_locals (mkPool 0 0 [] []) [] false.

Definition main_step (fl : Flags) (i : input) (s : state) : option state :=
  let x := vars s in
  let sh := shared s in
  match pc s, i with
  | Start, Tick =>
      if ((token fl =? "") || (uid fl =? ""))%string
      then Some (log [Stdout MissingCredentials; Stdout Usage] (goto Exited s))
      else Some (goto NextFile s)
  | NextFile, Tick =>
      match files s with
      | [] => Some (goto Exited s)
      | _ :: _ => None
      end
  | NextFile, StatResult r =>
      match files s with
      | [] => None
      | p :: rest =>
          match r with
          | inl e =>
              Some (log [Stdout (Local p); Stat p; Stdout (GetFileInfoError e)]
                      (with_files rest s))
          | inr i =>
              Some (log [Stdout (Local p); Stat p]
                      (goto Negotiate
                         (with_vars (mkLocals p i (config x) (file x) (part x))
                            (with_files rest s))))
          end
      end
  | Negotiate, Network net =>
      let '(evs, r) := getUploadConfig net (info x) in
      match r with
      | inl e => Some (log (evs ++ [Stdout (GetUploadConfigError e)]) (goto NextFile s))
      | inr c =>
          Some (log evs
                  (goto Resume
                     (with_vars (mkLocals (v x) (info x) c (file x) (part x)) s)))
      end
  | Resume, Network net =>
      let '(evs, r) := uploadRequest (debug fl) net (ResumeReq (Token (config x))) in
      match r with
      | Some e => Some (log (evs ++ [Stdout (UploadRequestError e)]) (goto NextFile s))
      | None => Some (log evs (goto Opening s))
      end
  | Opening, OpenResult r =>
      match r with
      | inl e =>
          Some (log [BarStart (FileSize (info x)); Open (v x); Stdout (OpenFileError e)]
                  (goto NextFile
                     (with_shared (mkPool (wg sh) 0 (uploaders sh) (resends sh)) s)))
      | inr contents =>
          let n := Z.to_nat (Parallel (Config (config x))) in
          Some (log [BarStart (FileSize (info x)); Open (v x); Go n]
                  (goto Reading
                     (with_shared (mkPool 0 0 (repeat (mkUploader None false) n) [])
                        (with_vars
                           (mkLocals (v x) (info x) (config x) (os_Open contents) (-1))
                           s))))
      end
  | Reading, ReadResult fault =>
      match read_turn (config x) (file x) (part x) fault with
      | TurnPanic => Some (panic s)
      | TurnBreak nr p =>
          Some (log [FileRead nr]
                  (goto Waiting
                     (with_vars (mkLocals (v x) (info x) (config x) (file x) p) s)))
      | TurnEmit nr item f' p =>
          Some (log [FileRead nr; Send item]
                  (goto (Sending item)
                     (with_shared
                        (mkPool (wg sh + 1) (bar sh) (uploaders sh) (resends sh))
                        (with_vars (mkLocals (v x) (info x) (config x) f' p) s))))
      end
  | Waiting, Tick =>
      (* wg.Wait() returns; close(ch): the uploaders blocked in the receive
         leave their loops *)
      if wg sh =? 0
      then Some (log [BarFinish (bar sh)]
                   (goto Finishing
                      (with_shared
                         (mkPool (wg sh) (bar sh) (filter working (uploaders sh))
                            (resends sh)) s)))
      else None
  | Finishing, Network net =>
      let '(evs, r) :=
        finishUpload (debug fl) net (Token (config x)) (part x)
          (TaskID (config x)) (path_Base (v x)) in
      match r with
      | Some e => Some (log (evs ++ [Stdout (FinishUploadError e)]) (goto NextFile s))
      | None => Some (log evs (goto NextFile s))
      end
  | _, _ => None
  end.

(** Uploader [w] is blocked in the receive and gets [item]. *)
Definition receive (w : nat) (item : UploadPart) (ups : list uploader)
  : option (list uploader) :=
  match nth_error ups w with
  | Some u =>
      if working u then None
      else Some (set_nth w (mkUploader (Some item) true) ups)
  | None => None
  end.

Definition recv_step (src : option nat) (w : nat) (s : state) : option state :=
  let sh := shared s in
  match src with
  | None =>
      match pc s with
      | Sending item =>
          match receive w item (uploaders sh) with
          | Some ups =>
              Some (goto Reading
                      (with_shared (mkPool (wg sh) (bar sh) ups (resends sh)) s))
          | None => None
          end
      | _ => None
      end
  | Some g =>
      match nth_error (resends sh) g with
      | Some (Blocked item) =>
          match receive w item (uploaders sh) with
          | Some ups =>
              Some (with_shared
                      (mkPool (wg sh) (bar sh) ups (remove_nth g (resends sh))) s)
          | None => None
          end
      | _ => None
      end
  end.

(** The [g]-th re-send comes to run: it reads the variable [item] of the
    uploader that started it, as it is now. *)
Definition eval_step (g : nat) (s : state) : option state :=
  let sh := shared s in
  match nth_error (resends sh) g with
  | Some (Started w) =>
      match nth_error (uploaders sh) w with
      | Some u =>
          match loop_item u with
          | Some item =>
              Some (log [Resend item]
                      (with_shared
                         (mkPool (wg sh) (bar sh) (uploaders sh)
                            (set_nth g (Blocked item) (resends sh))) s))
          | None => None
          end
      | None => None
      end
  | _ => None
  end.

Definition work_step (lv : loopvar) (w : nat) (net : network) (s : state)
  : option state :=
  let x := vars s in
  let sh := shared s in
  match nth_error (uploaders sh) w with
  | Some (mkUploader (Some item) true) =>
      let '(evs, vd) :=
        uploader_pass (Token (config x))
          (wrap_int (PartSize (Config (config x)) - 1)) (FileSize (info x))
          net item in
      let ups := set_nth w (mkUploader (Some item) false) (uploaders sh) in
      match vd with
      | Crashed => Some (panic s)
      | Retried =>
          match lv with
          | PerLoop =>
              Some (log evs
                      (with_shared
                         (mkPool (wg sh) (bar sh) ups (Started w :: resends sh)) s))
          | PerIteration =>
              Some (log (evs ++ [Resend item])
                      (with_shared
                         (mkPool (wg sh) (bar sh) ups (Blocked item :: resends sh)) s))
          end
      | Acked =>
          if wg sh - 1 <? 0
          then Some (panic s)      (* sync: negative WaitGroup counter *)
          else
            Some (log (evs ++ [Ack item])
                    (with_shared
                       (mkPool (wg sh - 1) (bar sh + len (content item)) ups
                          (resends sh)) s))
      end
  | _ => None
  end.

Definition step (lv : loopvar) (fl : Flags) (l : label) (s : state) : option state :=
  if panicked s then None
  else
    match l with
    | Main i => main_step fl i s
    | Recv src w => recv_step src w s
    | Eval g => eval_step g s
    | Work w net => work_step lv w net s
    end.

Fixpoint run (lv : loopvar) (fl : Flags) (ls : list label) (s : state) : option state :=
  match ls with
  | [] => Some s
  | l :: ls' =>
      match step lv fl l s with
      | Some s' => run lv fl ls' s'
      | None => None
      end
  end.

Definition reachable (lv : loopvar) (fl : Flags) (args : list string) (s : state) : Prop :=
  exists ls, run lv fl ls (init args) = Some s.

(** * The earlier stage: [src/main.go]

    It differs from the later stage in five places; the first four are
    modelled here.
    - One buffer of [PartSize] bytes is allocated before the read loop and
      every [UploadPart] gets [content: buf], the whole of it: all items
      share its backing array.  The model keeps the array in the reader's
      state; an item holds its index only, and what an uploader posts is the
      array as it is at the moment it copies it.
    - [part] starts at 0 and is counted up before the read, so the first
      item has index 1.
    - The uploader does not look at the response: when [client.Post]
      returns no error (and, in verbose mode, the body can be read) it
      counts the item as done.
    - There is no resume request and [finishUpload] makes two calls,
      [UploadFinish] and then [CreateVideo].
    - After a failed upload the uploader itself does [*ch <- item], in its
      loop and before it receives again, so that what it sends is the item
      whose upload failed.  (With a single uploader nobody is there to
      receive it; the later stage hands the send to a goroutine of its
      own.) *)

Module MainGo.

Record UploadPart := mkPart {
  count : Z      (* content is the shared buffer *)
}.

Inductive turn :=
| TurnBreak (buf : bytes) (part : Z)
| TurnEmit (buf : bytes) (item : UploadPart) (f : File) (part : Z).

Definition read_turn (buf : bytes) (f : File) (part : Z) (fault : option error)
  : turn :=
  let part := part + 1 in
  let '(nr, err, buf', f') := Read f buf fault in
  if (nr <=? 0) || is_some err then TurnBreak buf' part
  else TurnEmit buf' (mkPart part) f' part.

Inductive reading :=
| OutOfFuel
| ReadPanic
| ReadDone (sent : list UploadPart) (buf : bytes) (part : Z).

Fixpoint read_loop (fuel : nat) (buf : bytes) (f : File) (part : Z) : reading :=
  match fuel with
  | O => OutOfFuel
  | S fuel =>
      match read_turn buf f part None with
      | TurnBreak buf' part => ReadDone [] buf' part
      | TurnEmit buf' item f' part =>
          match read_loop fuel buf' f' part with
          | ReadDone sent buf'' part => ReadDone (item :: sent) buf'' part
          | r => r
          end
      end
  end.

(** [buf := make([]byte, config.Config.PartSize)], [part := int64(0)] and
    the loop. *)
Definition fragments (c : UploadConfigResp) (contents : bytes) : reading :=
  match make (PartSize (Config c)) with
  | None => ReadPanic
  | Some buf => read_loop (S (length contents)) buf (os_Open contents) 0
  end.

(** [client.Post(postURL, "application/octet-stream", data)] *)
Inductive fragment_post :=
| Post (upload_token : string) (fragment_id : Z) (body : bytes).

(** One pass of the [uploader] loop; [buf] is the shared array as it is
    when [data.Write(item.content)] copies it. *)
Definition uploader_pass (dbg : bool) (tok : string)
    (net : fragment_post -> http_reply) (buf : bytes) (item : UploadPart)
  : verdict :=
  match net (Post tok (count item) buf) with
  | NewRequestError _ => Retried
  | DoError _ => Retried
  | Response _ body =>
      if dbg
      then match body with
           | inl _ => Retried
           | inr _ => Acked
           end
      else Acked
  end.

(** [func finishUpload(task string, filename string) error] *)
Definition finishUpload (net : network) (task filename : string)
  : list event * option error :=
  let '(ev1, r1) := request net (FinishReq task) in
  match r1 with
  | inl e => (ev1, Some e)
  | inr _ =>
      let '(ev2, r2) := request net (CreateVideoReq task filename) in
      match r2 with
      | inl e => (ev1 ++ ev2, Some e)
      | inr _ => (ev1 ++ ev2, None)
      end
  end.

End MainGo.

(** * Statements *)

(** ** The Fragment Reader's contract for a fragment size [S]

    The reader ends and leaves its sends [sent]; their indices are
    [0, 1, 2, ...]; every one that is not the last has exactly [S] bytes and
    none has more; put together in order they are the file. *)
Definition reader_spec (S : Z) (f : bytes) (r : reading) : Prop :=
  exists sent part,
    r = ReadDone sent part /\
    (forall i item, nth_error sent i = Some item -> count item = Z.of_nat i) /\
    (forall i item, nth_error sent i = Some item ->
                    (i + 1 < length sent)%nat -> len (content item) = S) /\
    (forall item, In item sent -> len (content item) <= S) /\
    concat (map content sent) = f.

(** ** Reading the trace

    The events of the file in hand are those since the last ["Local: ..."]
    line ([segment]); the trace is newest first. *)

Fixpoint segment (tr : list event) : list event :=
  match tr with
  | [] => []
  | Stdout (Local _) :: _ => []
  | e :: tr' => e :: segment tr'
  end.

Fixpoint sends (tr : list event) : list UploadPart :=
  match tr with
  | [] => []
  | Send item :: tr' => item :: sends tr'
  | _ :: tr' => sends tr'
  end.

Fixpoint acks (tr : list event) : list UploadPart :=
  match tr with
  | [] => []
  | Ack item :: tr' => item :: acks tr'
  | _ :: tr' => acks tr'
  end.

(** Fragments of the file in hand: enqueued by [main] so far, oldest first,
    and acknowledged so far. *)
Definition enqueued (s : state) : list UploadPart := rev (sends (segment (trace s))).
Definition acked (s : state) : list UploadPart := acks (segment (trace s)).

(** The items that are somewhere between [wg.Add(1)] and [wg.Done()]: with
    [main], with an uploader inside a pass, or with a re-send that has read
    its item. *)
Definition sending (c : control) : list UploadPart :=
  match c with Sending item => [item] | _ => [] end.

Definition held1 (u : uploader) : list UploadPart :=
  if working u then match loop_item u with Some item => [item] | None => [] end
  else [].
Definition held (ups : list uploader) : list UploadPart := flat_map held1 ups.

Definition blocked1 (r : resend) : list UploadPart :=
  match r with Blocked item => [item] | Started _ => [] end.
Definition blocked (rs : list resend) : list UploadPart := flat_map blocked1 rs.

Definition inflight (s : state) : list UploadPart :=
  sending (pc s) ++ held (uploaders (shared s)) ++ blocked (resends (shared s)).

(** The number of units of work under way, whatever they carry. *)
Definition under_way (s : state) : nat :=
  length (sending (pc s)) + length (filter working (uploaders (shared s)))
  + length (resends (shared s)).

(** The items the loop variables of the uploaders point to. *)
Definition pointed1 (u : uploader) : list UploadPart :=
  match loop_item u with Some item => [item] | None => [] end.
Definition pointed (ups : list uploader) : list UploadPart := flat_map pointed1 ups.

Definition is_blocked (r : resend) : bool :=
  match r with Blocked _ => true | Started _ => false end.

Definition dispatching (c : control) : bool :=
  match c with Reading | Sending _ | Waiting => true | _ => false end.

Definition file_open (c : control) : bool :=
  match c with Reading | Sending _ | Waiting | Finishing => true | _ => false end.

Definition in_session (c : control) : bool :=
  match c with Start | NextFile | Exited => false | _ => true end.

Definition total_len (l : list UploadPart) : Z :=
  fold_right (fun item a => len (content item) + a) 0 l.

(** The calls of the finalize handshake, newest first. *)
Definition is_finalize (r : NetRequest) : bool :=
  match r with
  | CompleteReq _ _ | CreateVideoReq _ _ | FinishReq _ => true
  | _ => false
  end.

Fixpoint finalize_calls (tr : list event) : list (NetRequest * bool) :=
  match tr with
  | [] => []
  | Net r ok :: tr' =>
      if is_finalize r then (r, ok) :: finalize_calls tr' else finalize_calls tr'
  | _ :: tr' => finalize_calls tr'
  end.

(** The ways the handshake of a file can have gone, oldest call first: not
    begun, stopped at the first, second or third call, or through. *)
Definition handshakes (x : locals) : list (list (NetRequest * bool)) :=
  let c := CompleteReq (part x) (Token (config x)) in
  let m := CreateVideoReq (TaskID (config x)) (path_Base (v x)) in
  let f := FinishReq (TaskID (config x)) in
  [ [];
    [(c, false)];
    [(c, true); (m, false)];
    [(c, true); (m, true); (f, false)];
    [(c, true); (m, true); (f, true)] ].

(** Events of the dispatch phase. *)
Definition is_dispatch (e : event) : bool :=
  match e with
  | Send _ | Resend _ | Ack _ | FileRead _ | Net (FragmentReq _ _ _ _ _ _) _ => true
  | _ => false
  end.

(** No event of the dispatch phase is newer than a finalize call. *)
Fixpoint dispatch_before_finalize (tr : list event) : bool :=
  match tr with
  | [] => true
  | e :: tr' =>
      if is_dispatch e
      then match finalize_calls tr' with [] => true | _ :: _ => false end
      else dispatch_before_finalize tr'
  end.

(** ** The invariant of the transition system

    All of it holds under either reading of the loop variable, except
    [inv_items]: that the acknowledged and the in-flight items together are
    exactly the enqueued ones needs a variable per iteration. *)

Record invariant (lv : loopvar) (s : state) : Prop := mkInvariant {
  inv_counter :
    wg (shared s) = Z.of_nat (under_way s);
  inv_balance :
    wg (shared s) = Z.of_nat (length (enqueued s)) - Z.of_nat (length (acked s));
  inv_quiet :
    dispatching (pc s) = false ->
    uploaders (shared s) = [] /\ resends (shared s) = [];
  inv_working :
    Forall (fun u => working u = true -> loop_item u <> None) (uploaders (shared s));
  inv_known :
    forall item,
      In item (acked s) \/ In item (inflight s) \/
      In item (pointed (uploaders (shared s))) ->
      In item (enqueued s);
  inv_items :
    lv = PerIteration ->
    Permutation (acked s ++ inflight s) (enqueued s) /\
    forallb is_blocked (resends (shared s)) = true;
  inv_index :
    forall i item, nth_error (enqueued s) i = Some item -> count item = Z.of_nat i;
  inv_part :
    file_open (pc s) = true ->
    part (vars s) =
      Z.of_nat (length (enqueued s)) - (if dispatching (pc s) then
                                          match pc s with Waiting => 0 | _ => 1 end
                                        else 0);
  inv_bytes :
    file_open (pc s) = true ->
    concat (map content (enqueued s)) = firstn (pos (file (vars s))) (data (file (vars s)))
    /\ (pos (file (vars s)) <= length (data (file (vars s))))%nat;
  inv_bar :
    file_open (pc s) = true -> bar (shared s) = total_len (acked s);
  inv_fresh :
    in_session (pc s) = true -> file_open (pc s) = false ->
    sends (segment (trace s)) = [] /\ acks (segment (trace s)) = [];
  inv_handshake :
    In (rev (finalize_calls (segment (trace s)))) (handshakes (vars s));
  inv_no_handshake :
    in_session (pc s) = true -> finalize_calls (segment (trace s)) = [];
  inv_order :
    dispatch_before_finalize (segment (trace s)) = true;
  inv_workers :
    dispatching (pc s) = true ->
    length (uploaders (shared s)) = Z.to_nat (Parallel (Config (config (vars s))));
  inv_finish :
    pc s = Finishing ->
    exists tr, trace s = BarFinish (bar (shared s)) :: tr;
  inv_started :
    file_open (pc s) = true ->
    In (Go (Z.to_nat (Parallel (Config (config (vars s)))))) (segment (trace s));
  inv_panic :
    panicked s = true -> dispatching (pc s) = true
}.

(** ** Replies to a fragment upload

    [confirmed]: the remote reports result code 1 and a size equal to the
    fragment's length.  [upload_failure]: the transport fails, the body
    cannot be read or decoded, the result code is not the success code, or
    the size differs. *)

Definition confirmed (item : UploadPart) (r : http_reply) : Prop :=
  exists st b res,
    r = Response st (inr b) /\ as_part b = inr res /\
    PartResult res = 1 /\ Size res = len (content item).

Inductive upload_failure (item : UploadPart) : http_reply -> Prop :=
| transport_error e : upload_failure item (DoError e)
| body_read_error st e : upload_failure item (Response st (inl e))
| decode_error st b e :
    as_part b = inl e -> upload_failure item (Response st (inr b))
| not_success st b res :
    as_part b = inr res -> PartResult res <> 1 ->
    upload_failure item (Response st (inr b))
| size_mismatch st b res :
    as_part b = inr res -> Size res <> len (content item) ->
    upload_failure item (Response st (inr b)).

(** The request an uploader makes for [item] in state [s]. *)
Definition request_of (s : state) (item : UploadPart) : NetRequest :=
  fragment_request (Token (config (vars s)))
    (wrap_int (PartSize (Config (config (vars s))) - 1))
    (FileSize (info (vars s))) item.

(** Uploader [w] makes its pass, the re-send it starts comes to run at once
    and the same uploader receives from it, once for every network in the
    list.  [Eval] is there under [PerLoop] only. *)
Definition retry_round (lv : loopvar) (w : nat) (net : network) : list label :=
  match lv with
  | PerLoop => [Work w net; Eval 0; Recv (Some 0%nat) w]
  | PerIteration => [Work w net; Recv (Some 0%nat) w]
  end.

Definition retry_schedule (lv : loopvar) (w : nat) (nets : list network) : list label :=
  flat_map (retry_round lv w) nets.

(** The events of a failed pass. *)
Definition retry_event (s : state) (item : UploadPart) (e : event) : Prop :=
  e = Resend item \/ exists ok, e = Net (request_of s item) ok.

(** ** The pipeline and the reader

    A run is healthy when no read of the source file fails.  In such a run
    what [main] has enqueued, followed by what the read loop will still
    produce from where it stands, is what [fragments] produces for the
    file. *)

Definition healthy_label (l : label) : bool :=
  match l with
  | Main (ReadResult (Some _)) => false
  | _ => true
  end.

Definition valid_part_size (c : UploadConfigResp) : Prop :=
  2 <= PartSize (Config c) < 2 ^ 63.

Definition remaining_reads (s : state) : reading :=
  match pc s with
  | Reading | Sending _ =>
      read_loop (S (length (unread (file (vars s))))) (config (vars s))
        (file (vars s)) (part (vars s))
  | _ => ReadDone [] (part (vars s))
  end.

Definition follows_reader (s : state) : Prop :=
  file_open (pc s) = true ->
  valid_part_size (config (vars s)) ->
  exists rest p,
    remaining_reads s = ReadDone rest p /\
    fragments (config (vars s)) (data (file (vars s))) =
      ReadDone (enqueued s ++ rest) p.

(** ** Ways in which [getUploadConfig] comes back with an error: the request
    cannot be built or sent, the body cannot be read, or it does not decode
    into [UploadConfigResp]. *)
Inductive negotiation_error : http_reply -> error -> Prop :=
| neg_build e : negotiation_error (NewRequestError e) e
| neg_transport e : negotiation_error (DoError e) e
| neg_body st e : negotiation_error (Response st (inl e)) e
| neg_decode st b e : as_config b = inl e -> negotiation_error (Response st (inr b)) e.

Definition config_request (s : state) : NetRequest :=
  ConfigReq (Name (info (vars s))) (FileSize (info (vars s))).

(** ** Forgetting the retry hints *)

Definition forget_retry (c : UploadConfigResp) : UploadConfigResp :=
  mkResp (Result c) (Host c)
    (mkBlock (PartSize (Config c)) (Parallel (Config c)) 0 0)
    (TaskID c) (Token c).

Definition forget_body (b : Body) : Body :=
  mkBody (match as_config b with
          | inl e => inl e
          | inr c => inr (forget_retry c)
          end)
         (as_part b).

Definition forget_reply (r : http_reply) : http_reply :=
  match r with
  | Response st (inr b) => Response st (inr (forget_body b))
  | _ => r
  end.

Definition forget_state (s : state) : state :=
  with_vars
    (mkLocals (v (vars s)) (info (vars s)) (forget_retry (config (vars s)))
       (file (vars s)) (part (vars s)))
    s.

(** Two networks that answer alike but for the retry hints. *)
Definition same_replies (n1 n2 : network) : Prop :=
  forall req, forget_reply (n1 req) = forget_reply (n2 req).

Definition same_input (i1 i2 : input) : Prop :=
  match i1, i2 with
  | Network n1, Network n2 => same_replies n1 n2
  | Network _, _ | _, Network _ => False
  | _, _ => i1 = i2
  end.

Definition same_label (l1 l2 : label) : Prop :=
  match l1, l2 with
  | Main i1, Main i2 => same_input i1 i2
  | Recv a w1, Recv b w2 => a = b /\ w1 = w2
  | Eval g1, Eval g2 => g1 = g2
  | Work w1 n1, Work w2 n2 => w1 = w2 /\ same_replies n1 n2
  | _, _ => False
  end.

(** Two outcomes that are alike but for the retry hints. *)
Definition same_outcome (o1 o2 : option state) : Prop :=
  match o1, o2 with
  | Some a, Some b => forget_state a = forget_state b
  | None, None => True
  | _, _ => False
  end.

(** ** Sample inputs *)

Definition tiny_config : UploadConfigResp :=
  mkResp 1 ""%string (mkBlock 4 1 7 9) "task"%string "tok"%string.
Definition six_bytes : bytes := [x01; x02; x03; x04; x05; x06].
Definition first_half : UploadPart := mkPart [x01; x02; x03] 0.
Definition second_half : UploadPart := mkPart [x04; x05; x06] 1.
Definition sample_flags : Flags := mkFlags "tok"%string "uid"%string false.
Definition sample_info : FileInfo := mkInfo "a"%string 6.

(** A server that answers every request well. *)
Definition good_server (c : UploadConfigResp) : network :=
  fun req =>
    match req with
    | FragmentReq _ _ _ _ _ body =>
        Response 200 (inr (mkBody (inl "not a config"%string)
                             (inr (mkPartResult 1 ""%string (len body)))))
    | _ =>
        Response 200 (inr (mkBody (inr c) (inl "not a part result"%string)))
    end.

(** A server whose endpoints are down. *)
Definition bad_gateway : network := fun _ => DoError "502"%string.

Definition state_after (lv : loopvar) (fl : Flags) (ls : list label)
    (args : list string) : state :=
  match run lv fl ls (init args) with
  | Some s => s
  | None => init args
  end.

(** The run up to the point where the first fragment of the six-byte file
    is held by the one uploader. *)
Definition sample_prefix : list label :=
  [ Main Tick;
    Main (StatResult (inr sample_info));
    Main (Network (good_server tiny_config));
    Main (Network (good_server tiny_config));
    Main (OpenResult (inr six_bytes));
    Main (ReadResult None);
    Recv None 0 ].

Definition sample_state : state :=
  Eval vm_compute in state_after PerLoop sample_flags sample_prefix ["dir/a"%string].

(** The whole run for the six-byte file: negotiation, two fragments, each
    acknowledged at once, finalize. *)
Definition sample_run : list label :=
  sample_prefix ++
  [ Work 0 (good_server tiny_config);
    Main (ReadResult None);
    Recv None 0;
    Work 0 (good_server tiny_config);
    Main (ReadResult None);
    Main Tick;
    Main (Network (good_server tiny_config)) ].

Definition finished_state : state :=
  Eval vm_compute in state_after PerLoop sample_flags sample_run ["dir/a"%string].

(** The run in which the first upload fails while [main] is already waiting
    to hand over the second fragment.  The uploader starts the re-send and
    goes back to the receive, where it takes the second fragment from
    [main]; only then does the re-send come to run.  Both uploads that
    follow succeed. *)
Definition racy_run : list label :=
  sample_prefix ++
  [ Main (ReadResult None);             (* main blocks in ch <- second_half *)
    Work 0 bad_gateway;                 (* the pass for first_half fails *)
    Recv None 0;                        (* item = second_half *)
    Eval 0;                             (* the re-send reads item *)
    Main (ReadResult None);
    Work 0 (good_server tiny_config);
    Recv (Some 0%nat) 0;
    Work 0 (good_server tiny_config);
    Main Tick ].

Definition racy_state : state :=
  Eval vm_compute in state_after PerLoop sample_flags racy_run ["dir/a"%string].

(** The same run with the finalize handshake at its end. *)
Definition racy_run_finalized : list label :=
  racy_run ++ [Main (Network (good_server tiny_config))].

Definition racy_finalized_state : state :=
  Eval vm_compute in
    state_after PerLoop sample_flags racy_run_finalized ["dir/a"%string].

(** The state of that run in which the uploader is in its pass for the first
    fragment and [main] waits to hand over the second. *)
Definition contended_prefix : list label := sample_prefix ++ [Main (ReadResult None)].

Definition contended_state : state :=
  Eval vm_compute in state_after PerLoop sample_flags contended_prefix ["dir/a"%string].

(** The same inputs with the re-send coming to run before the uploader
    receives again. *)
Definition prompt_run : list label :=
  sample_prefix ++
  [ Main (ReadResult None);
    Work 0 bad_gateway;
    Eval 0;
    Recv (Some 0%nat) 0;
    Work 0 (good_server tiny_config);
    Recv None 0;
    Main (ReadResult None);
    Work 0 (good_server tiny_config);
    Main Tick ].

(** The scenario of the specification: ten megabytes, a negotiated part
    size of four megabytes, three uploaders. *)
Definition ten_mb_config : UploadConfigResp :=
  mkResp 1 ""%string (mkBlock 4194304 3 0 0) "task"%string "tok"%string.
Definition ten_mb_file : bytes := repeat x00 (Z.to_nat 10485760).

(** A server that turns the client away: status 403 and a body that
    decodes, with a negative result code and nothing else. *)
Definition refusal : UploadConfigResp :=
  mkResp (-401) ""%string (mkBlock 0 0 0 0) ""%string ""%string.
Definition forbidden_server : network :=
  fun _ => Response 403 (inr (mkBody (inr refusal) (inl "not a part result"%string))).

(** The state in which the sample file is about to be negotiated. *)
Definition negotiating_state : state :=
  Eval vm_compute in
    state_after PerLoop sample_flags [Main Tick; Main (StatResult (inr sample_info))]
      ["dir/a"%string; "dir/b"%string].

(** A run in which the second read of the six-byte file fails. *)
Definition faulty_run : list label :=
  sample_prefix ++
  [ Work 0 (good_server tiny_config);
    Main (ReadResult (Some "input/output error"%string));
    Main Tick;
    Main (Network (good_server tiny_config)) ].

(** The state in which an empty file is about to be opened. *)
Definition opening_state : state :=
  Eval vm_compute in
    state_after PerLoop sample_flags
      [ Main Tick;
        Main (StatResult (inr (mkInfo "empty"%string 0)));
        Main (Network (good_server tiny_config));
        Main (Network (good_server tiny_config)) ]
      ["dir/empty"%string].

(** Steps of the uploaders and of the re-sends, as against steps of
    [main]. *)
Definition uploader_label (l : label) : bool :=
  match l with
  | Main _ => false
  | _ => true
  end.

(** The sample file with its first fragment held by the uploader, after a
    read that failed and the uploader's pass. *)
Definition failed_read : label :=
  Main (ReadResult (Some "input/output error"%string)).

Definition waited_state : state :=
  Eval vm_compute in
    state_after PerLoop sample_flags
      (sample_prefix ++ [failed_read; Work 0 (good_server tiny_config)])
      ["dir/a"%string].

(** ** The pool while [main] waits

    A re-send goroutine that has not yet read [item] was started by an
    uploader, and that uploader's variable holds an item; where there is a
    re-send there is an uploader. *)
Definition resend_sound (ups : list uploader) (r : resend) : bool :=
  match r with
  | Started w =>
      match nth_error ups w with
      | Some u => is_some (loop_item u)
      | None => false
      end
  | Blocked _ => true
  end.

Definition pool_sound (sh : pool) : Prop :=
  forallb (resend_sound (uploaders sh)) (resends sh) = true /\
  (resends sh <> [] -> uploaders sh <> []).

(** A server that confirms every fragment: result code 1 and the size of
    the body it was sent. *)
Definition confirming (net : network) : Prop :=
  forall tok id first last total body,
  exists st b ck,
    net (FragmentReq tok id first last total body) = Response st (inr b) /\
    as_part b = inr (mkPartResult 1 ck (len body)).

(** The steps it takes at most to bring a unit of work to its [wg.Done()]:
    a re-send reads its item, an uploader receives it, the uploader makes
    its pass. *)
Definition resend_weight (r : resend) : nat :=
  match r with
  | Started _ => 3
  | Blocked _ => 2
  end.

Definition pool_weight (sh : pool) : nat :=
  length (filter working (uploaders sh)) + list_sum (map resend_weight (resends sh)).

(** An empty file under the configuration of [forbidden_server], whose part
    size is 0. *)
Definition refused_empty_run : list label :=
  [ Main Tick;
    Main (StatResult (inr (mkInfo "empty"%string 0)));
    Main (Network forbidden_server);
    Main (Network forbidden_server);
    Main (OpenResult (inr []));
    Main (ReadResult None) ].

(** The sample run against a server that gives other retry hints. *)
Definition other_hints : UploadConfigResp :=
  mkResp 1 ""%string (mkBlock 4 1 100 3) "task"%string "tok"%string.

Definition sample_run_other_hints : list label :=
  [ Main Tick;
    Main (StatResult (inr sample_info));
    Main (Network (good_server other_hints));
    Main (Network (good_server other_hints));
    Main (OpenResult (inr six_bytes));
    Main (ReadResult None);
    Recv None 0;
    Work 0 (good_server other_hints);
    Main (ReadResult None);
    Recv None 0;
    Work 0 (good_server other_hints);
    Main (ReadResult None);
    Main Tick;
    Main (Network (good_server other_hints)) ].

(** ** The stages of a file

    What [main] does to a file before the first read, as the trace shows
    it: [os.Stat], the configuration request, the resume request,
    [os.Open]. *)

(** The paths of the ["Local: ..."] lines, newest first. *)
Fixpoint announced (tr : list event) : list string :=
  match tr with
  | [] => []
  | Stdout (Local p) :: tr' => p :: announced tr'
  | _ :: tr' => announced tr'
  end.

(** The file in hand: the path of the newest ["Local: ..."] line. *)
Definition path_in_hand (s : state) : string :=
  match announced (trace s) with
  | p :: _ => p
  | [] => ""%string
  end.

Definition is_stage (e : event) : bool :=
  match e with
  | Stat _ | Open _ | Net (ConfigReq _ _) _ | Net (ResumeReq _) _ => true
  | _ => false
  end.

(** The stage events of the file in hand, oldest first. *)
Definition stages_so_far (s : state) : list event :=
  rev (filter is_stage (segment (trace s))).

Definition all_stages (p : string) (x : locals) : list event :=
  [ Stat p;
    Net (ConfigReq (Name (info x)) (FileSize (info x))) true;
    Net (ResumeReq (Token (config x))) true;
    Open p ].

(** The ways the stages of a file can have gone: any beginning of
    [all_stages], or one that ends with a request that failed. *)
Definition stage_shapes (p : string) (x : locals) : list (list event) :=
  [ firstn 0 (all_stages p x);
    firstn 1 (all_stages p x);
    [Stat p; Net (ConfigReq (Name (info x)) (FileSize (info x))) false];
    firstn 2 (all_stages p x);
    [Stat p; Net (ConfigReq (Name (info x)) (FileSize (info x))) true;
     Net (ResumeReq (Token (config x))) false];
    firstn 3 (all_stages p x);
    all_stages p x ].

(** What the stages are when [main] stands at [c] inside a file. *)
Definition stages_at (c : control) (p : string) (x : locals) : option (list event) :=
  match c with
  | Negotiate => Some (firstn 1 (all_stages p x))
  | Resume => Some (firstn 2 (all_stages p x))
  | Opening => Some (firstn 3 (all_stages p x))
  | Reading | Sending _ | Waiting | Finishing => Some (all_stages p x)
  | Start | NextFile | Exited => None
  end.

Definition is_fragment (r : NetRequest) : bool :=
  match r with
  | FragmentReq _ _ _ _ _ _ => true
  | _ => false
  end.

(** Events that come after [os.Open] has succeeded. *)
Definition after_open (e : event) : bool :=
  match e with
  | Go _ | FileRead _ | Send _ | Resend _ | Ack _ | BarFinish _ => true
  | Net r _ => is_fragment r || is_finalize r
  | _ => false
  end.

Record staged (s : state) : Prop := mkStaged {
  st_shape :
    In (stages_so_far s) (stage_shapes (path_in_hand s) (vars s));
  st_pc :
    forall l, stages_at (pc s) (path_in_hand s) (vars s) = Some l ->
              stages_so_far s = l /\ v (vars s) = path_in_hand s;
  st_after :
    existsb after_open (segment (trace s)) = true ->
    stages_so_far s = all_stages (path_in_hand s) (vars s);
  st_fragment :
    forall req ok,
      In (Net req ok) (segment (trace s)) -> is_fragment req = true ->
      exists item, In item (enqueued s) /\ req = request_of s item
}.

(** ** More sample inputs *)

(** A configuration with a part size of 1, and the state in which the
    six-byte file is about to be opened under it. *)
Definition one_byte_parts : UploadConfigResp :=
  mkResp 1 ""%string (mkBlock 1 1 0 0) "task"%string "tok"%string.

Definition opening_one_byte_parts : state :=
  Eval vm_compute in
    state_after PerLoop sample_flags
      [ Main Tick;
        Main (StatResult (inr sample_info));
        Main (Network (good_server one_byte_parts));
        Main (Network (good_server one_byte_parts)) ]
      ["dir/a"%string].

(** The state in which the first of two files is about to be opened under
    the configuration of [forbidden_server], whose part size is 0. *)
Definition opening_refused : state :=
  Eval vm_compute in
    state_after PerLoop sample_flags
      [ Main Tick;
        Main (StatResult (inr sample_info));
        Main (Network forbidden_server);
        Main (Network forbidden_server) ]
      ["dir/a"%string; "dir/b"%string].

(** A configuration that asks for no uploader at all. *)
Definition no_uploaders : UploadConfigResp :=
  mkResp 1 ""%string (mkBlock 4 0 0 0) "task"%string "tok"%string.

Definition opening_no_uploaders : state :=
  Eval vm_compute in
    state_after PerLoop sample_flags
      [ Main Tick;
        Main (StatResult (inr sample_info));
        Main (Network (good_server no_uploaders));
        Main (Network (good_server no_uploaders)) ]
      ["dir/a"%string].

(** ** Verbose mode

    [uploadRequest] makes the resume request and the completion call; it
    reads the body of the response in verbose mode only. *)
Definition is_bodyless (r : NetRequest) : bool :=
  match r with
  | ResumeReq _ | CompleteReq _ _ => true
  | _ => false
  end.

(** A network that gives no response whose body cannot be read to
    those two requests. *)
Definition readable (net : network) : Prop :=
  forall req st e, is_bodyless req = true -> net req <> Response st (inl e).

Definition readable_label (l : label) : Prop :=
  match l with
  | Main (Network net) => readable net
  | _ => True
  end.

Definition with_debug (d : bool) (fl : Flags) : Flags :=
  mkFlags (token fl) (uid fl) d.

(** ** What the program does not read of a response

    The status code; [result] and [host-name] of the configuration;
    [checksum] of a fragment result. *)
Definition blank_config (c : UploadConfigResp) : UploadConfigResp :=
  mkResp 0 ""%string (Config c) (TaskID c) (Token c).

Definition blank_part (r : UploadPartResult) : UploadPartResult :=
  mkPartResult (PartResult r) ""%string (Size r).

Definition blank_body (b : Body) : Body :=
  mkBody (match as_config b with
          | inl e => inl e
          | inr c => inr (blank_config c)
          end)
         (match as_part b with
          | inl e => inl e
          | inr r => inr (blank_part r)
          end).

Definition blank_reply (r : http_reply) : http_reply :=
  match r with
  | Response _ (inl e) => Response 0 (inl e)
  | Response _ (inr b) => Response 0 (inr (blank_body b))
  | _ => r
  end.

Definition blank_state (s : state) : state :=
  with_vars
    (mkLocals (v (vars s)) (info (vars s)) (blank_config (config (vars s)))
       (file (vars s)) (part (vars s)))
    s.

(** Two networks that answer alike but for those fields. *)
Definition alike_replies (n1 n2 : network) : Prop :=
  forall req, blank_reply (n1 req) = blank_reply (n2 req).

Definition alike_input (i1 i2 : input) : Prop :=
  match i1, i2 with
  | Network n1, Network n2 => alike_replies n1 n2
  | Network _, _ | _, Network _ => False
  | _, _ => i1 = i2
  end.

Definition alike_label (l1 l2 : label) : Prop :=
  match l1, l2 with
  | Main i1, Main i2 => alike_input i1 i2
  | Recv a w1, Recv b w2 => a = b /\ w1 = w2
  | Eval g1, Eval g2 => g1 = g2
  | Work w1 n1, Work w2 n2 => w1 = w2 /\ alike_replies n1 n2
  | _, _ => False
  end.

Definition alike_outcome (o1 o2 : option state) : Prop :=
  match o1, o2 with
  | Some a, Some b => blank_state a = blank_state b
  | None, None => True
  | _, _ => False
  end.

(** The sample run against a server that answers with other status codes,
    another result code and host name, and a checksum. *)
Definition other_fields : UploadConfigResp :=
  mkResp (-7) "elsewhere"%string (mkBlock 4 1 7 9) "task"%string "tok"%string.

Definition odd_server : network :=
  fun req =>
    match req with
    | FragmentReq _ _ _ _ _ body =>
        Response 500 (inr (mkBody (inl "not a config"%string)
                             (inr (mkPartResult 1 "c0ffee"%string (len body)))))
    | _ =>
        Response 404 (inr (mkBody (inr other_fields) (inl "not a part result"%string)))
    end.

Definition sample_run_odd_server : list label :=
  [ Main Tick;
    Main (StatResult (inr sample_info));
    Main (Network odd_server);
    Main (Network odd_server);
    Main (OpenResult (inr six_bytes));
    Main (ReadResult None);
    Recv None 0;
    Work 0 odd_server;
    Main (ReadResult None);
    Recv None 0;
    Work 0 odd_server;
    Main (ReadResult None);
    Main Tick;
    Main (Network odd_server) ].

(** ** Files that do not get as far as the first read

    [os.Stat] fails; or [getUploadConfig] returns an error; or the resume
    request does; or [os.Open] fails.  A mishap holds what the outside
    world hands to [main] for the file. *)
Inductive mishap :=
| StatFails (e : error)
| ConfigFails (i : FileInfo) (net : network)
| ResumeFails (i : FileInfo) (net1 net2 : network)
| OpenFails (i : FileInfo) (net1 net2 : network) (e : error).

Definition mishap_labels (m : mishap) : list label :=
  match m with
  | StatFails e => [Main (StatResult (inl e))]
  | ConfigFails i net => [Main (StatResult (inr i)); Main (Network net)]
  | ResumeFails i net1 net2 =>
      [Main (StatResult (inr i)); Main (Network net1); Main (Network net2)]
  | OpenFails i net1 net2 e =>
      [Main (StatResult (inr i)); Main (Network net1); Main (Network net2);
       Main (OpenResult (inl e))]
  end.

(** The networks of a mishap do what its name says. *)
Definition befalls (dbg : bool) (m : mishap) : Prop :=
  match m with
  | StatFails _ => True
  | ConfigFails i net => exists e, snd (getUploadConfig net i) = inl e
  | ResumeFails i net1 net2 =>
      exists c e,
        snd (getUploadConfig net1 i) = inr c /\
        snd (uploadRequest dbg net2 (ResumeReq (Token c))) = Some e
  | OpenFails i net1 net2 _ =>
      exists c,
        snd (getUploadConfig net1 i) = inr c /\
        snd (uploadRequest dbg net2 (ResumeReq (Token c))) = None
  end.

Definition is_error_line (e : event) : bool :=
  match e with
  | Stdout (GetFileInfoError _) | Stdout (GetUploadConfigError _)
  | Stdout (UploadRequestError _) | Stdout (OpenFileError _)
  | Stdout (FinishUploadError _) => true
  | _ => false
  end.

(** The run of [main] over files each of which meets a mishap. *)
Definition mishap_run (ms : list mishap) : list label :=
  [Main Tick] ++ flat_map mishap_labels ms ++ [Main Tick].

Definition three_mishaps : list mishap :=
  [ StatFails "no such file"%string;
    ConfigFails sample_info bad_gateway;
    OpenFails sample_info (good_server tiny_config) (good_server tiny_config)
      "permission denied"%string ].

(** ** File names *)

Definition has_slash (p : string) : bool :=
  existsb is_slash (list_ascii_of_string p).

(** The state of the sample run after the first fragment is acknowledged. *)
Definition acked_state : state :=
  Eval vm_compute in
    state_after PerLoop sample_flags
      (sample_prefix ++ [Work 0 (good_server tiny_config)]) ["dir/a"%string].

(** ** A server that answers as the program expects

    It hands out the configuration [c], answers the resume request and the
    calls of the handshake with a body that can be read, and confirms every
    fragment: result code 1 and the size of the body it was sent. *)
Definition obliging (c : UploadConfigResp) (net : network) : Prop :=
  (forall name size,
      exists st b, net (ConfigReq name size) = Response st (inr b) /\ as_config b = inr c) /\
  (forall tok, exists st b, net (ResumeReq tok) = Response st (inr b)) /\
  (forall tok id first last total body,
      exists st b ck,
        net (FragmentReq tok id first last total body) = Response st (inr b) /\
        as_part b = inr (mkPartResult 1 ck (len body))) /\
  (forall n tok, exists st b, net (CompleteReq n tok) = Response st (inr b)) /\
  (forall key name, exists st b, net (CreateVideoReq key name) = Response st (inr b)) /\
  (forall task, exists st b, net (FinishReq task) = Response st (inr b)).

(** One fragment goes from the reader through the first uploader. *)
Definition upload_round (net : network) : list label :=
  [Main (ReadResult None); Recv None 0; Work 0 net].

(** The run of [main] over one file of [n] fragments, each of them
    uploaded at once by the first uploader. *)
Definition whole_run (net : network) (i : FileInfo) (contents : bytes) (n : nat)
  : list label :=
  [Main Tick; Main (StatResult (inr i)); Main (Network net); Main (Network net);
   Main (OpenResult (inr contents))]
  ++ concat (repeat (upload_round net) n)
  ++ [Main (ReadResult None); Main Tick; Main (Network net); Main Tick].

(** ** A wait with work left

    The first fragment of the sample file is held by the uploader, the next
    read fails, and the upload of the fragment fails: [main] waits, and a
    re-send has been started. *)
Definition stalled_state : state :=
  Eval vm_compute in
    state_after PerLoop sample_flags
      (sample_prefix ++ [failed_read; Work 0 bad_gateway])
      ["dir/a"%string].

(** * The dispatch of the earlier stage: [src/main.go]

    From the allocation of the buffer to [wg.Wait()], with the uploaders of
    [src/main.go].  [main] reads into the one buffer [buf] and sends
    [&UploadPart{content: buf, count: part}].  An uploader that has
    received an item copies [item.content], which is the buffer as it is at
    that moment, and posts the copy; when the post fails it sends the item
    back on the channel itself, and is blocked in that send until another
    uploader receives it.  On success it adds [len(item.content)], the
    length of the buffer, to the progress bar. *)

Module MainGoRun.

Inductive control :=
| Reading                               (* head of the read loop *)
| Sending (item : MainGo.UploadPart)    (* blocked in [ch <- item] *)
| Waiting                               (* in wg.Wait() *)
| Closed                                (* wg.Wait() has returned; close(ch) *)
| Panicked.                             (* sync: negative WaitGroup counter *)

Inductive uploader :=
| Receiving                             (* blocked in [range *ch] *)
| Posting (item : MainGo.UploadPart)    (* has received [item] *)
| Resending (item : MainGo.UploadPart). (* blocked in [*ch <- item] *)

(** A post that was tried: the item, the bytes copied for it, and whether
    the item was counted as done. *)
Record attempt := mkAttempt {
  subject : MainGo.UploadPart;
  body : bytes;
  done : bool
}.

Record state := mkState {
  pc : control;
  file : File;
  buf : bytes;
  part : Z;
  wg : Z;
  bar : Z;
  uploaders : list uploader;
  sent : list MainGo.UploadPart;        (* enqueued by main, newest first *)
  attempts : list attempt               (* newest first *)
}.

Inductive label :=
| Read (fault : option error)           (* main makes its next read *)
| WaitOver                              (* wg.Wait() returns *)
| Recv (src : option nat) (w : nat)     (* uploader w receives, from main or
                                           from the re-sending uploader src *)
| Post (w : nat) (net : MainGo.fragment_post -> http_reply).
                                        (* uploader w copies and posts *)

(** The state after [buf := make([]byte, n)] and [part := int64(0)], with
    [k] uploaders started. *)
Definition start (contents : bytes) (n : nat) (k : nat) : state :=
  mkState Reading (os_Open contents) (repeat x00 n) 0 0 0 (repeat Receiving k) [] [].

Definition step (dbg : bool) (tok : string) (l : label) (s : state) : option state :=
  match pc s with
  | Panicked => None
  | _ =>
  match l with
  | Read fault =>
      match pc s with
      | Reading =>
          match MainGo.read_turn (buf s) (file s) (part s) fault with
          | MainGo.TurnBreak buf' p =>
              Some (mkState Waiting (file s) buf' p (wg s) (bar s) (uploaders s)
                      (sent s) (attempts s))
          | MainGo.TurnEmit buf' item f' p =>
              Some (mkState (Sending item) f' buf' p (wg s + 1) (bar s) (uploaders s)
                      (item :: sent s) (attempts s))
          end
      | _ => None
      end
  | WaitOver =>
      match pc s with
      | Waiting =>
          if wg s =? 0
          then Some (mkState Closed (file s) (buf s) (part s) (wg s) (bar s)
                       (uploaders s) (sent s) (attempts s))
          else None
      | _ => None
      end
  | Recv None w =>
      match pc s, nth_error (uploaders s) w with
      | Sending item, Some Receiving =>
          Some (mkState Reading (file s) (buf s) (part s) (wg s) (bar s)
                  (set_nth w (Posting item) (uploaders s)) (sent s) (attempts s))
      | _, _ => None
      end
  | Recv (Some g) w =>
      match nth_error (uploaders s) g, nth_error (uploaders s) w with
      | Some (Resending item), Some Receiving =>
          Some (mkState (pc s) (file s) (buf s) (part s) (wg s) (bar s)
                  (set_nth w (Posting item) (set_nth g Receiving (uploaders s)))
                  (sent s) (attempts s))
      | _, _ => None
      end
  | Post w net =>
      match nth_error (uploaders s) w with
      | Some (Posting item) =>
          match MainGo.uploader_pass dbg tok net (buf s) item with
          | Acked =>
              if wg s - 1 <? 0
              then Some (mkState Panicked (file s) (buf s) (part s) (wg s) (bar s)
                           (uploaders s) (sent s) (attempts s))
              else
                Some (mkState (pc s) (file s) (buf s) (part s) (wg s - 1)
                        (bar s + len (buf s))
                        (set_nth w Receiving (uploaders s)) (sent s)
                        (mkAttempt item (buf s) true :: attempts s))
          | Retried =>
              Some (mkState (pc s) (file s) (buf s) (part s) (wg s) (bar s)
                      (set_nth w (Resending item) (uploaders s)) (sent s)
                      (mkAttempt item (buf s) false :: attempts s))
          | Crashed => None
          end
      | _ => None
      end
  end
  end.

Fixpoint run (dbg : bool) (tok : string) (ls : list label) (s : state) : option state :=
  match ls with
  | [] => Some s
  | l :: ls' =>
      match step dbg tok l s with
      | Some s' => run dbg tok ls' s'
      | None => None
      end
  end.

Definition reachable (dbg : bool) (tok : string) (contents : bytes) (n k : nat)
    (s : state) : Prop :=
  exists ls, run dbg tok ls (start contents n k) = Some s.

(** Uploaders that hold an item. *)
Definition holds (u : uploader) : bool :=
  match u with Receiving => false | _ => true end.

Definition is_resending (u : uploader) : bool :=
  match u with Resending _ => true | _ => false end.

Definition in_send (c : control) : nat :=
  match c with Sending _ => 1%nat | _ => 0%nat end.

Definition successes (l : list attempt) : list attempt := filter done l.

(** A network whose every post fails in transport. *)
Definition unreachable_host : MainGo.fragment_post -> http_reply :=
  fun _ => DoError "no route to host"%string.

(** A network that takes every post. *)
Definition accepting : MainGo.fragment_post -> http_reply :=
  fun _ => Response 200 (inr (mkBody (inl "not a config"%string)
                                (inl "not a part result"%string))).

(** What holds in every state of the dispatch that starts with a buffer of
    [n] bytes and [k] uploaders. *)
Record invariant (n k : nat) (s : state) : Prop := mkInvariant {
  inv_buf : length (buf s) = n;
  inv_bodies : Forall (fun a => length (body a) = n) (attempts s);
  inv_counter :
    wg s = Z.of_nat (in_send (pc s) + length (filter holds (uploaders s)));
  inv_balance :
    wg s = Z.of_nat (length (sent s)) - Z.of_nat (length (successes (attempts s)));
  inv_bar :
    bar s = Z.of_nat n * Z.of_nat (length (successes (attempts s)));
  inv_uploaders : length (uploaders s) = k;
  inv_closed : pc s = Closed -> wg s = 0;
  inv_sane : pc s <> Panicked
}.

(** The schedule in which uploader [w] makes every post, each one before
    [main] reads again, for [m] fragments. *)
Fixpoint prompt_run (w : nat) (net : MainGo.fragment_post -> http_reply)
    (m : nat) : list label :=
  match m with
  | O => [Read None; WaitOver]
  | S m => Read None :: Recv None w :: Post w net :: prompt_run w net m
  end.

(** The posts of [chunks] under the numbers that follow [p], each counted
    as done. *)
Fixpoint posted_in_order (p : Z) (chunks : list bytes) : list attempt :=
  match chunks with
  | [] => []
  | c :: rest => mkAttempt (MainGo.mkPart (p + 1)) c true
                 :: posted_in_order (p + 1) rest
  end.

(** One uploader, a file of three bytes read two at a time, and a host that
    cannot be reached: the only uploader is left in its re-send. *)
Definition lone_uploader_run : list label :=
  [Read None; Recv None 0%nat; Post 0%nat unreachable_host].

Definition lone_uploader_state : state :=
  Eval vm_compute in
    match run false "tok"%string lone_uploader_run
            (start [x61; x62; x63] 2 1) with
    | Some s => s
    | None => start [] 0 0
    end.

(** Two uploaders and a server that takes everything, each post made before
    the next read. *)
Definition two_uploader_run : list label :=
  [Read None; Recv None 0%nat; Post 0%nat accepting;
   Read None; Recv None 1%nat; Post 1%nat accepting;
   Read None; WaitOver].

Definition two_uploader_state : state :=
  Eval vm_compute in
    match run false "tok"%string two_uploader_run
            (start [x61; x62; x63] 2 2) with
    | Some s => s
    | None => start [] 0 0
    end.

End MainGoRun.

(** * Proofs *)

(** ** The Fragment Reader *)

Lemma wrap_int_small (x : Z) : - 2 ^ 63 <= x < 2 ^ 63 -> wrap_int x = x.
Proof.
  intros H. unfold wrap_int.
  rewrite Z.mod_small; lia.
Qed.

Lemma make_buffer (P : Z) :
  2 <= P < 2 ^ 63 ->
  make (wrap_int (P - 1)) = Some (repeat x00 (Z.to_nat (P - 1))).
Proof.
  intros H. rewrite wrap_int_small by lia.
  unfold make. destruct (P - 1 <? 0) eqn:E; [apply Z.ltb_lt in E; lia | reflexivity].
Qed.

Lemma slice_overwrite (buf d : bytes) : slice_to (overwrite buf d) (len d) = d.
Proof.
  unfold slice_to, overwrite, len. rewrite Nat2Z.id, firstn_app, firstn_all.
  rewrite Nat.sub_diag. simpl. apply app_nil_r.
Qed.

(** One turn on a healthy file with a buffer of [P-1 >= 1] bytes. *)
Lemma read_turn_healthy (c : UploadConfigResp) (f : File) (p : Z) :
  2 <= PartSize (Config c) < 2 ^ 63 ->
  read_turn c f p None =
    match unread f with
    | [] => TurnBreak 0 (p + 1)
    | _ :: _ =>
        let d := firstn (Z.to_nat (PartSize (Config c) - 1)) (unread f) in
        TurnEmit (len d) (mkPart d (p + 1)) (mkFile (data f) (pos f + length d)) (p + 1)
    end.
Proof.
  intros H. unfold read_turn. rewrite make_buffer by exact H.
  remember (Z.to_nat (PartSize (Config c) - 1)) as n eqn:En.
  destruct n as [|m]; [lia|].
  unfold Read. cbn [repeat length]. rewrite !repeat_length.
  destruct (unread f) as [|b f'] eqn:Eu; [reflexivity|].
  assert (Hpos : 0 < len (firstn (S m) (b :: f'))).
  { unfold len. cbn [firstn length]. lia. }
  destruct (len (firstn (S m) (b :: f')) <=? 0) eqn:E; [apply Z.leb_le in E; lia|].
  cbn [orb is_some]. rewrite slice_overwrite. reflexivity.
Qed.

Lemma unread_advance (f : File) (k : nat) :
  unread (mkFile (data f) (pos f + k)) = skipn k (unread f).
Proof.
  unfold unread. cbn [data pos]. rewrite skipn_skipn. f_equal. lia.
Qed.

(** The loop ends within one turn more than there are unread bytes, and
    what it sends is the unread part of the file cut into pieces of [P-1]
    bytes, numbered from [p+1]. *)
Lemma read_loop_healthy (c : UploadConfigResp) :
  2 <= PartSize (Config c) < 2 ^ 63 ->
  forall fuel f p,
    (length (unread f) < fuel)%nat ->
    exists sent,
      read_loop fuel c f p = ReadDone sent (p + 1 + Z.of_nat (length sent)) /\
      (forall i item, nth_error sent i = Some item ->
                      count item = p + 1 + Z.of_nat i) /\
      (forall i item, nth_error sent i = Some item ->
                      (i + 1 < length sent)%nat ->
                      len (content item) = PartSize (Config c) - 1) /\
      (forall item, In item sent ->
                    0 < len (content item) <= PartSize (Config c) - 1) /\
      concat (map content sent) = unread f.
Proof.
  intros HP. induction fuel as [|fuel IH]; intros f p Hlen; [lia|].
  cbn [read_loop]. rewrite read_turn_healthy by exact HP.
  destruct (unread f) as [|b f'] eqn:Eu.
  - exists []. cbn [length read_loop concat map].
    split; [f_equal; lia|].
    split; [|split; [|split]].
    + intros i item H. destruct i; discriminate.
    + intros i item H. destruct i; discriminate.
    + intros item [].
    + reflexivity.
  - cbv zeta. set (n := Z.to_nat (PartSize (Config c) - 1)).
    assert (Hn : (1 <= n)%nat) by (subst n; lia).
    set (u := b :: f') in *.
    assert (Hu : (1 <= length u)%nat) by (subst u; cbn; lia).
    set (f1 := mkFile (data f) (pos f + length (firstn n u))).
    assert (Eu1 : unread f1 = skipn n u).
    { subst f1. rewrite unread_advance, Eu. fold u.
      rewrite length_firstn.
      destruct (Nat.le_ge_cases n (length u)) as [Hle|Hge].
      - rewrite Nat.min_l by exact Hle. reflexivity.
      - rewrite Nat.min_r by exact Hge.
        rewrite !skipn_all2 by lia. reflexivity. }
    destruct (IH f1 (p + 1)) as (sent & Hrun & Hcnt & Hfull & Hsz & Hcat).
    { rewrite Eu1, length_skipn. lia. }
    rewrite Hrun.
    exists (mkPart (firstn n u) (p + 1) :: sent).
    assert (Hhead : 0 < len (firstn n u) <= PartSize (Config c) - 1).
    { unfold len. rewrite length_firstn. subst n. lia. }
    split; [f_equal; cbn [length]; lia|].
    split; [|split; [|split]].
    + intros i item H. destruct i as [|i]; cbn in H.
      * inversion H. cbn. lia.
      * rewrite (Hcnt _ _ H). lia.
    + intros i item H Hi. destruct i as [|i]; cbn in H.
      * inversion H. cbn [content].
        destruct sent as [|it sent']; [cbn in Hi; lia|].
        assert (Hit : 0 < len (content it)) by (apply Hsz; left; reflexivity).
        assert (Hsk : (0 < length (skipn n u))%nat).
        { rewrite <- Eu1, <- Hcat. cbn. rewrite length_app. unfold len in Hit. lia. }
        rewrite length_skipn in Hsk.
        unfold len. rewrite length_firstn. subst n. lia.
      * apply (Hfull i item H). cbn [length] in Hi. lia.
    + intros item [H|H]; [subst item; exact Hhead | apply Hsz, H].
    + cbn. rewrite Hcat, Eu1. apply firstn_skipn.
Qed.

(** ** C1 *)

(** C1, as stated, fails: with a negotiated part size of 4 the six-byte file
    is sent as two fragments of 3 bytes, so the first fragment, which is not
    the last, does not have 4 bytes. *)
Lemma C1_counterexample :
  fragments tiny_config six_bytes =
    ReadDone [mkPart [x01; x02; x03] 0; mkPart [x04; x05; x06] 1] 2 /\
  ~ reader_spec (PartSize (Config tiny_config)) six_bytes
      (fragments tiny_config six_bytes).
Proof.
  split; [reflexivity|].
  intros (sent & part & Hrun & _ & Hfull & _).
  cbv in Hrun. inversion Hrun; subst sent part; clear Hrun.
  specialize (Hfull 0%nat _ eq_refl). cbn in Hfull.
  assert (3 = 4) by (apply Hfull; lia). discriminate.
Qed.

(** C1, amended: for a negotiated part size [P] with [2 <= P] the reader
    works with buffers of [P-1] bytes.  It ends; the fragments it sends are
    numbered 0, 1, 2, ... without gaps; each but the last has exactly [P-1]
    bytes and none has more; none is empty; their contents in order are the
    file; and [part] ends as their number. *)
Theorem C1_reader_splits_file (c : UploadConfigResp) (f : bytes) :
  2 <= PartSize (Config c) < 2 ^ 63 ->
  reader_spec (PartSize (Config c) - 1) f (fragments c f) /\
  exists sent,
    fragments c f = ReadDone sent (Z.of_nat (length sent)) /\
    forall item, In item sent -> 0 < len (content item).
Proof.
  intros HP. unfold fragments.
  destruct (read_loop_healthy c HP (S (length f)) (os_Open f) (-1)) as
    (sent & Hrun & Hcnt & Hfull & Hsz & Hcat); [cbn; lia|].
  change (unread (os_Open f)) with f in Hcat.
  replace (-1 + 1 + Z.of_nat (length sent)) with (Z.of_nat (length sent)) in Hrun by lia.
  split.
  - exists sent, (Z.of_nat (length sent)).
    split; [exact Hrun|]. split; [|split; [|split]].
    + intros i item H. rewrite (Hcnt _ _ H). lia.
    + exact Hfull.
    + intros item H. apply Hsz, H.
    + exact Hcat.
  - exists sent. split; [exact Hrun|]. intros item H. apply Hsz, H.
Qed.

Lemma C1_reader_splits_file_witness :
  reader_spec (PartSize (Config tiny_config) - 1) six_bytes
    (fragments tiny_config six_bytes) /\
  exists sent,
    fragments tiny_config six_bytes = ReadDone sent (Z.of_nat (length sent)) /\
    forall item, In item sent -> 0 < len (content item).
Proof.
  apply (C1_reader_splits_file tiny_config six_bytes). cbn. lia.
Defined.

(** ** Lists updated in place *)

Lemma nth_decompose {A} (l : list A) (k : nat) (y : A) :
  nth_error l k = Some y ->
  exists l1 l2,
    l = l1 ++ y :: l2 /\
    (forall x, set_nth k x l = l1 ++ x :: l2) /\
    remove_nth k l = l1 ++ l2.
Proof.
  intros H. destruct (nth_error_split l k H) as (l1 & l2 & -> & Hk). subst k.
  exists l1, l2. split; [reflexivity|].
  assert (Hf : firstn (length l1) (l1 ++ y :: l2) = l1).
  { rewrite firstn_app, firstn_all, Nat.sub_diag. cbn. apply app_nil_r. }
  assert (Hs : skipn (S (length l1)) (l1 ++ y :: l2) = l2).
  { rewrite skipn_app, skipn_all2 by lia.
    replace (S (length l1) - length l1)%nat with 1%nat by lia. reflexivity. }
  unfold set_nth, remove_nth. rewrite Hf, Hs. auto.
Qed.

Lemma UploadPart_eq_dec (a b : UploadPart) : {a = b} + {a <> b}.
Proof.
  decide equality; [apply Z.eq_dec|].
  apply list_eq_dec, Strings.Byte.byte_eq_dec.
Qed.

(** What a turn of the read loop can be, whatever the configuration. *)
Lemma read_turn_emit (c : UploadConfigResp) (f : File) (p : Z) (fault : option error)
    (nr : Z) (item : UploadPart) (f' : File) (p' : Z) :
  read_turn c f p fault = TurnEmit nr item f' p' ->
  fault = None /\ p' = p + 1 /\ count item = p + 1 /\ nr = len (content item) /\
  0 < len (content item) /\
  f' = mkFile (data f) (pos f + length (content item)) /\
  exists k, content item = firstn k (unread f).
Proof.
  unfold read_turn. destruct (make _) as [buf|]; [|discriminate].
  unfold Read. destruct fault as [e|]; [cbn; discriminate|].
  destruct buf as [|b0 buf]; [cbn; discriminate|].
  destruct (unread f) as [|b u] eqn:Eu; [cbn; discriminate|].
  set (d := firstn (length (b0 :: buf)) (b :: u)).
  assert (Hd : 0 < len d) by (subst d; unfold len; cbn [length firstn]; lia).
  destruct (len d <=? 0) eqn:E; [apply Z.leb_le in E; lia|].
  cbn [orb is_some]. rewrite slice_overwrite.
  intros H. inversion H; subst. cbn [content count].
  repeat split; auto. exists (length (b0 :: buf)). reflexivity.
Qed.

Lemma read_turn_break (c : UploadConfigResp) (f : File) (p : Z) (fault : option error)
    (nr p' : Z) :
  read_turn c f p fault = TurnBreak nr p' -> p' = p + 1 /\ nr = 0.
Proof.
  unfold read_turn. destruct (make _) as [buf|]; [|discriminate].
  unfold Read. destruct fault as [e|].
  - cbn. intros H. inversion H. auto.
  - destruct buf as [|b0 buf]; [cbn; intros H; inversion H; auto|].
    destruct (unread f) as [|b u] eqn:Eu; [cbn; intros H; inversion H; auto|].
    set (d := firstn (length (b0 :: buf)) (b :: u)).
    assert (Hd : 0 < len d) by (subst d; unfold len; cbn [length firstn]; lia).
    destruct (len d <=? 0) eqn:E; [apply Z.leb_le in E; lia|].
    cbn. discriminate.
Qed.

(** ** Taking a step apart

    [step_cases H]: every way in which [H : step lv fl l s = Some s'] can
    hold, with [s'] replaced by what the step builds. *)
Ltac crack_net H :=
  repeat match type of H with
         | context [?net ?r] =>
             match type of net with network => idtac end;
             let E := fresh "Enet" in
             destruct (net r) as [?e|?e|?st [?e|?b]] eqn:E
         end.

Ltac crack H :=
  repeat (cbn beta iota zeta in H;
          match type of H with
          | None = Some _ => discriminate H
          | context [debug ?fl] =>
              let E := fresh "Edebug" in destruct (debug fl) eqn:E
          | context [as_config ?b] =>
              let E := fresh "Ejson" in destruct (as_config b) eqn:E
          | context [as_part ?b] =>
              let E := fresh "Ejson" in destruct (as_part b) eqn:E
          | context [match ?x with _ => _ end] =>
              lazymatch x with
              | context [match _ with _ => _ end] => fail
              | _ => let E := fresh "E" in destruct x eqn:E
              end
          end).

Ltac step_cases H :=
  unfold step in H;
  match type of H with
  | (if panicked ?s then _ else _) = _ =>
      let Hp := fresh "Hpanicked" in
      destruct (panicked s) eqn:Hp; [discriminate H|]
  end;
  match type of H with
  | match ?l with _ => _ end = _ => destruct l as [?i|?src ?w|?g|?w ?net]
  end;
  [ unfold main_step in H; cbv beta zeta in H;
    match type of H with
    | context [pc ?s] => let Hpc := fresh "Hpc" in destruct (pc s) eqn:Hpc
    end;
    match goal with i : input |- _ => destruct i end; try discriminate H;
    unfold getUploadConfig, finishUpload, uploadRequest, request in H;
    crack_net H; crack H
  | unfold recv_step, receive in H; cbv beta zeta in H;
    match goal with
    | src : option nat |- _ =>
        destruct src;
        [ match type of H with
          | context [nth_error (resends ?sh) ?g] =>
              let Hg := fresh "Hg" in
              destruct (nth_error (resends sh) g) as [[?|?]|] eqn:Hg;
              try discriminate H
          end
        | match type of H with
          | context [pc ?s] =>
              let Hpc := fresh "Hpc" in
              destruct (pc s) eqn:Hpc; try discriminate H
          end ]
    end;
    match type of H with
    | context [nth_error (uploaders ?sh) ?w] =>
        let Hw := fresh "Hw" in
        destruct (nth_error (uploaders sh) w) as [?u|] eqn:Hw; [|discriminate H]
    end;
    match type of H with
    | context [working ?u] =>
        let Hidle := fresh "Hidle" in
        destruct (working u) eqn:Hidle; [discriminate H|]
    end
  | unfold eval_step in H; cbv beta zeta in H;
    match type of H with
    | context [nth_error (resends ?sh) ?g] =>
        let Hg := fresh "Hg" in
        destruct (nth_error (resends sh) g) as [[?|?]|] eqn:Hg;
        try discriminate H
    end;
    match type of H with
    | context [nth_error (uploaders ?sh) ?w] =>
        let Hw := fresh "Hw" in
        destruct (nth_error (uploaders sh) w) as [?u|] eqn:Hw; [|discriminate H]
    end;
    match type of H with
    | context [loop_item ?u] =>
        let Hu := fresh "Hitem" in
        destruct (loop_item u) eqn:Hu; [|discriminate H]
    end
  | unfold work_step, uploader_pass in H; cbv beta zeta in H;
    match type of H with
    | context [nth_error (uploaders ?sh) ?w] =>
        let Hw := fresh "Hw" in
        destruct (nth_error (uploaders sh) w) as [[[?item|] [|]]|] eqn:Hw;
        try discriminate H
    end;
    crack_net H; crack H ];
  try discriminate H;
  injection H as <-.

Ltac unstate :=
  unfold fragment_request in *;
  cbn [pc files vars shared trace panicked log goto with_vars with_files
       with_shared panic v info config file part wg bar uploaders resends
       rev app] in *.

(** The lists of uploaders and re-sends that a step has looked into are
    cut at the place it looked at. *)
Ltac open_uploaders :=
  match goal with
  | Hn : nth_error (uploaders (shared ?s)) ?w = Some ?u |- _ =>
      let ups := fresh "ups" in
      let E := fresh "E" in
      remember (uploaders (shared s)) as ups eqn:E in *; clear E;
      let l1 := fresh "ups1" in
      let l2 := fresh "ups2" in
      let El := fresh "El" in
      let Eset := fresh "Eset" in
      destruct (nth_decompose _ _ _ Hn) as (l1 & l2 & El & Eset & _);
      rewrite ?Eset in *; clear Eset Hn; subst ups
  end.

Ltac open_resends :=
  match goal with
  | Hn : nth_error (resends (shared ?s)) ?g = Some ?r |- _ =>
      let rs := fresh "rs" in
      let E := fresh "E" in
      remember (resends (shared s)) as rs eqn:E in *; clear E;
      let l1 := fresh "rs1" in
      let l2 := fresh "rs2" in
      let El := fresh "El" in
      let Eset := fresh "Eset" in
      let Erem := fresh "Erem" in
      destruct (nth_decompose _ _ _ Hn) as (l1 & l2 & El & Eset & Erem);
      rewrite ?Eset, ?Erem in *; clear Eset Erem Hn; subst rs
  end.

Ltac open_pool := try open_uploaders; try open_resends.

Ltac unlist :=
  unfold under_way, inflight, held, blocked, pointed in *;
  rewrite ?filter_app, ?flat_map_app, ?length_app in *;
  cbn [filter flat_map held1 blocked1 pointed1 working loop_item length app
       sending] in *;
  rewrite ?length_app in *; cbn [length] in *.

Lemma filter_working_fresh (n : nat) :
  filter working (repeat (mkUploader None false) n) = [].
Proof. induction n; [reflexivity | exact IHn]. Qed.

Lemma filter_idem {A} (f : A -> bool) (l : list A) :
  filter f (filter f l) = filter f l.
Proof.
  induction l as [|a l IH]; [reflexivity|]. cbn.
  destruct (f a) eqn:E; cbn; rewrite ?E, IH; reflexivity.
Qed.

Ltac prepare :=
  unfold under_way, inflight, enqueued, acked in *;
  unstate; open_pool; unstate.

Lemma step_counter (lv : loopvar) (fl : Flags) (l : label) (s s' : state) :
  invariant lv s -> step lv fl l s = Some s' ->
  wg (shared s') = Z.of_nat (under_way s').
Proof.
  intros I H. pose proof (inv_counter lv s I) as Hc.
  step_cases H; prepare; try rewrite Hpc in *.
  all: rewrite ?filter_working_fresh, ?filter_idem; unlist.
  all: try match goal with E : working _ = _ |- _ => rewrite E in * end.
  all: try match goal with E : (_ <? _) = _ |- _ => apply Z.ltb_ge in E end.
  all: cbn [length] in *; try lia.
Qed.

Lemma working_dispatching (lv : loopvar) (s : state) (w : nat) (u : uploader) :
  invariant lv s -> nth_error (uploaders (shared s)) w = Some u ->
  dispatching (pc s) = true.
Proof.
  intros I H. destruct (dispatching (pc s)) eqn:E; [reflexivity|].
  destruct (inv_quiet lv s I E) as [Hb _]. rewrite Hb in H.
  destruct w; discriminate.
Qed.

Lemma resend_dispatching (lv : loopvar) (s : state) (g : nat) (r : resend) :
  invariant lv s -> nth_error (resends (shared s)) g = Some r ->
  dispatching (pc s) = true.
Proof.
  intros I H. destruct (dispatching (pc s)) eqn:E; [reflexivity|].
  destruct (inv_quiet lv s I E) as [_ Hr]. rewrite Hr in H.
  destruct g; discriminate.
Qed.

Lemma dispatching_in_session (c : control) :
  dispatching c = true -> in_session c = true /\ file_open c = true.
Proof. destruct c; cbn; intros; try discriminate; auto. Qed.

(** In the steps of the uploaders and the re-sends the place of [main] is
    not fixed by the step; it is one of the dispatch phase. *)
Ltac pc_from_pool I :=
  try match goal with
      | Hn : nth_error (uploaders (shared ?s)) _ = Some _ |- _ =>
          let D := fresh "Hdisp" in
          pose proof (working_dispatching _ s _ _ I Hn) as D;
          let D1 := fresh "Hsess" in let D2 := fresh "Hopen" in
          destruct (dispatching_in_session _ D) as [D1 D2]
      | Hn : nth_error (resends (shared ?s)) _ = Some _ |- _ =>
          let D := fresh "Hdisp" in
          pose proof (resend_dispatching _ s _ _ I Hn) as D;
          let D1 := fresh "Hsess" in let D2 := fresh "Hopen" in
          destruct (dispatching_in_session _ D) as [D1 D2]
      end.

Lemma step_quiet (lv : loopvar) (fl : Flags) (l : label) (s s' : state) :
  invariant lv s -> step lv fl l s = Some s' ->
  dispatching (pc s') = false ->
  uploaders (shared s') = [] /\ resends (shared s') = [].
Proof.
  intros I H. pose proof (inv_counter lv s I) as Hc. pose proof (inv_quiet lv s I) as Hq.
  step_cases H; pc_from_pool I; unfold under_way in *; unstate;
    try rewrite Hpc in *; cbn [dispatching sending length] in *.
  all: try (intros; discriminate).
  all: try (exact Hq).
  all: try congruence.
  all: try (intros _; apply Hq; reflexivity).
  intros _.
  match goal with E : (wg _ =? 0) = true |- _ => apply Z.eqb_eq in E; rewrite E in Hc end.
  destruct (filter working (uploaders (shared s))), (resends (shared s));
    cbn in Hc; try lia; auto.
Qed.

Lemma step_fresh (lv : loopvar) (fl : Flags) (l : label) (s s' : state) :
  invariant lv s -> step lv fl l s = Some s' ->
  in_session (pc s') = true -> file_open (pc s') = false ->
  sends (segment (trace s')) = [] /\ acks (segment (trace s')) = [].
Proof.
  intros I H. pose proof (inv_fresh lv s I) as Hf.
  step_cases H; pc_from_pool I; unstate;
    try rewrite Hpc in *; cbn [in_session file_open segment sends acks] in *.
  all: try (intros; discriminate).
  all: try congruence.
  all: try (intros _ _; auto).
  all: try (apply Hf; reflexivity).
Qed.

Lemma step_no_handshake (lv : loopvar) (fl : Flags) (l : label) (s s' : state) :
  invariant lv s -> step lv fl l s = Some s' ->
  in_session (pc s') = true -> finalize_calls (segment (trace s')) = [].
Proof.
  intros I H. pose proof (inv_no_handshake lv s I) as Hn.
  step_cases H; pc_from_pool I; unstate;
    try rewrite Hpc in *;
    cbn [in_session segment finalize_calls is_finalize] in *.
  all: try (intros; discriminate).
  all: try congruence.
  all: try (intros _; auto).
  all: try (apply Hn; reflexivity).
Qed.

Lemma step_order (lv : loopvar) (fl : Flags) (l : label) (s s' : state) :
  invariant lv s -> step lv fl l s = Some s' ->
  dispatch_before_finalize (segment (trace s')) = true.
Proof.
  intros I H. pose proof (inv_order lv s I) as Ho.
  pose proof (inv_no_handshake lv s I) as Hn.
  step_cases H; pc_from_pool I; unstate;
    try rewrite Hpc in *;
    cbn [in_session segment dispatch_before_finalize is_dispatch
         finalize_calls is_finalize] in *.
  all: try exact Ho.
  all: try reflexivity.
  all: try (rewrite Hn by reflexivity; reflexivity).
  all: try (rewrite Hn by assumption; reflexivity).
Qed.

Lemma step_handshake (lv : loopvar) (fl : Flags) (l : label) (s s' : state) :
  invariant lv s -> step lv fl l s = Some s' ->
  In (rev (finalize_calls (segment (trace s')))) (handshakes (vars s')).
Proof.
  intros I H. pose proof (inv_handshake lv s I) as Hh.
  pose proof (inv_no_handshake lv s I) as Hn.
  step_cases H; pc_from_pool I; unstate;
    try rewrite Hpc in *;
    cbn [in_session segment finalize_calls is_finalize] in *.
  all: try exact Hh.
  all: try (left; reflexivity).
  all: try (rewrite Hn by reflexivity; left; reflexivity).
  all: try (rewrite Hn by reflexivity; unfold handshakes; cbn; tauto).
Qed.

Lemma step_part (lv : loopvar) (fl : Flags) (l : label) (s s' : state) :
  invariant lv s -> step lv fl l s = Some s' ->
  file_open (pc s') = true ->
  part (vars s') =
    Z.of_nat (length (enqueued s')) - (if dispatching (pc s') then
                                         match pc s' with Waiting => 0 | _ => 1 end
                                       else 0).
Proof.
  intros I H. pose proof (inv_part lv s I) as Hp.
  pose proof (inv_fresh lv s I) as Hf.
  step_cases H; pc_from_pool I; unfold enqueued in *; unstate;
    try rewrite Hpc in *;
    cbn [in_session file_open dispatching segment sends] in *.
  all: try (intros; discriminate).
  all: try exact Hp.
  all: try match goal with
         | E : read_turn _ _ _ _ = TurnEmit _ _ _ _ |- _ =>
             apply read_turn_emit in E;
             destruct E as (_ & -> & _ & _ & _ & _ & _)
         | E : read_turn _ _ _ _ = TurnBreak _ _ |- _ =>
             apply read_turn_break in E; destruct E as (-> & _)
         end.
  all: try (intros _; specialize (Hp eq_refl); cbn [rev] in *;
            rewrite ?length_app in *; cbn [length] in *; lia).
  all: try (intros _; destruct Hf as [-> _]; [reflexivity ..|]; reflexivity).
Qed.

Lemma step_index (lv : loopvar) (fl : Flags) (l : label) (s s' : state) :
  invariant lv s -> step lv fl l s = Some s' ->
  forall i item, nth_error (enqueued s') i = Some item -> count item = Z.of_nat i.
Proof.
  intros I H. pose proof (inv_index lv s I) as Hi.
  pose proof (inv_part lv s I) as Hp.
  step_cases H; pc_from_pool I; unfold enqueued in *; unstate;
    try rewrite Hpc in *;
    cbn [in_session file_open dispatching segment sends] in *.
  all: try exact Hi.
  all: try (intros i it Hit; destruct i; discriminate).
  all: try match goal with
         | E : read_turn _ _ _ _ = TurnEmit _ _ _ _ |- _ =>
             apply read_turn_emit in E;
             destruct E as (_ & _ & Hcount & _ & _ & _ & _)
         end.
  all: intros i it Hit; cbn [rev] in Hit; specialize (Hp eq_refl).
  all: destruct (Nat.lt_ge_cases i (length (rev (sends (segment (trace s)))))) as [Hlt|Hge].
  all: try (rewrite nth_error_app1 in Hit by exact Hlt; apply Hi, Hit).
  all: rewrite nth_error_app2 in Hit by exact Hge.
  all: destruct (i - length (rev (sends (segment (trace s)))))%nat as [|j] eqn:Ej;
    cbn in Hit; [|destruct j; discriminate].
  all: inversion Hit; subst it; lia.
Qed.

Lemma step_bar (lv : loopvar) (fl : Flags) (l : label) (s s' : state) :
  invariant lv s -> step lv fl l s = Some s' ->
  file_open (pc s') = true -> bar (shared s') = total_len (acked s').
Proof.
  intros I H. pose proof (inv_bar lv s I) as Hb.
  pose proof (inv_fresh lv s I) as Hf.
  step_cases H; pc_from_pool I; unfold acked in *; unstate;
    try rewrite Hpc in *;
    cbn [in_session file_open dispatching segment acks total_len fold_right] in *.
  all: try (intros; discriminate).
  all: try exact Hb.
  all: try (intros _; specialize (Hb eq_refl); lia).
  all: try (intros _; destruct Hf as [_ ->]; [reflexivity ..|]; reflexivity).
  all: try (intros _; rewrite (Hb Hopen); unfold total_len; lia).
Qed.

Lemma firstn_length_firstn {A} (l : list A) (k : nat) :
  firstn (length (firstn k l)) l = firstn k l.
Proof.
  rewrite length_firstn.
  destruct (Nat.le_ge_cases k (length l)) as [H|H].
  - rewrite Nat.min_l by exact H. reflexivity.
  - rewrite Nat.min_r by exact H. rewrite firstn_all, firstn_all2 by exact H.
    reflexivity.
Qed.

Lemma firstn_extend {A} (l : list A) (p k : nat) :
  (p <= length l)%nat ->
  firstn (p + length (firstn k (skipn p l))) l = firstn p l ++ firstn k (skipn p l)
  /\ (p + length (firstn k (skipn p l)) <= length l)%nat.
Proof.
  intros Hp. split.
  - pose proof (firstn_skipn p l) as E.
    assert (Ha : length (firstn p l) = p) by (rewrite length_firstn; lia).
    remember (firstn p l) as a. remember (skipn p l) as b.
    rewrite <- E. rewrite <- Ha at 1.
    rewrite firstn_app_2, firstn_length_firstn. reflexivity.
  - rewrite length_firstn, length_skipn. lia.
Qed.

Lemma step_bytes (lv : loopvar) (fl : Flags) (l : label) (s s' : state) :
  invariant lv s -> step lv fl l s = Some s' ->
  file_open (pc s') = true ->
  concat (map content (enqueued s')) =
    firstn (pos (file (vars s'))) (data (file (vars s')))
  /\ (pos (file (vars s')) <= length (data (file (vars s'))))%nat.
Proof.
  intros I H. pose proof (inv_bytes lv s I) as Hb.
  pose proof (inv_fresh lv s I) as Hf.
  step_cases H; pc_from_pool I; unfold enqueued in *; unstate;
    try rewrite Hpc in *;
    cbn [in_session file_open dispatching segment sends] in *.
  all: try (intros; discriminate).
  all: try exact Hb.
  all: try (intros _; apply Hb; reflexivity).
  all: try (intros _; destruct Hf as [-> _]; [reflexivity ..|]; cbn; split; [reflexivity|lia]).
  all: match goal with
       | E : read_turn _ _ _ _ = TurnEmit _ _ _ _ |- _ =>
           apply read_turn_emit in E;
           destruct E as (_ & _ & _ & _ & _ & -> & kk & Hk)
       end.
  all: intros _; destruct (Hb eq_refl) as [Hcat Hle]; cbn [rev data pos].
  all: rewrite map_app, concat_app, Hcat; cbn [map concat]; rewrite app_nil_r.
  all: rewrite Hk; unfold unread; apply and_comm; split;
    [apply firstn_extend, Hle | symmetry; apply firstn_extend, Hle].
Qed.

Lemma step_finish (lv : loopvar) (fl : Flags) (l : label) (s s' : state) :
  invariant lv s -> step lv fl l s = Some s' ->
  pc s' = Finishing -> exists tr, trace s' = BarFinish (bar (shared s')) :: tr.
Proof.
  intros I H. pose proof (inv_finish lv s I) as Hf.
  step_cases H; pc_from_pool I; unstate; try rewrite Hpc in *.
  all: try (intros; discriminate).
  all: try (intros _; eexists; reflexivity).
  all: intros Hfin; rewrite Hfin in Hdisp; discriminate.
Qed.

Lemma step_started (lv : loopvar) (fl : Flags) (l : label) (s s' : state) :
  invariant lv s -> step lv fl l s = Some s' ->
  file_open (pc s') = true ->
  In (Go (Z.to_nat (Parallel (Config (config (vars s')))))) (segment (trace s')).
Proof.
  intros I H. pose proof (inv_started lv s I) as Hs.
  step_cases H; pc_from_pool I; unstate;
    try rewrite Hpc in *; cbn [file_open segment In] in *.
  all: try (intros; discriminate).
  all: try exact Hs.
  all: try (intros _; auto 6).
Qed.

Lemma step_panic (lv : loopvar) (fl : Flags) (l : label) (s s' : state) :
  invariant lv s -> step lv fl l s = Some s' ->
  panicked s' = true -> dispatching (pc s') = true.
Proof.
  intros I H.
  step_cases H; pc_from_pool I; unstate; try rewrite Hpc in *.
  all: try (intros; congruence).
  all: try (intros _; reflexivity).
Qed.

Lemma step_workers (lv : loopvar) (fl : Flags) (l : label) (s s' : state) :
  invariant lv s -> step lv fl l s = Some s' ->
  dispatching (pc s') = true ->
  length (uploaders (shared s')) = Z.to_nat (Parallel (Config (config (vars s')))).
Proof.
  intros I H. pose proof (inv_workers lv s I) as Hn.
  step_cases H; pc_from_pool I; prepare;
    try rewrite Hpc in *; cbn [dispatching] in *.
  all: try (intros; discriminate).
  all: try exact Hn.
  all: try (intros _; apply repeat_length).
  all: try (intros _; specialize (Hn eq_refl); rewrite ?length_app in *;
            cbn [length] in *; exact Hn).
  all: try (intros _; specialize (Hn Hdisp); rewrite ?length_app in *;
            cbn [length] in *; exact Hn).
Qed.

Lemma Forall_fresh (P : uploader -> Prop) (n : nat) :
  P (mkUploader None false) -> Forall P (repeat (mkUploader None false) n).
Proof. intros H. induction n; constructor; auto. Qed.

Lemma Forall_filter {A} (P : A -> Prop) (f : A -> bool) (l : list A) :
  Forall P l -> Forall P (filter f l).
Proof.
  induction 1 as [|a l Ha _ IH]; cbn; [constructor|].
  destruct (f a); [constructor|]; assumption.
Qed.

Lemma step_working (lv : loopvar) (fl : Flags) (l : label) (s s' : state) :
  invariant lv s -> step lv fl l s = Some s' ->
  Forall (fun u => working u = true -> loop_item u <> None) (uploaders (shared s')).
Proof.
  intros I H. pose proof (inv_working lv s I) as Hk.
  step_cases H; prepare.
  all: try exact Hk.
  all: try (apply Forall_fresh; cbn; discriminate).
  all: try (apply Forall_filter, Hk).
  all: rewrite Forall_app, Forall_cons_iff in *; cbn [working loop_item].
  all: intuition discriminate.
Qed.

Lemma pointed_fresh (n : nat) : pointed (repeat (mkUploader None false) n) = [].
Proof. induction n; [reflexivity | exact IHn]. Qed.

Lemma held_fresh (n : nat) : held (repeat (mkUploader None false) n) = [].
Proof. induction n; [reflexivity | exact IHn]. Qed.

Lemma held_filter (ups : list uploader) : held (filter working ups) = held ups.
Proof.
  induction ups as [|u ups IH]; [reflexivity|]. cbn [filter].
  destruct (working u) eqn:E; unfold held in *; cbn [flat_map].
  - f_equal. exact IH.
  - replace (held1 u) with (@nil UploadPart) by (unfold held1; rewrite E; reflexivity).
    exact IH.
Qed.

Lemma pointed_filter (ups : list uploader) (item : UploadPart) :
  In item (pointed (filter working ups)) -> In item (pointed ups).
Proof.
  induction ups as [|u ups IH]; [auto|]. cbn [filter].
  destruct (working u); cbn [pointed flat_map]; rewrite ?in_app_iff; intuition.
Qed.

Lemma step_known (lv : loopvar) (fl : Flags) (l : label) (s s' : state) :
  invariant lv s -> step lv fl l s = Some s' ->
  forall item,
    In item (acked s') \/ In item (inflight s') \/
    In item (pointed (uploaders (shared s'))) ->
    In item (enqueued s').
Proof.
  intros I H. pose proof (inv_known lv s I) as Hk.
  pose proof (inv_quiet lv s I) as Hq.
  step_cases H; pc_from_pool I; prepare; try rewrite Hpc in *.
  all: cbn [segment sends acks dispatching] in *.
  all: try exact Hk.
  all: try (destruct Hq as [-> ->]; [reflexivity|]; cbn; tauto).
  all: rewrite ?pointed_fresh, ?held_fresh, ?held_filter; unlist.
  all: try match goal with E : working _ = _ |- _ => rewrite E in * end.
  all: try match goal with E : loop_item _ = _ |- _ => rewrite E in * end.
  all: cbn [rev app In] in *.
  all: intros it Hin; specialize (Hk it); rewrite ?in_app_iff in *; cbn [In] in *.
  all: try tauto.
  all: try (destruct Hin as [Hin|[Hin|Hin]]; [tauto..|]; apply pointed_filter in Hin; tauto).
  all: unfold pointed1 in *;
    match goal with E : loop_item _ = _ |- _ => rewrite E in * end;
    cbn [In] in *; tauto.
Qed.

Lemma step_items (lv : loopvar) (fl : Flags) (l : label) (s s' : state) :
  invariant lv s -> step lv fl l s = Some s' -> lv = PerIteration ->
  Permutation (acked s' ++ inflight s') (enqueued s') /\
  forallb is_blocked (resends (shared s')) = true.
Proof.
  intros I H ->. destruct (inv_items _ s I eq_refl) as [Hperm Hblk].
  pose proof (inv_quiet _ s I) as Hq. pose proof (inv_counter _ s I) as Hc.
  rewrite (Permutation_count_occ UploadPart_eq_dec) in Hperm.
  rewrite (Permutation_count_occ UploadPart_eq_dec).
  step_cases H; pc_from_pool I; prepare; try rewrite Hpc in *.
  all: cbn [segment sends acks dispatching] in *.
  all: try (split; assumption).
  all: try (destruct Hq as [-> ->]; [reflexivity|]; cbn; split; reflexivity).
  all: rewrite ?held_fresh, ?held_filter; unlist.
  all: rewrite ?forallb_app in *; cbn [forallb is_blocked andb] in *.
  all: try match goal with E : working _ = _ |- _ => rewrite E in * end.
  all: try match goal with E : loop_item _ = _ |- _ => rewrite E in * end.
  all: cbn [rev app] in *.
  all: try (rewrite Bool.andb_false_r in Hblk; discriminate Hblk).
  all: split; [|first [assumption | reflexivity]].
  all: intros x; specialize (Hperm x).
  all: try (unfold held1 in *;
            match goal with E : working _ = _ |- _ => rewrite E in * end).
  all: rewrite ?count_occ_app in *; cbn [count_occ app] in *;
    rewrite ?count_occ_app in *; cbn [count_occ] in *.
  all: try match goal with
         | |- context [UploadPart_eq_dec ?a ?b] => destruct (UploadPart_eq_dec a b)
         end.
  all: try lia.
  destruct Hq as [Hu Hr]; [reflexivity|]. rewrite Hu, Hr in Hperm.
  cbn [flat_map count_occ] in Hperm. lia.
Qed.

Lemma step_balance (lv : loopvar) (fl : Flags) (l : label) (s s' : state) :
  invariant lv s -> step lv fl l s = Some s' ->
  wg (shared s') = Z.of_nat (length (enqueued s')) - Z.of_nat (length (acked s')).
Proof.
  intros I H. pose proof (inv_balance lv s I) as Hb.
  pose proof (inv_counter lv s I) as Hc. pose proof (inv_quiet lv s I) as Hq.
  step_cases H; pc_from_pool I; prepare; try rewrite Hpc in *.
  all: cbn [segment sends acks dispatching rev length app] in *.
  all: try exact Hb.
  all: try (destruct Hq as [Hu Hr]; [reflexivity|]; rewrite Hu, Hr in Hc;
            cbn in Hc; lia).
  all: rewrite ?length_app; cbn [length]; lia.
Qed.

(** ** The invariant holds in every reachable state *)

Lemma invariant_init (lv : loopvar) (args : list string) : invariant lv (init args).
Proof.
  constructor; cbn; try (intros; discriminate); auto.
  - intros item H. tauto.
  - intros i item H. destruct i; discriminate.
Qed.

Lemma invariant_step (lv : loopvar) (fl : Flags) (l : label) (s s' : state) :
  invariant lv s -> step lv fl l s = Some s' -> invariant lv s'.
Proof.
  intros I H. constructor.
  - eapply step_counter; eassumption.
  - eapply step_balance; eassumption.
  - eapply step_quiet; eassumption.
  - eapply step_working; eassumption.
  - eapply step_known; eassumption.
  - eapply step_items; eassumption.
  - eapply step_index; eassumption.
  - eapply step_part; eassumption.
  - eapply step_bytes; eassumption.
  - eapply step_bar; eassumption.
  - eapply step_fresh; eassumption.
  - eapply step_handshake; eassumption.
  - eapply step_no_handshake; eassumption.
  - eapply step_order; eassumption.
  - eapply step_workers; eassumption.
  - eapply step_finish; eassumption.
  - eapply step_started; eassumption.
  - eapply step_panic; eassumption.
Qed.

Lemma invariant_run (lv : loopvar) (fl : Flags) (ls : list label) :
  forall s s', invariant lv s -> run lv fl ls s = Some s' -> invariant lv s'.
Proof.
  induction ls as [|l ls IH]; intros s s' I H; cbn in H.
  - inversion H; subst; exact I.
  - destruct (step lv fl l s) as [s1|] eqn:E; [|discriminate].
    eapply IH; [eapply invariant_step; eassumption | exact H].
Qed.

Lemma invariant_reachable (lv : loopvar) (fl : Flags) (args : list string) (s : state) :
  reachable lv fl args s -> invariant lv s.
Proof.
  intros [ls H]. eapply invariant_run; [apply invariant_init | exact H].
Qed.

Lemma run_app (lv : loopvar) (fl : Flags) (ls1 ls2 : list label) (s : state) :
  run lv fl (ls1 ++ ls2) s =
    match run lv fl ls1 s with
    | Some s1 => run lv fl ls2 s1
    | None => None
    end.
Proof.
  revert s. induction ls1 as [|l ls1 IH]; intros s; cbn; [reflexivity|].
  destruct (step lv fl l s); [apply IH | reflexivity].
Qed.

(** ** The finalize step

    From [Finishing] the step of [main] is always possible.  It makes the
    calls of [finishUpload], the first of which is the completion call with
    [part] as the fragment count, and leaves for the next file. *)
Lemma finishing_step (lv : loopvar) (fl : Flags) (s : state) (net : network) :
  invariant lv s -> pc s = Finishing ->
  exists s' ok rest,
    step lv fl (Main (Network net)) s = Some s' /\
    pc s' = NextFile /\ vars s' = vars s /\ files s' = files s /\
    shared s' = shared s /\ panicked s' = false /\
    rev (finalize_calls (segment (trace s'))) =
      (CompleteReq (part (vars s)) (Token (config (vars s))), ok) :: rest /\
    In ((CompleteReq (part (vars s)) (Token (config (vars s))), ok) :: rest)
       (handshakes (vars s)) /\
    Forall (fun call => forall n t, fst call <> CompleteReq n t) rest.
Proof.
  intros I Hpc.
  assert (Hp : panicked s = false).
  { destruct (panicked s) eqn:E; [|reflexivity].
    pose proof (inv_panic lv s I E) as D. rewrite Hpc in D. discriminate. }
  pose proof (inv_no_handshake lv s I) as Hn. rewrite Hpc in Hn.
  specialize (Hn eq_refl).
  unfold step. rewrite Hp. unfold main_step. rewrite Hpc.
  unfold finishUpload, uploadRequest, request.
  destruct (net (CompleteReq _ _)) as [e1|e1|st1 [e1|b1]];
    try destruct (debug fl);
    try (destruct (net (CreateVideoReq _ _)) as [e2|e2|st2 [e2|b2]];
         try (destruct (net (FinishReq _)) as [e3|e3|st3 [e3|b3]]));
    cbn beta iota zeta.
  all: eexists; eexists; eexists.
  all: split; [reflexivity|].
  all: unfold handshakes; cbn [pc vars files shared panicked trace log goto rev app segment finalize_calls is_finalize]; rewrite Hn.
  all: cbn [rev app].
  all: repeat (split; [first [reflexivity | exact Hp]|]).
  all: split; [cbn [In]; repeat (first [left; reflexivity | right])|].
  all: repeat (constructor; [cbn [fst]; intros; discriminate|]); constructor.
Qed.

(** ** C3: the completion counter *)

Lemma NoDup_app_disjoint {A} (l1 l2 : list A) (a : A) :
  NoDup (l1 ++ l2) -> In a l1 -> In a l2 -> False.
Proof.
  induction l1 as [|x l1 IH]; intros Hnd H1 H2; [destruct H1|].
  cbn in Hnd. inversion Hnd as [|? ? Hx Hnd']; subst.
  destruct H1 as [->|H1].
  - apply Hx, in_or_app. right. exact H2.
  - exact (IH Hnd' H1 H2).
Qed.

Lemma indexed_NoDup (l : list UploadPart) :
  (forall i item, nth_error l i = Some item -> count item = Z.of_nat i) ->
  NoDup (map count l).
Proof.
  intros Hidx. apply NoDup_nth_error. intros i j Hi E.
  rewrite length_map in Hi. rewrite !nth_error_map in E.
  destruct (nth_error l i) as [a|] eqn:Ea.
  - destruct (nth_error l j) as [b|] eqn:Eb; [|discriminate].
    cbn in E. inversion E as [Ec].
    rewrite (Hidx _ _ Ea), (Hidx _ _ Eb) in Ec. lia.
  - apply nth_error_None in Ea. lia.
Qed.

Lemma indexed_range (l : list UploadPart) (item : UploadPart) :
  (forall i it, nth_error l i = Some it -> count it = Z.of_nat i) ->
  In item l -> 0 <= count item < Z.of_nat (length l).
Proof.
  intros Hidx Hin. destruct (In_nth_error _ _ Hin) as [i Hi].
  rewrite (Hidx _ _ Hi).
  assert (i < length l)%nat by (apply nth_error_Some; congruence). lia.
Qed.

(** What holds of the counter under either reading of the loop variable:
    it is the number of fragments enqueued minus the number of
    acknowledgments; only enqueued fragments are acknowledged; once the
    reader is through, the number enqueued is the final [part], the total
    number of fragments. *)
Lemma counter_balance (lv : loopvar) (fl : Flags) (args : list string) (s : state) :
  reachable lv fl args s ->
  wg (shared s) = Z.of_nat (length (enqueued s)) - Z.of_nat (length (acked s)) /\
  (forall item, In item (acked s) ->
                In item (enqueued s) /\
                0 <= count item < Z.of_nat (length (enqueued s))) /\
  (pc s = Waiting \/ pc s = Finishing ->
   part (vars s) = Z.of_nat (length (enqueued s))).
Proof.
  intros R. pose proof (invariant_reachable _ _ _ _ R) as I.
  split; [exact (inv_balance lv s I)|]. split.
  - intros item Hin.
    assert (He : In item (enqueued s)) by (apply (inv_known lv s I); auto).
    split; [exact He|]. apply indexed_range; [exact (inv_index lv s I) | exact He].
  - intros Hpc. pose proof (inv_part lv s I) as Hpart.
    destruct Hpc as [E|E]; rewrite E in Hpart; cbn in Hpart;
      rewrite Hpart by reflexivity; lia.
Qed.

(** With a variable per iteration (Go 1.22 and later) the counter is zero
    exactly when every index below the number of fragments enqueued has an
    acknowledgment, and no index is acknowledged twice. *)
Lemma per_iteration_counter_zero_iff_all_acked
    (fl : Flags) (args : list string) (s : state) :
  reachable PerIteration fl args s ->
  (wg (shared s) = 0 <->
   forall i, 0 <= i < Z.of_nat (length (enqueued s)) -> In i (map count (acked s))) /\
  NoDup (map count (acked s)).
Proof.
  intros R. pose proof (invariant_reachable _ _ _ _ R) as I.
  pose proof (inv_balance _ s I) as Hc.
  destruct (inv_items _ s I eq_refl) as [Hp _].
  pose proof (inv_index _ s I) as Hidx.
  assert (Hnd : NoDup (map count (acked s ++ inflight s))).
  { eapply Permutation_NoDup.
    - symmetry. apply Permutation_map. exact Hp.
    - apply indexed_NoDup, Hidx. }
  assert (Hlen : length (enqueued s) = (length (acked s) + length (inflight s))%nat).
  { rewrite <- (Permutation_length Hp). apply length_app. }
  split.
  - split.
    + intros Hz i Hi.
      assert (Hnil : inflight s = []).
      { destruct (inflight s); [reflexivity|cbn in Hlen; lia]. }
      rewrite Hnil, app_nil_r in Hp.
      destruct (nth_error (enqueued s) (Z.to_nat i)) as [item|] eqn:E.
      * pose proof (Hidx _ _ E) as Hci. apply in_map_iff. exists item. split; [lia|].
        eapply Permutation_in; [symmetry; exact Hp|].
        eapply nth_error_In; exact E.
      * apply nth_error_None in E. lia.
    + intros Hall. destruct (inflight s) as [|x F'] eqn:EF; [cbn in Hlen; lia|].
      exfalso.
      assert (Hx : In x (enqueued s)).
      { eapply Permutation_in; [exact Hp|]. apply in_or_app. right. left. reflexivity. }
      pose proof (indexed_range _ _ Hidx Hx) as Hr.
      rewrite map_app in Hnd.
      apply (NoDup_app_disjoint _ _ (count x) Hnd).
      * apply Hall, Hr.
      * cbn. left. reflexivity.
  - rewrite map_app in Hnd. eapply NoDup_app_remove_r. exact Hnd.
Qed.

(** C3: with the loop variable of the Go this program was written for (one
    variable for the whole [for item := range *ch]), the six-byte file, a
    part size of 4 and one transport error on the first upload, there is a
    run after which the counter is zero and [main] has passed [wg.Wait()],
    the reader has enqueued the two fragments with indices 0 and 1, and the
    two acknowledgments are both for index 1: index 0 has none, index 1 is
    counted twice. *)
Theorem C3_counter_zero_with_fragment_unacknowledged :
  run PerLoop sample_flags racy_run (init ["dir/a"%string]) = Some racy_state /\
  fragments tiny_config six_bytes = ReadDone [first_half; second_half] 2 /\
  pc racy_state = Finishing /\
  wg (shared racy_state) = 0 /\
  enqueued racy_state = [first_half; second_half] /\
  acked racy_state = [second_half; second_half] /\
  ~ In 0 (map count (acked racy_state)) /\
  ~ NoDup (map count (acked racy_state)).
Proof.
  split; [vm_compute; reflexivity|].
  split; [vm_compute; reflexivity|].
  split; [reflexivity|]. split; [reflexivity|].
  split; [reflexivity|]. split; [reflexivity|].
  split.
  - cbn. intros [H|[H|[]]]; discriminate H.
  - cbn. intros H. inversion H as [|? ? Hx _]. apply Hx. left. reflexivity.
Qed.

(** The same inputs with the re-send run before the uploader receives
    again: both fragments are acknowledged, each once. *)
Lemma prompt_run_acknowledges_both :
  exists s,
    run PerLoop sample_flags prompt_run (init ["dir/a"%string]) = Some s /\
    pc s = Finishing /\ wg (shared s) = 0 /\
    acked s = [second_half; first_half].
Proof. eexists. split; [vm_compute; reflexivity|]. repeat split. Qed.

(** With a variable per iteration the schedule of [racy_run], without the
    step in which the re-send reads the variable, acknowledges both. *)
Lemma per_iteration_run_acknowledges_both :
  exists s,
    run PerIteration sample_flags
      (sample_prefix ++
       [ Main (ReadResult None); Work 0 bad_gateway; Recv None 0;
         Main (ReadResult None); Work 0 (good_server tiny_config);
         Recv (Some 0%nat) 0; Work 0 (good_server tiny_config); Main Tick ])
      (init ["dir/a"%string]) = Some s /\
    pc s = Finishing /\ wg (shared s) = 0 /\
    acked s = [first_half; second_half].
Proof. eexists. split; [vm_compute; reflexivity|]. repeat split. Qed.

(** ** C2: the uploader's pass *)

Lemma pass_acked (tok : string) (ps fs : Z) (net : network) (item : UploadPart)
    (evs : list event) :
  uploader_pass tok ps fs net item = (evs, Acked) ->
  confirmed item (net (fragment_request tok ps fs item)).
Proof.
  unfold uploader_pass.
  destruct (net _) as [e|e|st [e|b]]; try discriminate.
  destruct (as_part b) as [e|res] eqn:Eb; try discriminate.
  destruct (PartResult res =? 1) eqn:E1; cbn [negb orb]; try discriminate.
  destruct (Size res =? len (content item)) eqn:E2; cbn [negb]; try discriminate.
  intros _. exists st, b, res. apply Z.eqb_eq in E1, E2. auto.
Qed.

Lemma pass_failed (tok : string) (ps fs : Z) (net : network) (item : UploadPart) :
  upload_failure item (net (fragment_request tok ps fs item)) ->
  exists ok,
    uploader_pass tok ps fs net item =
      ([Net (fragment_request tok ps fs item) ok], Retried).
Proof.
  unfold uploader_pass. cbv zeta. intros F.
  destruct F as [e|st e|st b e Eb|st b res Eb Hr|st b res Eb Hs];
    try rewrite Eb; eauto.
  - apply Z.eqb_neq in Hr. rewrite Hr. cbn. eauto.
  - apply Z.eqb_neq in Hs. rewrite Hs. rewrite orb_true_r. eauto.
Qed.

(** The pass of uploader [w] for [item] moves the counter, the bar or the
    acknowledgments only if the reply is [confirmed], and then by one
    decrement, the fragment's length and the one acknowledgment.  This does
    not depend on the loop variable. *)
Lemma work_acks_only_when_confirmed (lv : loopvar) (fl : Flags) (s : state)
    (w : nat) (item : UploadPart) (net : network) (s' : state) :
  panicked s = false ->
  nth_error (uploaders (shared s)) w = Some (mkUploader (Some item) true) ->
  step lv fl (Work w net) s = Some s' ->
  wg (shared s') <> wg (shared s) \/ bar (shared s') <> bar (shared s) \/
  acked s' <> acked s ->
  confirmed item (net (request_of s item)) /\
  wg (shared s') = wg (shared s) - 1 /\
  bar (shared s') = bar (shared s) + len (content item) /\
  acked s' = item :: acked s.
Proof.
  intros Hp Hn Hstep Hchg.
  unfold step in Hstep. rewrite Hp in Hstep. unfold work_step in Hstep.
  rewrite Hn in Hstep. fold (request_of s item) in Hstep.
  destruct (uploader_pass _ _ _ net item) as [evs vd] eqn:Epass.
  destruct vd.
  - pose proof (pass_acked _ _ _ _ _ _ Epass) as Hconf.
    fold (request_of s item) in Hconf.
    unfold uploader_pass in Epass. cbv zeta in Epass.
    destruct Hconf as (st & b & res & Er & Eb & E1 & E2).
    fold (request_of s item) in Epass. rewrite Er, Eb, E1, E2 in Epass.
    rewrite !Z.eqb_refl in Epass. cbn in Epass. inversion Epass; subst evs.
    destruct (wg (shared s) - 1 <? 0).
    + inversion Hstep; subst s'. unfold acked in Hchg. cbn in Hchg.
      destruct Hchg as [H|[H|H]]; congruence.
    + inversion Hstep; subst s'. unfold acked. cbn.
      split; [exists st, b, res; auto|]. auto.
  - exfalso. unfold uploader_pass in Epass. cbv zeta in Epass.
    destruct (net _) as [e|e|st [e|b]]; try discriminate;
      [| |destruct (as_part b) as [e|res];
          [|destruct (negb (PartResult res =? 1) || negb (Size res =? len (content item)));
            try discriminate]];
      inversion Epass; subst evs; destruct lv; inversion Hstep; subst s';
      unfold acked in Hchg; cbn in Hchg;
      destruct Hchg as [H|[H|H]]; congruence.
  - exfalso. inversion Hstep; subst s'. unfold acked in Hchg. cbn in Hchg.
    destruct Hchg as [H|[H|H]]; congruence.
Qed.

(** A failed pass: the request is made, the uploader goes back to the
    receive, and a re-send is started; with a variable per iteration the
    re-send holds the item from the start. *)
Lemma work_failed (lv : loopvar) (fl : Flags) (s : state) (w : nat)
    (item : UploadPart) (net : network) :
  panicked s = false ->
  nth_error (uploaders (shared s)) w = Some (mkUploader (Some item) true) ->
  upload_failure item (net (request_of s item)) ->
  exists ok,
    step lv fl (Work w net) s =
      Some (let ups := set_nth w (mkUploader (Some item) false) (uploaders (shared s)) in
            match lv with
            | PerLoop =>
                log [Net (request_of s item) ok]
                  (with_shared
                     (mkPool (wg (shared s)) (bar (shared s)) ups
                        (Started w :: resends (shared s))) s)
            | PerIteration =>
                log [Net (request_of s item) ok; Resend item]
                  (with_shared
                     (mkPool (wg (shared s)) (bar (shared s)) ups
                        (Blocked item :: resends (shared s))) s)
            end).
Proof.
  intros Hp Hn F. unfold step. rewrite Hp. unfold work_step. rewrite Hn.
  destruct (pass_failed _ _ _ _ _ F) as [ok E]. fold (request_of s item) in E.
  unfold request_of in *. rewrite E. exists ok. destruct lv; reflexivity.
Qed.

(** A failed pass leaves counter, bar, acknowledgments, [main] and the
    output as they are, under either reading of the loop variable. *)
Lemma work_failed_silent (lv : loopvar) (fl : Flags) (s : state) (w : nat)
    (item : UploadPart) (net : network) :
  panicked s = false ->
  nth_error (uploaders (shared s)) w = Some (mkUploader (Some item) true) ->
  upload_failure item (net (request_of s item)) ->
  exists s',
    step lv fl (Work w net) s = Some s' /\
    panicked s' = false /\ pc s' = pc s /\ vars s' = vars s /\ files s' = files s /\
    wg (shared s') = wg (shared s) /\ bar (shared s') = bar (shared s) /\
    acked s' = acked s /\ enqueued s' = enqueued s /\
    length (resends (shared s')) = S (length (resends (shared s))) /\
    forall o, In (Stdout o) (trace s') -> In (Stdout o) (trace s).
Proof.
  intros Hp Hn F. destruct (work_failed lv fl s w item net Hp Hn F) as [ok E].
  eexists. split; [exact E|]. cbv zeta.
  destruct lv; unfold acked, enqueued; cbn; repeat (split; [first [reflexivity|exact Hp]|]).
  all: intros o [H|H]; try discriminate; auto.
  destruct H as [H|H]; [discriminate|exact H].
Qed.

Lemma set_nth_at {A} (l1 l2 : list A) (x y : A) :
  set_nth (length l1) x (l1 ++ y :: l2) = l1 ++ x :: l2.
Proof.
  unfold set_nth. rewrite firstn_app, firstn_all, Nat.sub_diag.
  rewrite skipn_app, skipn_all2 by lia.
  replace (S (length l1) - length l1)%nat with 1%nat by lia.
  cbn. rewrite app_nil_r. reflexivity.
Qed.

Lemma set_nth_lookup {A} (l : list A) (k : nat) (x y : A) :
  nth_error l k = Some y -> nth_error (set_nth k x l) k = Some x.
Proof.
  intros H. destruct (nth_error_split l k H) as (l1 & l2 & -> & <-).
  rewrite set_nth_at, nth_error_app2, Nat.sub_diag by lia. reflexivity.
Qed.

Lemma set_nth_twice {A} (l : list A) (k : nat) (x x' y : A) :
  nth_error l k = Some y -> set_nth k x' (set_nth k x l) = set_nth k x' l.
Proof.
  intros H. destruct (nth_error_split l k H) as (l1 & l2 & -> & <-).
  rewrite !set_nth_at. reflexivity.
Qed.

Lemma set_nth_same {A} (l : list A) (k : nat) (y : A) :
  nth_error l k = Some y -> set_nth k y l = l.
Proof.
  intros H. destruct (nth_error_split l k H) as (l1 & l2 & -> & <-).
  apply set_nth_at.
Qed.

Lemma set_nth_other {A} (l : list A) (g w : nat) (x y : A) :
  nth_error l g = Some y -> g <> w ->
  nth_error (set_nth g x l) w = nth_error l w.
Proof.
  intros H Hne. destruct (nth_error_split l g H) as (l1 & l2 & -> & <-).
  rewrite set_nth_at.
  destruct (Nat.lt_ge_cases w (length l1)) as [Hlt|Hge].
  - rewrite !nth_error_app1 by exact Hlt. reflexivity.
  - rewrite !nth_error_app2 by exact Hge.
    destruct (w - length l1)%nat eqn:E; [lia | reflexivity].
Qed.

Lemma filter_length_set_nth {A} (f : A -> bool) (l : list A) (k : nat) (x y : A) :
  nth_error l k = Some y ->
  (length (filter f (set_nth k x l)) + (if f y then 1 else 0)
   = length (filter f l) + (if f x then 1 else 0))%nat.
Proof.
  intros H. destruct (nth_error_split l k H) as (l1 & l2 & -> & <-).
  rewrite set_nth_at, !filter_app, !length_app. cbn [filter].
  destruct (f x), (f y); cbn [length]; lia.
Qed.

Lemma working_counted (ups : list uploader) (w : nat) (u : uploader) :
  nth_error ups w = Some u -> working u = true ->
  (1 <= length (filter working ups))%nat.
Proof.
  intros Hn Hw. destruct (nth_error_split ups w Hn) as (l1 & l2 & -> & _).
  rewrite filter_app. cbn [filter]. rewrite Hw, length_app. cbn [length]. lia.
Qed.

(** One round of [retry_schedule]: the pass fails, the re-send runs before
    the uploader receives anything else, and the uploader takes the item
    from it.  The state is as before but for the trace. *)
Lemma retry_round_same (lv : loopvar) (fl : Flags) (s : state) (w : nat)
    (item : UploadPart) (net : network) :
  panicked s = false ->
  nth_error (uploaders (shared s)) w = Some (mkUploader (Some item) true) ->
  upload_failure item (net (request_of s item)) ->
  exists s' ok,
    run lv fl (retry_round lv w net) s = Some s' /\
    panicked s' = false /\ pc s' = pc s /\ files s' = files s /\
    vars s' = vars s /\ shared s' = shared s /\
    trace s' = [Resend item; Net (request_of s item) ok] ++ trace s.
Proof.
  intros Hp Hn F. destruct (work_failed lv fl s w item net Hp Hn F) as [ok E].
  cbv zeta in E.
  destruct lv; unfold retry_round; cbn [run]; rewrite E; clear E.
  - unfold step at 1. cbn [panicked log with_shared]. rewrite Hp.
    unfold eval_step. cbn [shared log with_shared resends uploaders nth_error].
    rewrite (set_nth_lookup _ _ _ _ Hn). cbn [loop_item].
    unfold step at 1. cbn [panicked log with_shared]. rewrite Hp.
    unfold recv_step, receive.
    cbn [shared log with_shared resends uploaders nth_error set_nth firstn skipn app wg bar].
    rewrite (set_nth_lookup _ _ _ _ Hn). cbn [working].
    rewrite (set_nth_twice _ _ _ _ _ Hn), (set_nth_same _ _ _ Hn).
    eexists; exists ok. split; [reflexivity|].
    cbn [panicked pc files vars shared trace log with_shared remove_nth firstn skipn app rev].
    repeat (split; [first [reflexivity|exact Hp]|]).
    split; [|reflexivity]. destruct (shared s); reflexivity.
  - unfold step at 1. cbn [panicked log with_shared]. rewrite Hp.
    unfold recv_step, receive.
    cbn [shared log with_shared resends uploaders nth_error wg bar].
    rewrite (set_nth_lookup _ _ _ _ Hn). cbn [working].
    rewrite (set_nth_twice _ _ _ _ _ Hn), (set_nth_same _ _ _ Hn).
    eexists; exists ok. split; [reflexivity|].
    cbn [panicked pc files vars shared trace log with_shared remove_nth firstn skipn app rev].
    repeat (split; [first [reflexivity|exact Hp]|]).
    split; [|reflexivity]. destruct (shared s); reflexivity.
Qed.

Lemma retry_events_silent (s : state) (item : UploadPart) (evs tr : list event) :
  Forall (retry_event s item) evs ->
  segment (evs ++ tr) = evs ++ segment tr /\
  acks (segment (evs ++ tr)) = acks (segment tr) /\
  sends (segment (evs ++ tr)) = sends (segment tr).
Proof.
  induction 1 as [|e evs He _ IH]; [auto|].
  destruct IH as (IH1 & IH2 & IH3).
  destruct He as [->|[ok ->]]; cbn [app segment acks sends];
    rewrite ?IH1; cbn [acks sends]; rewrite <- ?IH1; auto.
Qed.

(** Any number of failed passes in a row, each followed at once by its
    re-send, leaves everything as it was but the trace, which grows by the
    requests made and the re-sends of the same item. *)
Lemma retry_rounds (lv : loopvar) (fl : Flags) (w : nat) (item : UploadPart) :
  forall nets s,
    panicked s = false ->
    nth_error (uploaders (shared s)) w = Some (mkUploader (Some item) true) ->
    Forall (fun net => upload_failure item (net (request_of s item))) nets ->
    exists s' evs,
      run lv fl (retry_schedule lv w nets) s = Some s' /\
      panicked s' = false /\ pc s' = pc s /\ files s' = files s /\
      vars s' = vars s /\ shared s' = shared s /\
      trace s' = evs ++ trace s /\
      Forall (retry_event s item) evs /\
      length evs = (2 * length nets)%nat.
Proof.
  induction nets as [|net nets IH]; intros s Hp Hn F.
  - exists s, []. cbn. repeat split; auto.
  - inversion F as [|? ? Fnet Fnets]; subst.
    destruct (retry_round_same lv fl s w item net Hp Hn Fnet)
      as (s1 & ok & E & Hp1 & Hpc1 & Hfiles1 & Hvars1 & Hsh1 & Htr1).
    assert (Hreq : request_of s1 item = request_of s item).
    { unfold request_of. rewrite Hvars1. reflexivity. }
    destruct (IH s1) as (s' & evs & Hrun & Hp' & Hpc & Hfiles & Hvars & Hsh
                         & Htr & Hevs & Hlen).
    + exact Hp1.
    + rewrite Hsh1. exact Hn.
    + revert Fnets. apply Forall_impl. intros n. rewrite Hreq. auto.
    + exists s', (evs ++ [Resend item; Net (request_of s item) ok]).
      split.
      { change (retry_schedule lv w (net :: nets))
          with (retry_round lv w net ++ retry_schedule lv w nets).
        rewrite run_app, E. exact Hrun. }
      split; [exact Hp'|]. split; [congruence|]. split; [congruence|].
      split; [congruence|]. split; [congruence|].
      split; [rewrite Htr, Htr1, <- app_assoc; reflexivity|].
      split.
      { apply Forall_app. split.
        - revert Hevs. apply Forall_impl. intros e He.
          unfold retry_event in *. rewrite Hreq in He. exact He.
        - constructor; [left; reflexivity|].
          constructor; [right; exists ok; reflexivity|constructor]. }
      rewrite length_app. cbn [length]. lia.
Qed.

(** So long as every re-send runs before its uploader receives again, a
    fragment whose upload fails any number of times is after that in the
    uploader's hands again, with its content and index, and counter, bar,
    acknowledgments and output are as before. *)
Lemma prompt_resend_requeues_same (lv : loopvar) (fl : Flags) (s : state) (w : nat)
    (item : UploadPart) (nets : list network) :
  panicked s = false ->
  nth_error (uploaders (shared s)) w = Some (mkUploader (Some item) true) ->
  Forall (fun net => upload_failure item (net (request_of s item))) nets ->
  exists s',
    run lv fl (retry_schedule lv w nets) s = Some s' /\
    nth_error (uploaders (shared s')) w = Some (mkUploader (Some item) true) /\
    panicked s' = false /\ pc s' = pc s /\ vars s' = vars s /\
    wg (shared s') = wg (shared s) /\ bar (shared s') = bar (shared s) /\
    acked s' = acked s /\ enqueued s' = enqueued s /\
    forall o, In (Stdout o) (trace s') -> In (Stdout o) (trace s).
Proof.
  intros Hp Hn F.
  destruct (retry_rounds lv fl w item nets s Hp Hn F)
    as (s' & evs & Hrun & Hp' & Hpc & _ & Hvars & Hsh & Htr & Hevs & _).
  destruct (retry_events_silent s item evs (trace s) Hevs) as (Hseg & Hacks & Hsends).
  exists s'. split; [exact Hrun|].
  split; [rewrite Hsh; exact Hn|].
  split; [exact Hp'|]. split; [exact Hpc|]. split; [exact Hvars|].
  split; [rewrite Hsh; reflexivity|]. split; [rewrite Hsh; reflexivity|].
  split; [unfold acked; rewrite Htr; exact Hacks|].
  split; [unfold enqueued; rewrite Htr, Hsends; reflexivity|].
  intros o Ho. rewrite Htr in Ho. apply in_app_or in Ho.
  destruct Ho as [Ho|Ho]; [|exact Ho].
  exfalso. rewrite Forall_forall in Hevs.
  destruct (Hevs _ Ho) as [H|[ok H]]; discriminate.
Qed.

(** C2: with the loop variable of the Go this program was written for, the
    re-send started after a failed upload reads [item] when it comes to
    run.  In the state where the uploader is in its pass for the first
    fragment of the six-byte file and [main] waits to hand over the second,
    let the upload fail with a transport error, the uploader go back to the
    receive and take the second fragment from [main], and the re-send run
    then: what is re-enqueued is the second fragment, the first is with
    nobody any more, and the counter still stands at two. *)
Theorem C2_failed_fragment_replaced_in_resend :
  run PerLoop sample_flags contended_prefix (init ["dir/a"%string])
    = Some contended_state /\
  pc contended_state = Sending second_half /\
  nth_error (uploaders (shared contended_state)) 0
    = Some (mkUploader (Some first_half) true) /\
  upload_failure first_half (bad_gateway (request_of contended_state first_half)) /\
  exists s',
    run PerLoop sample_flags [Work 0 bad_gateway; Recv None 0; Eval 0] contended_state
      = Some s' /\
    trace s' =
      [Resend second_half; Net (request_of contended_state first_half) false]
      ++ trace contended_state /\
    wg (shared s') = 2 /\
    inflight s' = [second_half; second_half] /\
    acked s' = [] /\
    ~ In first_half (inflight s' ++ acked s').
Proof.
  split; [vm_compute; reflexivity|].
  split; [reflexivity|]. split; [reflexivity|].
  split; [apply transport_error|].
  eexists. split; [vm_compute; reflexivity|].
  split; [reflexivity|]. split; [reflexivity|].
  split; [reflexivity|]. split; [reflexivity|].
  cbn. intros [H|[H|[]]]; discriminate H.
Qed.

(** ** C4: the finalize handshake *)

Lemma finalize_calls_in (tr : list event) (r : NetRequest) (ok : bool) :
  In (Net r ok) tr -> is_finalize r = true -> In (r, ok) (finalize_calls tr).
Proof.
  induction tr as [|e tr IH]; intros Hin Hf; [destruct Hin|].
  destruct Hin as [->|Hin].
  - cbn. rewrite Hf. left. reflexivity.
  - destruct e; cbn; auto.
    destruct (is_finalize req); [right|]; auto.
Qed.

(** In every reachable state, under either reading of the loop variable,
    the finalize calls made for the file in hand are, in order, a prefix of
    completion call, createVideo, uploadFinish, each made at most once and
    each made only if the one before came back without error.  If the file
    went through (the last call succeeded) the three were made exactly once
    each.  While the file is still being negotiated, read or dispatched,
    none has been made.  When one has been made, or [main] stands right
    before the handshake, the counter is zero, there are as many
    acknowledgments as fragments enqueued, and no event of the dispatch
    phase is later than a finalize call; with a variable per iteration the
    acknowledged fragments are exactly the enqueued ones. *)
Lemma finalize_once_after_counter_zero
    (lv : loopvar) (fl : Flags) (args : list string) (s : state) :
  reachable lv fl args s ->
  let calls := rev (finalize_calls (segment (trace s))) in
  In calls (handshakes (vars s)) /\
  (forall task, In (Net (FinishReq task) true) (segment (trace s)) ->
     calls = [ (CompleteReq (part (vars s)) (Token (config (vars s))), true);
               (CreateVideoReq (TaskID (config (vars s))) (path_Base (v (vars s))), true);
               (FinishReq (TaskID (config (vars s))), true) ]) /\
  (in_session (pc s) = true -> calls = []) /\
  (calls <> [] \/ pc s = Finishing ->
     wg (shared s) = 0 /\ length (acked s) = length (enqueued s) /\
     (lv = PerIteration -> Permutation (acked s) (enqueued s)) /\
     dispatch_before_finalize (segment (trace s)) = true).
Proof.
  intros R calls. pose proof (invariant_reachable _ _ _ _ R) as I.
  pose proof (inv_handshake lv s I) as Hh. fold calls in Hh.
  assert (Hsess : in_session (pc s) = true -> calls = []).
  { intros H. unfold calls. rewrite (inv_no_handshake lv s I H). reflexivity. }
  split; [exact Hh|]. split; [|split; [exact Hsess|]].
  - intros task Hin.
    apply finalize_calls_in in Hin; [|reflexivity].
    apply in_rev in Hin. fold calls in Hin.
    unfold handshakes in Hh. cbn [In] in Hh.
    destruct Hh as [H|[H|[H|[H|[H|[]]]]]]; rewrite <- H in Hin |- *; cbn in Hin;
      try reflexivity; exfalso;
      repeat (destruct Hin as [Hin|Hin]; [discriminate Hin|]); exact Hin.
  - intros Hc.
    assert (Hd : dispatching (pc s) = false).
    { destruct Hc as [Hc|Hc]; [|rewrite Hc; reflexivity].
      destruct (in_session (pc s)) eqn:E; [elim Hc; apply Hsess; reflexivity|].
      destruct (pc s); try discriminate; reflexivity. }
    destruct (inv_quiet lv s I Hd) as [Hb Hr].
    pose proof (inv_counter lv s I) as Hwg. pose proof (inv_balance lv s I) as Hbal.
    unfold under_way in Hwg. rewrite Hb, Hr in Hwg.
    assert (Hns : sending (pc s) = []).
    { destruct (pc s); try reflexivity; discriminate. }
    rewrite Hns in Hwg. cbn in Hwg.
    split; [exact Hwg|]. split; [lia|]. split; [|exact (inv_order lv s I)].
    intros Hlv. destruct (inv_items lv s I Hlv) as [Hitems _].
    unfold inflight in Hitems. rewrite Hb, Hr, Hns in Hitems. cbn in Hitems.
    rewrite app_nil_r in Hitems. exact Hitems.
Qed.

(** C4: with the loop variable of the Go this program was written for, the
    run of [racy_run] goes on into the handshake: the counter is zero,
    [wg.Wait()] returns, and the completion call (with fragment count 2),
    createVideo and uploadFinish are made, once each and in this order, all
    three with success, while the first of the two fragments has no
    acknowledgment. *)
Theorem C4_finalize_with_fragment_unacknowledged :
  run PerLoop sample_flags racy_run_finalized (init ["dir/a"%string])
    = Some racy_finalized_state /\
  rev (finalize_calls (segment (trace racy_finalized_state))) =
    [ (CompleteReq 2 "tok"%string, true);
      (CreateVideoReq "task"%string "a"%string, true);
      (FinishReq "task"%string, true) ] /\
  wg (shared racy_finalized_state) = 0 /\
  enqueued racy_finalized_state = [first_half; second_half] /\
  acked racy_finalized_state = [second_half; second_half] /\
  ~ In first_half (acked racy_finalized_state).
Proof.
  split; [vm_compute; reflexivity|].
  split; [reflexivity|]. split; [reflexivity|].
  split; [reflexivity|]. split; [reflexivity|].
  cbn. intros [H|[H|[]]]; discriminate H.
Qed.

(** ** The pipeline enqueues what the reader produces *)

Lemma read_loop_more_fuel (c : UploadConfigResp) :
  forall fuel f p r q,
    read_loop fuel c f p = ReadDone r q ->
    forall fuel', (fuel <= fuel')%nat -> read_loop fuel' c f p = ReadDone r q.
Proof.
  induction fuel as [|fuel IH]; intros f p r q H fuel' Hle; [discriminate|].
  destruct fuel' as [|fuel']; [lia|].
  cbn [read_loop] in *.
  destruct (read_turn c f p None) as [|nr p'|nr item f' p']; try exact H.
  destruct (read_loop fuel c f' p') as [| |sent q'] eqn:E; try discriminate.
  rewrite (IH _ _ _ _ E fuel') by lia. exact H.
Qed.

Lemma read_loop_any_fuel (c : UploadConfigResp) (f : File) (p : Z) (fuel1 fuel2 : nat) :
  valid_part_size c ->
  (length (unread f) < fuel1)%nat -> (length (unread f) < fuel2)%nat ->
  read_loop fuel1 c f p = read_loop fuel2 c f p.
Proof.
  intros V H1 H2.
  destruct (read_loop_healthy c V fuel1 f p H1) as (r1 & E1 & _).
  destruct (read_loop_healthy c V fuel2 f p H2) as (r2 & E2 & _).
  destruct (Nat.le_ge_cases fuel1 fuel2) as [Hle|Hge].
  - rewrite (read_loop_more_fuel c _ _ _ _ _ E1 fuel2 Hle). exact E1.
  - rewrite E2. exact (read_loop_more_fuel c _ _ _ _ _ E2 fuel1 Hge).
Qed.

Lemma follows_reader_init (args : list string) : follows_reader (init args).
Proof. intros H. discriminate. Qed.

Lemma follows_reader_step (lv : loopvar) (fl : Flags) (l : label) (s s' : state) :
  invariant lv s -> follows_reader s ->
  step lv fl l s = Some s' -> healthy_label l = true ->
  follows_reader s'.
Proof.
  intros I F H Hl. pose proof (inv_fresh lv s I) as Hf.
  unfold follows_reader, remaining_reads, enqueued in *.
  step_cases H; pc_from_pool I; unstate;
    try rewrite Hpc in *; cbn [file_open segment sends] in *.
  all: try (intros; discriminate).
  all: try exact F.
  - (* the file is opened *)
    intros _ V. destruct Hf as [Hs _]; [reflexivity ..|]. rewrite Hs. cbn [rev app].
    destruct (read_loop_healthy _ V (S (length b)) (os_Open b) (-1))
      as (sent & Er & _); [cbn; lia|].
    exists sent, (-1 + 1 + Z.of_nat (length sent)). split; exact Er.
  - (* the loop is left *)
    destruct fault; [discriminate Hl|].
    intros _ V. destruct (F eq_refl V) as (rest & p & Hrest & Hfr).
    cbn [read_loop] in Hrest.
    match goal with E : read_turn _ _ _ _ = _ |- _ => rewrite E in Hrest end.
    inversion Hrest; subst rest p.
    exists [], part0. split; [reflexivity | exact Hfr].
  - (* a fragment is enqueued *)
    destruct fault; [discriminate Hl|].
    intros _ V. destruct (F eq_refl V) as (rest & p & Hrest & Hfr).
    cbn [read_loop] in Hrest.
    match goal with E : read_turn _ _ _ _ = _ |- _ =>
      rewrite E in Hrest; apply read_turn_emit in E;
      destruct E as (_ & _ & _ & _ & Hpos & Ef & kk & Hk)
    end.
    destruct (read_loop (length (unread (file (vars s)))) (config (vars s)) f part0)
      as [| |sent q] eqn:Eloop; try discriminate.
    inversion Hrest; subst rest p.
    assert (Hshort : (length (unread f) < length (unread (file (vars s))))%nat).
    { rewrite Ef, unread_advance, length_skipn.
      assert (length (content item) <= length (unread (file (vars s))))%nat
        by (rewrite Hk, length_firstn; lia).
      unfold len in Hpos. lia. }
    exists sent, q. split.
    + rewrite <- Eloop. apply read_loop_any_fuel; [exact V| lia | exact Hshort].
    + rewrite Ef at 1. cbn [data rev]. rewrite Hfr, <- app_assoc. reflexivity.
Qed.

Lemma follows_reader_run (lv : loopvar) (fl : Flags) (ls : list label) :
  forall s s',
    invariant lv s -> follows_reader s ->
    forallb healthy_label ls = true ->
    run lv fl ls s = Some s' -> follows_reader s'.
Proof.
  induction ls as [|l ls IH]; intros s s' I F Hh H; cbn in H.
  - inversion H; subst; exact F.
  - cbn in Hh. apply andb_true_iff in Hh. destruct Hh as [Hl Hh].
    destruct (step lv fl l s) as [s1|] eqn:E; [|discriminate].
    eapply (IH s1); eauto using invariant_step, follows_reader_step.
Qed.

(** In a healthy run, once the read loop is left, [main] has enqueued
    exactly what [fragments] produces, and [part] is their number. *)
Lemma pipeline_follows_reader (lv : loopvar) (fl : Flags) (args : list string)
    (ls : list label) (s : state) :
  forallb healthy_label ls = true ->
  run lv fl ls (init args) = Some s ->
  valid_part_size (config (vars s)) ->
  pc s = Waiting \/ pc s = Finishing ->
  fragments (config (vars s)) (data (file (vars s))) =
    ReadDone (enqueued s) (part (vars s)).
Proof.
  intros Hh H V Hpc.
  assert (F : follows_reader s).
  { eapply follows_reader_run; eauto using invariant_init, follows_reader_init. }
  unfold follows_reader, remaining_reads in F.
  destruct Hpc as [E|E]; rewrite E in F;
    destruct (F eq_refl V) as (rest & p & Hrest & Hfr);
    inversion Hrest; subst rest p; rewrite app_nil_r in Hfr; exact Hfr.
Qed.

(** ** C7: ten megabytes in parts of four *)

Lemma total_len_concat (l : list UploadPart) :
  len (concat (map content l)) = total_len l.
Proof.
  induction l as [|a l IH]; [reflexivity|].
  cbn [map concat total_len fold_right]. unfold len in *.
  rewrite length_app, Nat2Z.inj_add, IH. reflexivity.
Qed.

Lemma total_len_perm (l l' : list UploadPart) :
  Permutation l l' -> total_len l = total_len l'.
Proof.
  induction 1; cbn [total_len fold_right] in *; unfold total_len in *; lia.
Qed.

Lemma total_len_nonneg (l : list UploadPart) : 0 <= total_len l.
Proof.
  induction l as [|a l IH]; cbn [total_len fold_right]; [lia|].
  fold (total_len l). unfold len. lia.
Qed.

Lemma len_ten_mb_file : len ten_mb_file = 10485760.
Proof. unfold len, ten_mb_file. rewrite repeat_length. lia. Qed.

(** What the reader makes of any file of 10,485,760 bytes when the
    negotiated part size is 4,194,304. *)
Lemma ten_mb_fragments (c : UploadConfigResp) (contents : bytes) :
  PartSize (Config c) = 4194304 ->
  len contents = 10485760 ->
  exists f0 f1 f2,
    fragments c contents = ReadDone [f0; f1; f2] 3 /\
    (count f0 = 0 /\ count f1 = 1 /\ count f2 = 2) /\
    (len (content f0) = 4194303 /\ len (content f1) = 4194303 /\
     len (content f2) = 2097154) /\
    content f0 ++ content f1 ++ content f2 = contents.
Proof.
  intros HP HL.
  assert (V : 2 <= PartSize (Config c) < 2 ^ 63) by (rewrite HP; lia).
  destruct (read_loop_healthy c V (S (length contents)) (os_Open contents) (-1))
    as (sent & Hrun & Hcnt & Hfull & Hsz & Hcat); [cbn; lia|].
  change (unread (os_Open contents)) with contents in Hcat.
  assert (Htot : total_len sent = 10485760).
  { rewrite <- total_len_concat, Hcat. exact HL. }
  rewrite HP in Hfull, Hsz.
  destruct sent as [|a [|b [|d [|e rest]]]].
  - cbn in Htot. lia.
  - pose proof (Hsz a (or_introl eq_refl)). cbn in Htot. lia.
  - pose proof (Hsz a (or_introl eq_refl)).
    pose proof (Hsz b (or_intror (or_introl eq_refl))). cbn in Htot. lia.
  - pose proof (Hfull 0%nat a eq_refl ltac:(cbn; lia)) as Ha.
    pose proof (Hfull 1%nat b eq_refl ltac:(cbn; lia)) as Hb.
    pose proof (Hcnt 0%nat a eq_refl). pose proof (Hcnt 1%nat b eq_refl).
    pose proof (Hcnt 2%nat d eq_refl).
    exists a, b, d. unfold fragments. rewrite Hrun.
    split; [reflexivity|]. split; [lia|].
    split; [cbn in Htot; lia|].
    cbn in Hcat. rewrite app_nil_r in Hcat. exact Hcat.
  - exfalso.
    pose proof (Hfull 0%nat a eq_refl ltac:(cbn; lia)) as Ha.
    pose proof (Hfull 1%nat b eq_refl ltac:(cbn; lia)) as Hb.
    pose proof (Hfull 2%nat d eq_refl ltac:(cbn; lia)) as Hd.
    pose proof (total_len_nonneg rest).
    pose proof (Hsz e ltac:(cbn; auto)). cbn in Htot. unfold total_len in *. lia.
Qed.

(** C7, as stated, fails: the fragments of the ten-megabyte file are not of
    4 MB, 4 MB and 2 MB.  They are of 4,194,303, 4,194,303 and 2,097,154
    bytes. *)
Lemma C7_counterexample :
  (exists f0 f1 f2,
      fragments ten_mb_config ten_mb_file = ReadDone [f0; f1; f2] 3 /\
      map (fun item => len (content item)) [f0; f1; f2] =
        [4194303; 4194303; 2097154]) /\
  ~ (exists f0 f1 f2 p,
        fragments ten_mb_config ten_mb_file = ReadDone [f0; f1; f2] p /\
        map (fun item => len (content item)) [f0; f1; f2] =
          [4194304; 4194304; 2097152]).
Proof.
  destruct (ten_mb_fragments ten_mb_config ten_mb_file eq_refl len_ten_mb_file)
    as (f0 & f1 & f2 & Hfr & _ & (H0 & H1 & H2) & _).
  split.
  - exists f0, f1, f2. split; [exact Hfr|]. cbn [map]. rewrite H0, H1, H2. reflexivity.
  - intros (g0 & g1 & g2 & p & Hg & Hsizes).
    rewrite Hfr in Hg. inversion Hg; subst g0 g1 g2 p.
    cbn [map] in Hsizes. rewrite H0 in Hsizes. discriminate Hsizes.
Qed.

Lemma enqueued_NoDup (lv : loopvar) (s : state) : invariant lv s -> NoDup (enqueued s).
Proof.
  intros I. apply (NoDup_map_inv count), indexed_NoDup, (inv_index lv s I).
Qed.

(** When the handshake is at hand and every enqueued fragment has an
    acknowledgment, the acknowledged fragments are exactly the enqueued
    ones. *)
Lemma all_acked_exactly (lv : loopvar) (s : state) :
  invariant lv s -> wg (shared s) = 0 ->
  (forall item, In item (enqueued s) -> In item (acked s)) ->
  Permutation (acked s) (enqueued s).
Proof.
  intros I Hwg Hall. pose proof (inv_balance lv s I) as Hbal.
  symmetry. apply NoDup_Permutation_bis.
  - exact (enqueued_NoDup lv s I).
  - lia.
  - intros item. apply Hall.
Qed.

(** C7, amended: with a negotiated part size of 4,194,304 and three
    uploaders, a file of 10,485,760 bytes is read as three fragments,
    numbered 0, 1, 2, of 4,194,303, 4,194,303 and 2,097,154 bytes, which
    together are the file.  In every healthy run, when [main] has passed
    [wg.Wait()] for this file, three uploaders were started, the three
    fragments are the ones enqueued, the counter is zero, no finalize call
    has been made yet, and the next step makes the completion call, with a
    fragment count of 3, exactly once; and if all three are acknowledged,
    the progress bar was finished at 10,485,760. *)
Theorem C7_ten_megabytes (c : UploadConfigResp) (contents : bytes) :
  PartSize (Config c) = 4194304 ->
  Parallel (Config c) = 3 ->
  len contents = 10485760 ->
  (exists f0 f1 f2,
      fragments c contents = ReadDone [f0; f1; f2] 3 /\
      (count f0 = 0 /\ count f1 = 1 /\ count f2 = 2) /\
      (len (content f0) = 4194303 /\ len (content f1) = 4194303 /\
       len (content f2) = 2097154) /\
      content f0 ++ content f1 ++ content f2 = contents) /\
  (forall lv fl args ls s,
      forallb healthy_label ls = true ->
      run lv fl ls (init args) = Some s ->
      config (vars s) = c -> data (file (vars s)) = contents ->
      pc s = Finishing ->
      In (Go 3) (segment (trace s)) /\
      fragments c contents = ReadDone (enqueued s) 3 /\
      wg (shared s) = 0 /\
      finalize_calls (segment (trace s)) = [] /\
      (forall net,
       exists s' ok rest,
         step lv fl (Main (Network net)) s = Some s' /\
         rev (finalize_calls (segment (trace s'))) =
           (CompleteReq 3 (Token c), ok) :: rest /\
         Forall (fun call => forall n t, fst call <> CompleteReq n t) rest) /\
      ((forall item, In item (enqueued s) -> In item (acked s)) ->
       Permutation (acked s) (enqueued s) /\
       bar (shared s) = 10485760 /\
       exists tr, trace s = BarFinish 10485760 :: tr)).
Proof.
  intros HP HPar HL.
  destruct (ten_mb_fragments c contents HP HL)
    as (f0 & f1 & f2 & Hfr & Hcnt & (H0 & H1 & H2) & Hcat).
  split; [exists f0, f1, f2; repeat split; solve [assumption | apply Hcnt]|].
  intros lv fl args ls s Hh Hrun Hc Hd Hpc.
  assert (I : invariant lv s) by (eapply invariant_reachable; exists ls; exact Hrun).
  assert (V : valid_part_size (config (vars s))).
  { unfold valid_part_size. rewrite Hc, HP. lia. }
  pose proof (pipeline_follows_reader lv fl args ls s Hh Hrun V (or_intror Hpc)) as Hpipe.
  rewrite Hc, Hd, Hfr in Hpipe. inversion Hpipe as [[Henq Hpart]].
  pose proof (inv_started lv s I) as Hgo. rewrite Hpc, Hc, HPar in Hgo.
  specialize (Hgo eq_refl).
  destruct (inv_quiet lv s I) as [Hb Hr]; [rewrite Hpc; reflexivity|].
  pose proof (inv_counter lv s I) as Hwg.
  unfold under_way in Hwg. rewrite Hpc, Hb, Hr in Hwg. cbn in Hwg.
  split; [exact Hgo|].
  split; [congruence|].
  split; [exact Hwg|].
  split; [apply (inv_no_handshake lv s I); rewrite Hpc; reflexivity|].
  split.
  - intros net.
    destruct (finishing_step lv fl s net I Hpc)
      as (s' & ok & rest & Hstep & _ & _ & _ & _ & _ & Hcalls & _ & Hrest).
    exists s', ok, rest. rewrite <- Hpart, Hc in Hcalls. auto.
  - intros Hall. rewrite Henq in Hall |- *.
    pose proof (all_acked_exactly lv s I Hwg Hall) as Hitems.
    pose proof (inv_bar lv s I) as Hbar. rewrite Hpc in Hbar. specialize (Hbar eq_refl).
    rewrite (total_len_perm _ _ Hitems), <- Henq in Hbar.
    cbn [total_len fold_right] in Hbar. rewrite H0, H1, H2 in Hbar. cbn in Hbar.
    destruct (inv_finish lv s I Hpc) as [tr Htr]. rewrite Hbar in Htr.
    split; [exact Hitems|]. split; [exact Hbar|]. exists tr; exact Htr.
Qed.

(** With a variable per iteration every enqueued fragment is acknowledged
    when [main] has passed [wg.Wait()]. *)
Lemma per_iteration_all_acked (fl : Flags) (args : list string) (s : state) :
  reachable PerIteration fl args s -> pc s = Finishing ->
  forall item, In item (enqueued s) -> In item (acked s).
Proof.
  intros R Hpc item Hin.
  destruct (finalize_once_after_counter_zero _ _ _ _ R) as (_ & _ & _ & H).
  destruct (H (or_intror Hpc)) as (_ & _ & Hperm & _).
  eapply Permutation_in; [symmetry; exact (Hperm eq_refl) | exact Hin].
Qed.

Lemma C7_ten_megabytes_witness :
  exists f0 f1 f2,
    fragments ten_mb_config ten_mb_file = ReadDone [f0; f1; f2] 3 /\
    content f0 ++ content f1 ++ content f2 = ten_mb_file.
Proof.
  destruct (C7_ten_megabytes ten_mb_config ten_mb_file eq_refl eq_refl len_ten_mb_file)
    as ((f0 & f1 & f2 & H & _ & _ & Hcat) & _).
  exists f0, f1, f2. split; [exact H | exact Hcat].
Defined.
(** ** Draining the pool

    While [main] waits, the units of work under way are with uploaders in a
    pass and with re-sends.  Against a server that confirms every fragment
    they can all be brought to their [wg.Done()], whatever state the pool
    is in. *)

Lemma resend_sound_set_nth (ups : list uploader) (w : nat) (x y : uploader)
    (r : resend) :
  nth_error ups w = Some y -> is_some (loop_item x) = true ->
  resend_sound ups r = true -> resend_sound (set_nth w x ups) r = true.
Proof.
  intros Hn Hx Hr. destruct r as [w0|item]; [|reflexivity].
  cbn [resend_sound] in *.
  destruct (Nat.eq_dec w w0) as [<-|Hne].
  - rewrite (set_nth_lookup _ _ _ _ Hn). exact Hx.
  - rewrite (set_nth_other _ _ _ _ _ Hn Hne). exact Hr.
Qed.

Lemma pool_sound_set_nth (ups : list uploader) (w : nat) (x y : uploader)
    (rs : list resend) :
  nth_error ups w = Some y -> is_some (loop_item x) = true ->
  forallb (resend_sound ups) rs = true ->
  forallb (resend_sound (set_nth w x ups)) rs = true.
Proof.
  intros Hn Hx H. rewrite forallb_forall in *. intros r Hr.
  exact (resend_sound_set_nth ups w x y r Hn Hx (H r Hr)).
Qed.

Lemma set_nth_not_nil {A} (l : list A) (k : nat) (x : A) : set_nth k x l <> [].
Proof. unfold set_nth. destruct (firstn k l); discriminate. Qed.

Lemma In_firstn_self {A} (l : list A) (k : nat) (x : A) :
  In x (firstn k l) -> In x l.
Proof.
  intros H. rewrite <- (firstn_skipn k l). apply in_or_app. left. exact H.
Qed.

Lemma In_skipn_self {A} (l : list A) (k : nat) (x : A) :
  In x (skipn k l) -> In x l.
Proof.
  intros H. rewrite <- (firstn_skipn k l). apply in_or_app. right. exact H.
Qed.

Lemma forallb_remove_nth {A} (f : A -> bool) (l : list A) (k : nat) :
  forallb f l = true -> forallb f (remove_nth k l) = true.
Proof.
  intros H. rewrite forallb_forall in *. intros x Hx.
  unfold remove_nth in Hx. apply in_app_or in Hx as [Hx|Hx].
  - exact (H x (In_firstn_self l k x Hx)).
  - exact (H x (In_skipn_self l (S k) x Hx)).
Qed.

Lemma forallb_set_nth {A} (f : A -> bool) (l : list A) (k : nat) (x : A) :
  f x = true -> forallb f l = true -> forallb f (set_nth k x l) = true.
Proof.
  intros Hfx H. rewrite forallb_forall in *. intros y Hy.
  unfold set_nth in Hy. apply in_app_or in Hy as [Hy|[<-|Hy]].
  - exact (H y (In_firstn_self l k y Hy)).
  - exact Hfx.
  - exact (H y (In_skipn_self l (S k) y Hy)).
Qed.

Lemma pool_sound_step (lv : loopvar) (fl : Flags) (l : label) (s s' : state) :
  invariant lv s -> pool_sound (shared s) -> step lv fl l s = Some s' ->
  pool_sound (shared s').
Proof.
  intros I [Hs Hne] H. pose proof (inv_counter lv s I) as Hc.
  unfold pool_sound.
  step_cases H; unstate; cbn [shared wg bar uploaders resends] in *.
  all: try (split; assumption).
  all: try (split; [reflexivity | congruence]).
  all: try match goal with
       | E : (wg _ =? 0) = true |- _ =>
           apply Z.eqb_eq in E; unfold under_way in Hc; rewrite Hpc in Hc;
           cbn [sending length] in Hc;
           destruct (resends (shared s)); [|cbn [length] in Hc; lia];
           split; [reflexivity | congruence]
       end.
  all: split; try (intros _; first [apply set_nth_not_nil | congruence]).
  all: cbn [forallb resend_sound];
    rewrite ?(set_nth_lookup _ _ _ _ Hw); cbn [loop_item is_some andb].
  all: try (apply forallb_remove_nth).
  all: try (eapply pool_sound_set_nth; [exact Hw | reflexivity | exact Hs]).
  all: try (apply forallb_set_nth; [reflexivity | exact Hs]).
  intros _ Hnil. rewrite Hnil in Hw. destruct w; discriminate.
Qed.

Lemma pool_sound_run (lv : loopvar) (fl : Flags) (ls : list label) :
  forall s s',
    invariant lv s -> pool_sound (shared s) -> run lv fl ls s = Some s' ->
    pool_sound (shared s').
Proof.
  induction ls as [|l ls IH]; intros s s' I Hs H; cbn [run] in H.
  - injection H as <-. exact Hs.
  - destruct (step lv fl l s) as [s1|] eqn:E; [|discriminate].
    exact (IH s1 s' (invariant_step lv fl l s s1 I E)
             (pool_sound_step lv fl l s s1 I Hs E) H).
Qed.

Lemma pool_sound_reachable (lv : loopvar) (fl : Flags) (args : list string)
    (s : state) :
  reachable lv fl args s -> pool_sound (shared s).
Proof.
  intros [ls H].
  refine (pool_sound_run lv fl ls (init args) s (invariant_init lv args) _ H).
  split; [reflexivity | intros E; exact (False_ind _ (E eq_refl))].
Qed.

Lemma some_working (ups : list uploader) :
  filter working ups <> [] ->
  exists w u, nth_error ups w = Some u /\ working u = true.
Proof.
  induction ups as [|u ups IH]; intros H; [exfalso; apply H; reflexivity|].
  cbn [filter] in H. destruct (working u) eqn:E.
  - exists 0%nat, u. split; [reflexivity | exact E].
  - destruct (IH H) as (w & u' & Hn & Hw). exists (S w), u'. split; assumption.
Qed.

Lemma confirmed_work_step (lv : loopvar) (fl : Flags) (s : state) (w : nat)
    (item : UploadPart) (net : network) :
  invariant lv s -> panicked s = false ->
  nth_error (uploaders (shared s)) w = Some (mkUploader (Some item) true) ->
  confirming net ->
  step lv fl (Work w net) s =
    Some (log [Net (request_of s item) true; Ack item]
            (with_shared
               (mkPool (wg (shared s) - 1) (bar (shared s) + len (content item))
                  (set_nth w (mkUploader (Some item) false) (uploaders (shared s)))
                  (resends (shared s))) s)).
Proof.
  intros I Hp Hn Hnet.
  pose proof (inv_counter lv s I) as Hc. unfold under_way in Hc.
  pose proof (working_counted _ _ _ Hn eq_refl) as Hw.
  assert (Hpos : (wg (shared s) - 1 <? 0) = false) by (apply Z.ltb_ge; lia).
  unfold step. rewrite Hp. unfold work_step. rewrite Hn.
  unfold uploader_pass. cbv zeta. fold (request_of s item).
  unfold request_of at 1 2. unfold fragment_request.
  destruct (Hnet (Token (config (vars s))) (count item)
              (count item * wrap_int (PartSize (Config (config (vars s))) - 1))
              (count item * wrap_int (PartSize (Config (config (vars s))) - 1)
               + len (content item) - 1)
              (FileSize (info (vars s))) (content item)) as (st & b & ck & Er & Eb).
  rewrite Er, Eb. cbn [PartResult Size]. rewrite !Z.eqb_refl. cbn [negb orb].
  rewrite Hpos. reflexivity.
Qed.


Lemma pool_drains (lv : loopvar) (fl : Flags) (net : network) :
  confirming net ->
  forall (n : nat) (s : state),
    invariant lv s -> pool_sound (shared s) -> panicked s = false ->
    pc s = Waiting -> (pool_weight (shared s) <= n)%nat ->
    exists ls s',
      forallb uploader_label ls = true /\
      run lv fl ls s = Some s' /\
      panicked s' = false /\ wg (shared s') = 0.
Proof.
  intros Hnet. induction n as [|n IH]; intros s I Hsound Hp Hpc Hweight.
  - (* nothing is left in the pool *)
    exists [], s. split; [reflexivity|]. split; [reflexivity|]. split; [exact Hp|].
    pose proof (inv_counter lv s I) as Hc. unfold under_way in Hc.
    rewrite Hpc in Hc. cbn [sending length] in Hc.
    unfold pool_weight in Hweight.
    destruct (resends (shared s)) as [|[w|item] rs];
      unfold list_sum in *; cbn [map resend_weight fold_right length] in *; lia.
  - destruct (filter working (uploaders (shared s))) as [|u0 us] eqn:Ework.
    + destruct (resends (shared s)) as [|r rs] eqn:Eres.
      * exists [], s. split; [reflexivity|]. split; [reflexivity|].
        split; [exact Hp|].
        pose proof (inv_counter lv s I) as Hc. unfold under_way in Hc.
        rewrite Hpc, Ework, Eres in Hc. exact Hc.
      * destruct Hsound as [Hs Hne]. rewrite Eres in Hs, Hne.
        cbn [forallb] in Hs. apply andb_prop in Hs as [Hr Hrs].
        destruct r as [w|item].
        -- (* the re-send comes to run and reads [item] *)
           cbn [resend_sound] in Hr.
           destruct (nth_error (uploaders (shared s)) w) as [u|] eqn:Hw;
             [|discriminate].
           destruct (loop_item u) as [item|] eqn:Hitem; [|discriminate].
           assert (Hstep : step lv fl (Eval 0) s =
                           Some (log [Resend item]
                                   (with_shared
                                      (mkPool (wg (shared s)) (bar (shared s))
                                         (uploaders (shared s))
                                         (Blocked item :: rs)) s))).
           { unfold step. rewrite Hp. unfold eval_step. rewrite Eres.
             cbn [nth_error]. rewrite Hw, Hitem. reflexivity. }
           set (s1 := log _ _) in Hstep.
           destruct (IH s1) as (ls & s' & Hls & Hrun & Hp' & Hwg).
           ++ exact (invariant_step lv fl _ s s1 I Hstep).
           ++ refine (pool_sound_step lv fl _ s s1 I _ Hstep).
              split; [rewrite Eres; cbn [forallb resend_sound];
                      rewrite Hw, Hitem, Hrs; reflexivity
                     | rewrite Eres; exact Hne].
           ++ exact Hp.
           ++ exact Hpc.
           ++ subst s1. unfold pool_weight in *.
              cbn [shared log with_shared uploaders resends] in *.
              rewrite Eres in Hweight. rewrite Ework in *.
              unfold list_sum in *; cbn [map resend_weight fold_right length] in *. lia.
           ++ exists (Eval 0 :: ls), s'. split; [exact Hls|].
              split; [cbn [run]; rewrite Hstep; exact Hrun|]. split; assumption.
        -- (* an uploader that is not in a pass receives from the re-send *)
           destruct (uploaders (shared s)) as [|u ups] eqn:Eups;
             [exfalso; apply Hne; [discriminate | reflexivity]|].
           assert (Hidle : working u = false).
           { cbn [filter] in Ework. destruct (working u); [discriminate|reflexivity]. }
           assert (Hrest : filter working ups = []).
           { cbn [filter] in Ework. rewrite Hidle in Ework. exact Ework. }
           assert (Hstep : step lv fl (Recv (Some 0%nat) 0) s =
                           Some (with_shared
                                   (mkPool (wg (shared s)) (bar (shared s))
                                      (mkUploader (Some item) true :: ups) rs) s)).
           { unfold step. rewrite Hp. unfold recv_step. rewrite Eres.
             cbn [nth_error]. unfold receive. rewrite Eups. cbn [nth_error].
             rewrite Hidle. reflexivity. }
           set (s1 := with_shared _ _) in Hstep.
           destruct (IH s1) as (ls & s' & Hls & Hrun & Hp' & Hwg).
           ++ exact (invariant_step lv fl _ s s1 I Hstep).
           ++ refine (pool_sound_step lv fl _ s s1 I _ Hstep).
              split; [rewrite Eres, Eups; cbn [forallb resend_sound];
                      exact Hrs
                     | rewrite Eres, Eups; intros _; discriminate].
           ++ exact Hp.
           ++ exact Hpc.
           ++ subst s1. unfold pool_weight in *.
              cbn [shared with_shared uploaders resends filter working] in *.
              rewrite Eres, Eups in Hweight. rewrite Hrest.
              cbn [filter] in Hweight. rewrite Hidle, Hrest in Hweight.
              unfold list_sum in *; cbn [map resend_weight fold_right length] in *. lia.
           ++ exists (Recv (Some 0%nat) 0 :: ls), s'. split; [exact Hls|].
              split; [cbn [run]; rewrite Hstep; exact Hrun|]. split; assumption.
    + (* an uploader in a pass is confirmed *)
      destruct (some_working (uploaders (shared s))) as (w & u & Hw & Hbusy).
      { rewrite Ework. discriminate. }
      pose proof (inv_working lv s I) as Hitems.
      rewrite Forall_forall in Hitems.
      specialize (Hitems u (nth_error_In _ _ Hw) Hbusy).
      destruct u as [[item|] wk]; cbn [working loop_item] in *;
        [|congruence]. subst wk.
      pose proof (confirmed_work_step lv fl s w item net I Hp Hw Hnet) as Hstep.
      set (s1 := log _ _) in Hstep.
      destruct (IH s1) as (ls & s' & Hls & Hrun & Hp' & Hwg).
      * exact (invariant_step lv fl _ s s1 I Hstep).
      * exact (pool_sound_step lv fl _ s s1 I Hsound Hstep).
      * exact Hp.
      * exact Hpc.
      * subst s1. unfold pool_weight in *.
        cbn [shared log with_shared uploaders resends] in *.
        pose proof (filter_length_set_nth working (uploaders (shared s)) w
                      (mkUploader (Some item) false) _ Hw) as Hlen.
        cbn [working] in Hlen. lia.
      * exists (Work w net :: ls), s'. split; [exact Hls|].
        split; [cbn [run]; rewrite Hstep; exact Hrun|]. split; assumption.
Qed.

Lemma finished_state_reachable :
  reachable PerLoop sample_flags ["dir/a"%string] finished_state.
Proof. exists sample_run. vm_compute. reflexivity. Qed.

(** The run of [sample_run], in which no upload fails: the three calls, the
    counter at zero, and both fragments acknowledged. *)
Lemma sample_run_handshake :
  rev (finalize_calls (segment (trace finished_state))) =
    [ (CompleteReq 2 "tok"%string, true);
      (CreateVideoReq "task"%string "a"%string, true);
      (FinishReq "task"%string, true) ] /\
  wg (shared finished_state) = 0 /\
  Permutation (acked finished_state) (enqueued finished_state).
Proof.
  destruct (finalize_once_after_counter_zero PerLoop sample_flags ["dir/a"%string]
              finished_state finished_state_reachable) as (_ & Hall & _ & Hzero).
  split.
  - apply (Hall "task"%string). vm_compute. tauto.
  - destruct Hzero as (H1 & _); [left; vm_compute; discriminate|].
    split; [exact H1|]. vm_compute. apply perm_swap.
Qed.

(** ** The steps of [main] one by one *)

(** From [Finishing] the completion call is made, with [part] as the
    fragment count, whatever the network does. *)
Lemma finishing_calls_complete (lv : loopvar) (fl : Flags) (s : state) (net : network) :
  panicked s = false -> pc s = Finishing ->
  exists s' ok,
    step lv fl (Main (Network net)) s = Some s' /\ pc s' = NextFile /\
    In (Net (CompleteReq (part (vars s)) (Token (config (vars s)))) ok) (trace s').
Proof.
  intros Hp Hpc. unfold step. rewrite Hp. unfold main_step. rewrite Hpc.
  unfold finishUpload, uploadRequest, request.
  destruct (net (CompleteReq _ _)) as [e1|e1|st1 [e1|b1]];
    try destruct (debug fl);
    try (destruct (net (CreateVideoReq _ _)) as [e2|e2|st2 [e2|b2]];
         try (destruct (net (FinishReq _)) as [e3|e3|st3 [e3|b3]]));
    cbn beta iota zeta.
  all: eexists; eexists; split; [reflexivity|]; split; [reflexivity|].
  all: cbn [trace log goto rev app In]; auto 8.
Qed.

(** ** C10: missing credentials *)

(** C10: when the token or the uid is empty, the first step of [main] prints
    the message and the usage and returns, and nothing else can ever happen:
    the only reachable states are the initial one and that one.  So no file
    is stat'ed or opened, no request is made, and the arguments are left
    untouched, however many there are. *)
Theorem C10_missing_credentials (lv : loopvar) (fl : Flags) (args : list string) :
  token fl = ""%string \/ uid fl = ""%string ->
  run lv fl [Main Tick] (init args) =
    Some (log [Stdout MissingCredentials; Stdout Usage] (goto Exited (init args))) /\
  forall s,
    reachable lv fl args s ->
    (s = init args \/
     s = log [Stdout MissingCredentials; Stdout Usage] (goto Exited (init args))) /\
    files s = args /\
    forall e, In e (trace s) -> e = Stdout MissingCredentials \/ e = Stdout Usage.
Proof.
  intros Hcred.
  assert (Hif : ((token fl =? "") || (uid fl =? ""))%string = true).
  { destruct Hcred as [H|H]; rewrite H; cbn; [reflexivity|apply orb_true_r]. }
  assert (Hfirst : step lv fl (Main Tick) (init args) =
                   Some (log [Stdout MissingCredentials; Stdout Usage]
                           (goto Exited (init args)))).
  { unfold step, main_step. cbn [panicked pc init]. rewrite Hif. reflexivity. }
  split; [cbn [run]; rewrite Hfirst; reflexivity|].
  intros s [ls Hrun].
  assert (Hs : s = init args \/
               s = log [Stdout MissingCredentials; Stdout Usage] (goto Exited (init args))).
  { destruct ls as [|l ls]; [inversion Hrun; auto|].
    cbn [run] in Hrun.
    assert (Hl : step lv fl l (init args) = None \/ l = Main Tick).
    { destruct l as [i|src w|g|w net].
      - destruct i; auto.
      - left. destruct src as [g|]; [destruct g|]; reflexivity.
      - left. destruct g; reflexivity.
      - left. unfold step, work_step. cbn. destruct w; reflexivity. }
    destruct Hl as [Hl| ->]; [rewrite Hl in Hrun; discriminate|].
    rewrite Hfirst in Hrun.
    destruct ls as [|l' ls]; [inversion Hrun; auto|].
    cbn [run] in Hrun.
    assert (Hstuck : step lv fl l'
                       (log [Stdout MissingCredentials; Stdout Usage]
                          (goto Exited (init args))) = None).
    { destruct l' as [i|src w|g|w net].
      - destruct i; reflexivity.
      - destruct src as [g|]; [destruct g|]; reflexivity.
      - destruct g; reflexivity.
      - unfold step, work_step. cbn. destruct w; reflexivity. }
    rewrite Hstuck in Hrun. discriminate. }
  split; [exact Hs|].
  destruct Hs as [-> | ->]; cbn; split; auto; intros e H; tauto || (destruct H as [<-|[<-|[]]]; auto).
Qed.

Lemma C10_missing_credentials_witness :
  run PerLoop (mkFlags ""%string "uid"%string true) [Main Tick]
      (init ["a"%string; "b"%string; "c"%string]) =
    Some (log [Stdout MissingCredentials; Stdout Usage]
            (goto Exited (init ["a"%string; "b"%string; "c"%string]))).
Proof.
  apply (C10_missing_credentials PerLoop (mkFlags ""%string "uid"%string true)
           ["a"%string; "b"%string; "c"%string]).
  left. reflexivity.
Defined.

(** ** C6: negotiation *)

(** C6, as stated, fails: a response with status 403 whose body decodes,
    with a negative result code, is taken as a configuration.  [main] goes on
    to the resume request and opens the file; nothing is reported; and with
    the part size 0 of that body the first turn of the read loop panics, so
    the second file is never looked at. *)
Lemma C6_counterexample :
  pc negotiating_state = Negotiate /\
  exists s1 s4,
    step PerLoop sample_flags (Main (Network forbidden_server)) negotiating_state = Some s1 /\
    pc s1 = Resume /\ config (vars s1) = refusal /\
    run PerLoop sample_flags
      [ Main (Network forbidden_server);
        Main (Network forbidden_server);
        Main (OpenResult (inr six_bytes));
        Main (ReadResult None) ] negotiating_state = Some s4 /\
    In (Net (ResumeReq ""%string) true) (trace s4) /\
    In (Open "dir/a"%string) (trace s4) /\
    (forall e, ~ In (Stdout (GetUploadConfigError e)) (trace s4)) /\
    panicked s4 = true /\ files s4 = ["dir/b"%string].
Proof.
  split; [reflexivity|].
  eexists. eexists.
  split; [vm_compute; reflexivity|].
  split; [reflexivity|]. split; [reflexivity|].
  split; [vm_compute; reflexivity|].
  cbn [trace panicked files In].
  split; [tauto|]. split; [tauto|].
  split; [|split; reflexivity].
  intros e H. cbn in H.
  repeat (destruct H as [H|H]; [discriminate H|]). exact H.
Qed.

(** A response whose body decodes is taken as the configuration, whatever
    its status code and result code. *)
Lemma getUploadConfig_takes_any_decodable_body
    (lv : loopvar) (fl : Flags) (s : state) (net : network)
    (st : Z) (b : Body) (c : UploadConfigResp) :
  panicked s = false -> pc s = Negotiate ->
  net (config_request s) = Response st (inr b) -> as_config b = inr c ->
  step lv fl (Main (Network net)) s =
    Some (log [Net (config_request s) true]
            (goto Resume
               (with_vars
                  (mkLocals (v (vars s)) (info (vars s)) c (file (vars s))
                     (part (vars s))) s))).
Proof.
  intros Hp Hpc Hr Hb. unfold step. rewrite Hp. unfold main_step. rewrite Hpc.
  unfold getUploadConfig, request. fold (config_request s).
  rewrite Hr, Hb. reflexivity.
Qed.

(** C6, amended: when [getUploadConfig] returns an error (the request cannot
    be built or sent, the body cannot be read, or it does not decode), the
    step of [main] makes that one call, prints the error and goes to the next
    file: nothing is read, no uploader is started, and the remaining
    arguments are untouched. *)
Theorem C6_negotiation_failure_skips_file
    (lv : loopvar) (fl : Flags) (s : state) (net : network) (e : error) :
  panicked s = false -> pc s = Negotiate ->
  negotiation_error (net (config_request s)) e ->
  exists ok,
    step lv fl (Main (Network net)) s =
      Some (log [Net (config_request s) ok; Stdout (GetUploadConfigError e)]
              (goto NextFile s)).
Proof.
  intros Hp Hpc He. unfold step. rewrite Hp. unfold main_step. rewrite Hpc.
  unfold getUploadConfig, request. fold (config_request s).
  destruct He as [e|e|st e|st b e Hb]; try rewrite Hb; eexists; reflexivity.
Qed.

Lemma C6_negotiation_failure_skips_file_witness :
  exists ok,
    step PerLoop sample_flags (Main (Network bad_gateway)) negotiating_state =
      Some (log [Net (config_request negotiating_state) ok;
                 Stdout (GetUploadConfigError "502"%string)]
              (goto NextFile negotiating_state)).
Proof.
  apply (C6_negotiation_failure_skips_file PerLoop sample_flags negotiating_state
           bad_gateway "502"%string eq_refl eq_refl).
  apply neg_transport.
Defined.

(** ** C5: a failing read *)

(** C5, as stated, fails: after the first fragment of the six-byte file the
    read fails with an input/output error; [main] leaves the loop, waits,
    and makes the three finalize calls, with a fragment count of 1.  No error
    is printed. *)
Lemma C5_counterexample :
  exists s,
    run PerLoop sample_flags faulty_run (init ["dir/a"%string]) = Some s /\
    In (Main (ReadResult (Some "input/output error"%string))) faulty_run /\
    rev (finalize_calls (segment (trace s))) =
      [ (CompleteReq 1 "tok"%string, true);
        (CreateVideoReq "task"%string "a"%string, true);
        (FinishReq "task"%string, true) ] /\
    (forall o, In (Stdout o) (trace s) -> o = Local "dir/a"%string) /\
    pos (file (vars s)) = 3%nat.
Proof.
  eexists. split; [vm_compute; reflexivity|].
  split; [cbn; tauto|].
  split; [reflexivity|].
  split; [|reflexivity].
  intros o H. cbn [trace In] in H.
  repeat (destruct H as [H|H]; [try discriminate H; inversion H; reflexivity|]).
  destruct H.
Qed.

Lemma uploader_step_while_waiting (lv : loopvar) (fl : Flags) (l : label) (s s' : state) :
  uploader_label l = true -> pc s = Waiting -> step lv fl l s = Some s' ->
  pc s' = Waiting /\ vars s' = vars s /\ files s' = files s /\
  sends (segment (trace s')) = sends (segment (trace s)) /\
  (forall o, In (Stdout o) (trace s') -> In (Stdout o) (trace s)).
Proof.
  intros Hl Hw H.
  step_cases H; try discriminate Hl; unstate;
    cbn [segment sends rev app]; try congruence.
  all: repeat (split; [first [reflexivity | assumption]|]).
  all: try (intros o Ho; exact Ho).
  all: intros o Ho; cbn [In] in Ho;
    repeat (destruct Ho as [Ho|Ho]; [discriminate Ho|]); exact Ho.
Qed.

Lemma uploader_run_while_waiting (lv : loopvar) (fl : Flags) (ls : list label) :
  forall s s',
    forallb uploader_label ls = true -> pc s = Waiting ->
    run lv fl ls s = Some s' ->
    pc s' = Waiting /\ vars s' = vars s /\ files s' = files s /\
    sends (segment (trace s')) = sends (segment (trace s)) /\
    (forall o, In (Stdout o) (trace s') -> In (Stdout o) (trace s)).
Proof.
  induction ls as [|l ls IH]; intros s s' Hls Hpc Hrun; cbn [run] in Hrun.
  - injection Hrun as <-. repeat (split; [first [reflexivity | assumption]|]). auto.
  - cbn [forallb] in Hls. apply andb_prop in Hls as [Hl Hls].
    destruct (step lv fl l s) as [s1|] eqn:Hstep; [|discriminate].
    destruct (uploader_step_while_waiting lv fl l s s1 Hl Hpc Hstep)
      as (Hpc1 & Hv1 & Hf1 & Hs1 & Ho1).
    destruct (IH s1 s' Hls Hpc1 Hrun) as (Hpc2 & Hv2 & Hf2 & Hs2 & Ho2).
    split; [exact Hpc2|]. split; [congruence|]. split; [congruence|].
    split; [congruence|]. intros o Ho. exact (Ho1 o (Ho2 o Ho)).
Qed.

Lemma main_waits_for_counter (lv : loopvar) (fl : Flags) (i : input) (s s' : state) :
  pc s = Waiting -> step lv fl (Main i) s = Some s' ->
  i = Tick /\ wg (shared s) = 0.
Proof.
  intros Hpc H. unfold step in H.
  destruct (panicked s); [discriminate|].
  unfold main_step in H. rewrite Hpc in H.
  destruct i; try discriminate H.
  destruct (wg (shared s) =? 0) eqn:E; [|discriminate].
  split; [reflexivity | apply Z.eqb_eq; exact E].
Qed.

(** C5, amended: when a read fails, whatever the error, the loop is left as
    at the end of the file: nothing is enqueued for that read, nothing is
    printed, [part] is counted up to the number of fragments enqueued and
    [main] goes to wait.  Against a server that confirms every fragment the
    uploaders and the re-sends can bring the counter to zero.  Whatever they
    do, [main] stays in the wait, nothing more is enqueued and nothing is
    printed; the only step [main] can take is the end of the wait, and only
    with the counter at zero.  With the counter at zero the wait ends and
    the handshake is made: its first call, and its only completion call,
    carries the number of fragments enqueued before the failure. *)
Theorem C5_read_error_stops_production
    (lv : loopvar) (fl : Flags) (args : list string) (s : state) (e : error) :
  reachable lv fl args s ->
  panicked s = false -> pc s = Reading ->
  0 <= wrap_int (PartSize (Config (config (vars s))) - 1) ->
  exists s1,
    step lv fl (Main (ReadResult (Some e))) s = Some s1 /\
    s1 = log [FileRead 0]
           (goto Waiting
              (with_vars
                 (mkLocals (v (vars s)) (info (vars s)) (config (vars s))
                    (file (vars s)) (Z.of_nat (length (enqueued s)))) s)) /\
    (forall net,
       confirming net ->
       exists ls s2,
         forallb uploader_label ls = true /\
         run lv fl ls s1 = Some s2 /\
         panicked s2 = false /\ wg (shared s2) = 0) /\
    forall ls s2,
      forallb uploader_label ls = true ->
      run lv fl ls s1 = Some s2 ->
      pc s2 = Waiting /\
      enqueued s2 = enqueued s /\
      (forall o, In (Stdout o) (trace s2) -> In (Stdout o) (trace s)) /\
      (forall i s3, step lv fl (Main i) s2 = Some s3 ->
                    i = Tick /\ wg (shared s2) = 0) /\
      (panicked s2 = false -> wg (shared s2) = 0 ->
       forall net,
       exists s' ok rest,
         run lv fl [Main Tick; Main (Network net)] s2 = Some s' /\
         pc s' = NextFile /\
         rev (finalize_calls (segment (trace s'))) =
           (CompleteReq (Z.of_nat (length (enqueued s))) (Token (config (vars s))), ok)
           :: rest /\
         Forall (fun call => forall n t, fst call <> CompleteReq n t) rest).
Proof.
  intros Hreach Hp Hpc Hbuf.
  pose proof (invariant_reachable lv fl args s Hreach) as I.
  assert (Hpart : part (vars s) + 1 = Z.of_nat (length (enqueued s))).
  { pose proof (inv_part lv s I) as H. rewrite Hpc in H.
    specialize (H eq_refl). cbn [dispatching] in H. lia. }
  assert (Hstep : step lv fl (Main (ReadResult (Some e))) s =
                  Some (log [FileRead 0]
                          (goto Waiting
                             (with_vars
                                (mkLocals (v (vars s)) (info (vars s)) (config (vars s))
                                   (file (vars s)) (Z.of_nat (length (enqueued s)))) s)))).
  { unfold step. rewrite Hp. unfold main_step. rewrite Hpc.
    unfold read_turn, make.
    destruct (wrap_int _ <? 0) eqn:E; [apply Z.ltb_lt in E; lia|].
    cbn [Read]. cbv beta iota zeta. cbn [Z.leb orb is_some]. rewrite Hpart.
    reflexivity. }
  eexists. split; [exact Hstep|]. split; [reflexivity|].
  set (s1 := log _ _) in *.
  pose proof (invariant_step lv fl _ s s1 I Hstep) as I1.
  split.
  { intros net Hnet.
    refine (pool_drains lv fl net Hnet (pool_weight (shared s1)) s1 I1 _ Hp
              eq_refl (le_n _)).
    exact (pool_sound_step lv fl _ s s1 I (pool_sound_reachable lv fl args s Hreach)
             Hstep). }
  intros ls s2 Hls Hrun.
  destruct (uploader_run_while_waiting lv fl ls s1 s2 Hls eq_refl Hrun)
    as (Hpc2 & Hv2 & Hf2 & Hs2 & Ho2).
  pose proof (invariant_run lv fl ls s1 s2 I1 Hrun) as I2.
  split; [exact Hpc2|].
  split; [unfold enqueued; rewrite Hs2; reflexivity|].
  split.
  { intros o Ho. specialize (Ho2 o Ho). subst s1. cbn [trace log goto with_vars rev app In] in Ho2.
    destruct Ho2 as [Ho2|Ho2]; [discriminate | exact Ho2]. }
  split; [intros i s3; apply main_waits_for_counter; exact Hpc2|].
  intros Hp2 Hwg net.
  assert (Htick : step lv fl (Main Tick) s2 =
                  Some (log [BarFinish (bar (shared s2))]
                          (goto Finishing
                             (with_shared
                                (mkPool (wg (shared s2)) (bar (shared s2))
                                   (filter working (uploaders (shared s2)))
                                   (resends (shared s2))) s2)))).
  { unfold step, main_step. rewrite Hp2, Hpc2, Hwg. reflexivity. }
  set (s3 := log [BarFinish _] _) in Htick.
  pose proof (invariant_step lv fl _ s2 s3 I2 Htick) as I3.
  destruct (finishing_step lv fl s3 net I3 eq_refl)
    as (s' & ok & rest & Hfin & Hnext & _ & _ & _ & _ & Hcalls & _ & Hrest).
  exists s', ok, rest. cbn [run]. rewrite Htick, Hfin.
  split; [reflexivity|]. split; [exact Hnext|].
  split; [|exact Hrest].
  rewrite Hcalls. subst s3. cbn [vars log goto with_shared]. rewrite Hv2.
  subst s1. reflexivity.
Qed.

Lemma sample_state_reachable :
  reachable PerLoop sample_flags ["dir/a"%string] sample_state.
Proof. exists sample_prefix. vm_compute. reflexivity. Qed.

Lemma C5_read_error_stops_production_witness :
  wg (shared sample_state) = 1 /\
  run PerLoop sample_flags [failed_read; Work 0 (good_server tiny_config)]
    sample_state = Some waited_state /\
  exists s' ok rest,
    run PerLoop sample_flags [Main Tick; Main (Network bad_gateway)] waited_state
      = Some s' /\
    pc s' = NextFile /\
    rev (finalize_calls (segment (trace s'))) =
      (CompleteReq 1 "tok"%string, ok) :: rest.
Proof.
  split; [reflexivity|]. split; [vm_compute; reflexivity|].
  destruct (C5_read_error_stops_production PerLoop sample_flags ["dir/a"%string]
              sample_state "input/output error"%string
              sample_state_reachable eq_refl eq_refl)
    as (s1 & Hstep & Hs1 & _ & Hcont).
  - vm_compute. discriminate.
  - subst s1.
    destruct (Hcont [Work 0 (good_server tiny_config)] waited_state eq_refl)
      as (_ & _ & _ & _ & Hfin).
    + vm_compute. reflexivity.
    + destruct (Hfin eq_refl eq_refl bad_gateway) as (s' & ok & rest & Hrun & Hnext & Hcalls & _).
      exists s', ok, rest. split; [exact Hrun|]. split; [exact Hnext | exact Hcalls].
Defined.

(** ** C8: the empty file *)

(** C8, as stated, fails: the server turns the client away with a body
    that decodes, so the part size is 0; the empty file is opened, and the
    allocation of the buffer of [PartSize - 1] bytes panics before the first
    read.  Nothing is enqueued, no finalize call is made, and nothing
    happens after the panic. *)
Lemma C8_counterexample :
  exists s,
    run PerLoop sample_flags refused_empty_run (init ["dir/empty"%string]) = Some s /\
    data (file (vars s)) = [] /\
    PartSize (Config (config (vars s))) = 0 /\
    panicked s = true /\
    enqueued s = [] /\
    finalize_calls (trace s) = [] /\
    forall l, step PerLoop sample_flags l s = None.
Proof.
  eexists. split; [vm_compute; reflexivity|].
  repeat (split; [reflexivity|]).
  intros l. reflexivity.
Qed.

(** C8, amended: take a file that is about to be opened under a
    configuration whose buffer can be allocated (a part size of at least
    1), and let it be empty.  The uploaders are started, the first read
    returns nothing, the loop is left with nothing enqueued and the counter
    never touched, the wait is over at once, and the handshake begins: the
    completion call is made with a fragment count of 0. *)
Theorem C8_empty_file (lv : loopvar) (fl : Flags) (s : state) :
  panicked s = false -> pc s = Opening ->
  0 <= wrap_int (PartSize (Config (config (vars s))) - 1) ->
  exists s3,
    run lv fl [Main (OpenResult (inr [])); Main (ReadResult None); Main Tick] s = Some s3 /\
    pc s3 = Finishing /\ part (vars s3) = 0 /\
    wg (shared s3) = 0 /\ uploaders (shared s3) = [] /\ resends (shared s3) = [] /\
    trace s3 =
      [ BarFinish 0; FileRead 0;
        Go (Z.to_nat (Parallel (Config (config (vars s)))));
        Open (v (vars s)); BarStart (FileSize (info (vars s))) ] ++ trace s /\
    forall net,
    exists s4 ok,
      step lv fl (Main (Network net)) s3 = Some s4 /\ pc s4 = NextFile /\
      In (Net (CompleteReq 0 (Token (config (vars s)))) ok) (trace s4).
Proof.
  intros Hp Hpc Hbuf.
  eexists. split.
  - cbn [run]. unfold step at 1. rewrite Hp. unfold main_step at 1. rewrite Hpc.
    unfold step at 1. cbn [panicked log goto with_shared with_vars pc].
    rewrite Hp. unfold main_step at 1. cbn [pc log goto with_shared with_vars vars config file part].
    unfold read_turn, make.
    destruct (wrap_int _ <? 0) eqn:E; [apply Z.ltb_lt in E; lia|].
    unfold Read, os_Open, unread. cbn [data pos skipn].
    assert (Hturn : forall buf : bytes,
               (let '(nr, err, buf0, f') :=
                  match buf with
                  | [] => (0, None, buf, mkFile [] 0)
                  | _ :: _ => (0, Some EOF, buf, mkFile [] 0)
                  end in
                if (nr <=? 0) || is_some err
                then TurnBreak nr (-1 + 1)
                else TurnEmit nr (mkPart (slice_to buf0 nr) (-1 + 1)) f' (-1 + 1))
               = TurnBreak 0 0).
    { intros [|b buf]; reflexivity. }
    rewrite Hturn.
    unfold step at 1. cbn [panicked log goto with_shared with_vars pc].
    rewrite Hp. unfold main_step.
    cbn [pc log goto with_shared with_vars shared wg bar uploaders resends].
    rewrite filter_working_fresh. cbn [Z.eqb]. reflexivity.
  - cbn [pc vars shared part wg uploaders resends trace log goto with_shared with_vars rev app].
    repeat (split; [reflexivity|]).
    intros net.
    match goal with |- exists s4 ok, step _ _ _ ?s3 = _ /\ _ =>
      destruct (finishing_calls_complete lv fl s3 net) as (s4 & ok & H1 & H2 & H3);
        [exact Hp | reflexivity | exists s4, ok; auto]
    end.
Qed.

Lemma C8_empty_file_witness :
  exists s3,
    run PerLoop sample_flags
      [Main (OpenResult (inr [])); Main (ReadResult None); Main Tick]
      opening_state = Some s3 /\
    pc s3 = Finishing /\ part (vars s3) = 0 /\ wg (shared s3) = 0 /\
    forall net,
    exists s4 ok,
      step PerLoop sample_flags (Main (Network net)) s3 = Some s4 /\
      In (Net (CompleteReq 0 "tok"%string) ok) (trace s4).
Proof.
  destruct (C8_empty_file PerLoop sample_flags opening_state eq_refl eq_refl)
    as (s3 & Hrun & Hpc & Hpart & Hwg & _ & _ & _ & Hfin).
  - vm_compute. discriminate.
  - exists s3. repeat (split; [assumption|]).
    intros net. destruct (Hfin net) as (s4 & ok & H1 & _ & H2).
    exists s4, ok. split; [exact H1 | exact H2].
Defined.

(** ** C9: the retry hints

    A step looks at the configuration only through its part size, its
    number of uploaders, its token and its task identifier. *)

Ltac pair_bodies E :=
  match type of E with
  | forget_body ?b1 = forget_body ?b2 =>
      let Hc := fresh "Hcfg" in
      let Hp := fresh "Hprt" in
      pose proof (f_equal as_config E) as Hc;
      pose proof (f_equal as_part E) as Hp;
      cbn [forget_body as_config as_part] in Hc, Hp;
      try rewrite Hp in *;
      destruct (as_config b1) as [?e|?c]; destruct (as_config b2) as [?e|?c];
      try discriminate Hc; injection Hc as Hc; subst
  | _ => idtac
  end.

Ltac pair_replies :=
  repeat match goal with
         | Hs : same_replies ?n1 ?n2 |- context [?n1 ?req] =>
             let E := fresh "E" in
             pose proof (Hs req) as E;
             destruct (n1 req) as [?e|?e|?st [?e|?b]];
             destruct (n2 req) as [?e|?e|?st [?e|?b]];
             cbn [forget_reply] in E; try discriminate E;
             injection E as E; subst; try pair_bodies E;
             cbn beta iota zeta
         end.

Ltac settle :=
  repeat (cbn beta iota zeta;
          match goal with
          | |- same_outcome None None => exact I
          | |- same_outcome (Some _) (Some _) =>
              unfold same_outcome, forget_state, with_vars, forget_retry in *;
              cbn in *; congruence
          | |- context [match ?x with _ => _ end] =>
              lazymatch x with
              | context [match _ with _ => _ end] => fail
              | _ => destruct x eqn:?
              end
          end).

Lemma step_same (lv : loopvar) (fl : Flags) (l1 l2 : label) (s1 s2 : state) :
  forget_state s1 = forget_state s2 -> same_label l1 l2 ->
  same_outcome (step lv fl l1 s1) (step lv fl l2 s2).
Proof.
  intros Hs Hl.
  destruct s1 as [pc1 files1 [v1 info1 c1 file1 part1] sh1 tr1 pan1].
  destruct s2 as [pc2 files2 [v2 info2 c2 file2 part2] sh2 tr2 pan2].
  pose proof (f_equal pc Hs) as Hpc. pose proof (f_equal files Hs) as Hfiles.
  pose proof (f_equal (fun s => v (vars s)) Hs) as Hv.
  pose proof (f_equal (fun s => info (vars s)) Hs) as Hinfo.
  pose proof (f_equal (fun s => config (vars s)) Hs) as Hc.
  pose proof (f_equal (fun s => file (vars s)) Hs) as Hfile.
  pose proof (f_equal (fun s => part (vars s)) Hs) as Hpart.
  pose proof (f_equal shared Hs) as Hsh. pose proof (f_equal trace Hs) as Htr.
  pose proof (f_equal panicked Hs) as Hpan.
  cbn in Hpc, Hfiles, Hv, Hinfo, Hfile, Hpart, Hsh, Htr, Hpan.
  cbn [forget_state with_vars vars config] in Hc. clear Hs. subst.
  destruct c1 as [r1 h1 [ps1 par1 rc1 rd1] task1 tok1].
  destruct c2 as [r2 h2 [ps2 par2 rc2 rd2] task2 tok2].
  pose proof (f_equal Result Hc) as Hr. pose proof (f_equal Host Hc) as Hh.
  pose proof (f_equal (fun c => PartSize (Config c)) Hc) as Hps.
  pose proof (f_equal (fun c => Parallel (Config c)) Hc) as Hpar.
  pose proof (f_equal TaskID Hc) as Htask. pose proof (f_equal Token Hc) as Htok.
  cbn in Hr, Hh, Hps, Hpar, Htask, Htok. clear Hc. subst.
  destruct pan2; [destruct l1, l2; exact I || (cbn in Hl; contradiction)|].
  destruct l1 as [i1|src1 w1|g1|k1 n1], l2 as [i2|src2 w2|g2|k2 n2];
    cbn in Hl; try contradiction.
  - destruct i1, i2; cbn in Hl; try contradiction; try (inversion Hl; subst).
    all: unfold step, main_step; cbn [panicked pc vars shared files v info config file part].
    all: destruct pc2; try exact I.
    all: unfold getUploadConfig, finishUpload, uploadRequest, request, read_turn;
      cbn [Config PartSize Parallel Token TaskID];
      pair_replies; settle.
  - destruct Hl as [-> ->]. unfold step, recv_step, receive.
    cbn [panicked pc shared]. settle.
  - subst. unfold step, eval_step. cbn [panicked pc shared]. settle.
  - destruct Hl as [-> Hl]. unfold step, work_step, uploader_pass, fragment_request.
    cbn [panicked pc vars shared files v info config file part Config PartSize Parallel Token TaskID].
    destruct (nth_error (uploaders sh2) k2) as [[[item|] [|]]|]; try exact I.
    cbv zeta. pair_replies; settle.
Qed.

Lemma run_same (lv : loopvar) (fl : Flags) (ls1 ls2 : list label) :
  Forall2 same_label ls1 ls2 ->
  forall s1 s2,
    forget_state s1 = forget_state s2 ->
    same_outcome (run lv fl ls1 s1) (run lv fl ls2 s2).
Proof.
  induction 1 as [|l1 l2 ls1 ls2 Hl _ IH]; intros s1 s2 Hs; cbn [run].
  - exact Hs.
  - pose proof (step_same lv fl l1 l2 s1 s2 Hs Hl) as H.
    destruct (step lv fl l1 s1) as [a|], (step lv fl l2 s2) as [b|]; cbn in H;
      try contradiction; [apply IH; exact H | exact I].
Qed.

(** C9: take two runs of the program on the same arguments whose inputs are
    alike step by step except that the negotiated configurations may differ
    in [RetryCount] and [RetryDurationSeconds].  Either both are impossible,
    or both lead to states that are the same but for those two fields: the
    same place in [main], the same remaining arguments, the same file
    offset and [part], the same counter, bar, uploaders and re-sends, and the same
    trace. *)
Theorem C9_retry_hints_ignored (lv : loopvar) (fl : Flags) (args : list string)
    (ls1 ls2 : list label) :
  Forall2 same_label ls1 ls2 ->
  match run lv fl ls1 (init args), run lv fl ls2 (init args) with
  | Some s1, Some s2 =>
      forget_state s1 = forget_state s2 /\
      pc s1 = pc s2 /\ files s1 = files s2 /\
      file (vars s1) = file (vars s2) /\ part (vars s1) = part (vars s2) /\
      shared s1 = shared s2 /\ trace s1 = trace s2 /\
      panicked s1 = panicked s2
  | None, None => True
  | _, _ => False
  end.
Proof.
  intros H. pose proof (run_same lv fl ls1 ls2 H (init args) (init args) eq_refl) as R.
  destruct (run lv fl ls1 (init args)) as [s1|], (run lv fl ls2 (init args)) as [s2|];
    cbn in R; try contradiction; [|exact I].
  split; [exact R|].
  split; [exact (f_equal pc R)|]. split; [exact (f_equal files R)|].
  split; [exact (f_equal (fun s => file (vars s)) R)|].
  split; [exact (f_equal (fun s => part (vars s)) R)|].
  split; [exact (f_equal shared R)|]. split; [exact (f_equal trace R)|].
  exact (f_equal panicked R).
Qed.

Lemma sample_runs_alike : Forall2 same_label sample_run sample_run_other_hints.
Proof.
  repeat constructor; cbn; try reflexivity; intros req; destruct req; reflexivity.
Qed.

Lemma C9_retry_hints_ignored_witness :
  exists s1 s2,
    run PerLoop sample_flags sample_run (init ["dir/a"%string]) = Some s1 /\
    run PerLoop sample_flags sample_run_other_hints (init ["dir/a"%string]) = Some s2 /\
    RetryCount (Config (config (vars s1))) = 7 /\
    RetryCount (Config (config (vars s2))) = 100 /\
    trace s1 = trace s2 /\ shared s1 = shared s2.
Proof.
  pose proof (C9_retry_hints_ignored PerLoop sample_flags ["dir/a"%string]
                sample_run sample_run_other_hints sample_runs_alike) as H.
  destruct (run PerLoop sample_flags sample_run (init ["dir/a"%string])) as [s1|] eqn:E1;
    [|vm_compute in E1; discriminate E1].
  destruct (run PerLoop sample_flags sample_run_other_hints (init ["dir/a"%string])) as [s2|] eqn:E2;
    [|vm_compute in E2; discriminate E2].
  exists s1, s2. destruct H as (_ & _ & _ & _ & _ & Hsh & Htr & _).
  vm_compute in E1. vm_compute in E2.
  injection E1 as <-. injection E2 as <-.
  repeat split; reflexivity || assumption.
Defined.

(** ** The earlier stage *)

(** The six-byte file under a part size of 4: the items are numbered 1 and
    2, and the buffer they share holds, in the end, the last two bytes of
    the file followed by two bytes of the first read. *)
Lemma MainGo_reader_shares_buffer :
  MainGo.fragments tiny_config six_bytes =
    MainGo.ReadDone [MainGo.mkPart 1; MainGo.mkPart 2] [x05; x06; x03; x04] 3.
Proof. reflexivity. Qed.

(** Whatever the response says, the item is counted as done. *)
Lemma MainGo_uploader_acks_any_response
    (tok : string) (net : MainGo.fragment_post -> http_reply) (buf : bytes)
    (item : MainGo.UploadPart) (st : Z) (b : Body) :
  net (MainGo.Post tok (MainGo.count item) buf) = Response st (inr b) ->
  forall dbg, MainGo.uploader_pass dbg tok net buf item = Acked.
Proof.
  intros H dbg. unfold MainGo.uploader_pass. rewrite H. destruct dbg; reflexivity.
Qed.

(** The two finalize calls are made in order, the second only if the first
    came back without error. *)
Lemma MainGo_finishUpload_calls (net : network) (task filename : string) :
  fst (MainGo.finishUpload net task filename) = [Net (FinishReq task) false] /\
  snd (MainGo.finishUpload net task filename) <> None
  \/
  exists ok,
    fst (MainGo.finishUpload net task filename) =
      [Net (FinishReq task) true; Net (CreateVideoReq task filename) ok] /\
    (snd (MainGo.finishUpload net task filename) = None <-> ok = true).
Proof.
  unfold MainGo.finishUpload, request.
  destruct (net (FinishReq task)) as [e|e|st [e|b]];
    try (left; split; [reflexivity|discriminate]).
  right.
  destruct (net (CreateVideoReq task filename)) as [e|e|st2 [e|b2]];
    eexists; (split; [reflexivity|]); cbn; split; congruence.
Qed.

(** * More of the program *)

(** ** Induction on the reachable states *)

Lemma reachable_ind (lv : loopvar) (fl : Flags) (args : list string)
    (P : state -> Prop) :
  P (init args) ->
  (forall l s s', invariant lv s -> P s -> step lv fl l s = Some s' -> P s') ->
  forall s, reachable lv fl args s -> P s.
Proof.
  intros H0 Hstep s [ls Hrun].
  assert (G : forall ls s0 s1, invariant lv s0 -> P s0 ->
                               run lv fl ls s0 = Some s1 -> P s1).
  { clear ls s Hrun. induction ls as [|l ls IH]; intros s0 s1 I0 HP Hr; cbn in Hr.
    - inversion Hr; subst; exact HP.
    - destruct (step lv fl l s0) as [s'|] eqn:E; [|discriminate].
      eapply (IH s'); [eapply invariant_step; eassumption | eapply Hstep; eassumption | exact Hr]. }
  eapply G; [apply invariant_init | exact H0 | exact Hrun].
Qed.

(** ** The arguments are taken in order *)

Lemma announced_step (lv : loopvar) (fl : Flags) (l : label) (s s' : state) :
  step lv fl l s = Some s' ->
  rev (announced (trace s')) ++ files s' = rev (announced (trace s)) ++ files s.
Proof.
  intros H.
  step_cases H; unstate; cbn [announced]; try reflexivity.
  all: try match goal with E : files _ = _ |- _ => rewrite E end.
  all: cbn [rev]; rewrite <- ?app_assoc; reflexivity.
Qed.
Lemma staged_init (args : list string) : staged (init args).
Proof.
  constructor; cbn.
  - auto.
  - intros l H. discriminate.
  - intros H. discriminate.
  - intros req ok [].
Qed.

Ltac stage_simpl :=
  unfold stages_so_far, path_in_hand, enqueued, request_of, all_stages in *;
  unstate;
  cbn [segment filter is_stage announced rev app stages_at firstn sends
       existsb after_open is_fragment is_finalize orb In
       v info config file part] in *.

Lemma staged_step_shape (lv : loopvar) (fl : Flags) (l : label) (s s' : state) :
  invariant lv s -> staged s -> step lv fl l s = Some s' ->
  In (stages_so_far s') (stage_shapes (path_in_hand s') (vars s')).
Proof.
  intros I [Hsh Hpc Haf Hfr] H. unfold stage_shapes in *.
  step_cases H; pc_from_pool I; stage_simpl; try rewrite Hpc0 in *; stage_simpl.
  all: try exact Hsh.
  all: try solve [repeat (first [left; reflexivity | right])].
  all: try (destruct (Hpc _ eq_refl) as [Hst Hv]; rewrite ?Hst, ?Hv; cbn [rev app In];
            solve [repeat (first [left; reflexivity | right])]).
Qed.

Lemma staged_step_pc (lv : loopvar) (fl : Flags) (l : label) (s s' : state) :
  invariant lv s -> staged s -> step lv fl l s = Some s' ->
  forall l', stages_at (pc s') (path_in_hand s') (vars s') = Some l' ->
             stages_so_far s' = l' /\ v (vars s') = path_in_hand s'.
Proof.
  intros I [Hsh Hpc Haf Hfr] H.
  step_cases H; pc_from_pool I; stage_simpl; try rewrite Hpc0 in *; stage_simpl.
  all: try exact Hpc.
  all: try (intros l' Hl'; discriminate Hl').
  all: try (intros l' Hl'; inversion Hl'; subst l'; clear Hl';
            destruct (Hpc _ eq_refl) as [Hst Hv]; rewrite ?Hst, ?Hv; cbn [rev app];
            split; reflexivity).
  all: try (intros l' Hl'; inversion Hl'; subst l'; split; reflexivity).
Qed.

Lemma stages_at_open (c : control) (p : string) (x : locals) :
  file_open c = true -> stages_at c p x = Some (all_stages p x).
Proof. destruct c; cbn; intros; try discriminate; reflexivity. Qed.

Lemma staged_step_after (lv : loopvar) (fl : Flags) (l : label) (s s' : state) :
  invariant lv s -> staged s -> step lv fl l s = Some s' ->
  existsb after_open (segment (trace s')) = true ->
  stages_so_far s' = all_stages (path_in_hand s') (vars s').
Proof.
  intros I [Hsh Hpc Haf Hfr] H.
  step_cases H; pc_from_pool I; stage_simpl; try rewrite Hpc0 in *; stage_simpl.
  all: try exact Haf.
  all: try (intros; discriminate).
  all: try (intros _; destruct (Hpc _ eq_refl) as [Hst Hv]; rewrite ?Hst, ?Hv;
            reflexivity).
  all: try (intros Hex; specialize (Haf Hex); destruct (Hpc _ eq_refl) as [Hst _];
            rewrite Hst in Haf; discriminate Haf).
  all: try (intros _; destruct (Hpc _ (stages_at_open _ _ _ Hopen)) as [Hst _];
            exact Hst).
Qed.

Lemma held_item_enqueued (lv : loopvar) (s : state) (w : nat) (item : UploadPart)
    (b : bool) :
  invariant lv s ->
  nth_error (uploaders (shared s)) w = Some (mkUploader (Some item) b) ->
  In item (enqueued s).
Proof.
  intros I Hw. apply (inv_known lv s I). right. right.
  unfold pointed. apply in_flat_map. eexists. split.
  - eapply nth_error_In. exact Hw.
  - cbn. auto.
Qed.

Lemma fragment_after_open (tr : list event) (req : NetRequest) (ok : bool) :
  In (Net req ok) tr -> is_fragment req = true -> existsb after_open tr = true.
Proof.
  intros Hin Hf. apply existsb_exists. exists (Net req ok). split; [exact Hin|].
  cbn. rewrite Hf. reflexivity.
Qed.

Lemma staged_step_fragment (lv : loopvar) (fl : Flags) (l : label) (s s' : state) :
  invariant lv s -> staged s -> step lv fl l s = Some s' ->
  forall req ok,
    In (Net req ok) (segment (trace s')) -> is_fragment req = true ->
    exists item, In item (enqueued s') /\ req = request_of s' item.
Proof.
  intros I [Hsh Hpc Haf Hfr] H.
  assert (Hheld := held_item_enqueued lv s).
  step_cases H; pc_from_pool I; stage_simpl; try rewrite Hpc0 in *; stage_simpl.
  all: try exact Hfr.
  all: intros req ok Hin Hf.
  all: repeat (destruct Hin as [Hin|Hin];
               [inversion Hin; subst; try discriminate Hf|]).
  all: try contradiction.
  all: try (apply (Hfr req ok Hin Hf)).
  all: try (exfalso; pose proof (Haf (fragment_after_open _ _ _ Hin Hf)) as Hall;
            destruct (Hpc _ eq_refl) as [Hst _]; rewrite Hst in Hall;
            discriminate Hall).
  all: try (destruct (Hfr req ok Hin Hf) as (it & Hit & ->); exists it;
            split; [apply in_or_app; left; exact Hit | reflexivity]).
  all: try (eexists; split; [eapply Hheld; [exact I | exact Hw] | reflexivity]).
Qed.

Lemma staged_step (lv : loopvar) (fl : Flags) (l : label) (s s' : state) :
  invariant lv s -> staged s -> step lv fl l s = Some s' -> staged s'.
Proof.
  intros I S H. constructor.
  - eapply staged_step_shape; eassumption.
  - eapply staged_step_pc; eassumption.
  - eapply staged_step_after; eassumption.
  - eapply staged_step_fragment; eassumption.
Qed.

Lemma staged_reachable (lv : loopvar) (fl : Flags) (args : list string) (s : state) :
  reachable lv fl args s -> staged s.
Proof.
  apply reachable_ind; [apply staged_init|].
  intros l s0 s1 I S H. eapply staged_step; eassumption.
Qed.

(** X1: the files are taken in the order of the command line, each once: at
    any time the paths announced so far (the ["Local: ..."] lines), followed
    by the arguments still to come, are the arguments. *)
Theorem X1_arguments_taken_in_order
    (lv : loopvar) (fl : Flags) (args : list string) (s : state) :
  reachable lv fl args s ->
  rev (announced (trace s)) ++ files s = args.
Proof.
  revert s. apply reachable_ind; [reflexivity|].
  intros l s0 s1 _ IH H. rewrite (announced_step lv fl l s0 s1 H). exact IH.
Qed.

Lemma X1_arguments_taken_in_order_witness :
  rev (announced (trace finished_state)) ++ files finished_state = ["dir/a"%string].
Proof.
  apply (X1_arguments_taken_in_order PerLoop sample_flags ["dir/a"%string]
           finished_state finished_state_reachable).
Defined.

(** X2: what [main] does to a file before the first read comes in one
    order, each step at most once and each only after the one before
    succeeded: [os.Stat] of the announced path, the configuration request
    with the name and size [os.Stat] gave, the resume request with the
    negotiated token, [os.Open] of the same path.  Whenever an uploader has
    been started, a read made, a fragment sent, posted or acknowledged, or a
    finalize call made for the file, all four are there, with success. *)
Theorem X2_stat_negotiate_resume_open_in_order
    (lv : loopvar) (fl : Flags) (args : list string) (s : state) :
  reachable lv fl args s ->
  In (stages_so_far s) (stage_shapes (path_in_hand s) (vars s)) /\
  (existsb after_open (segment (trace s)) = true ->
   stages_so_far s = all_stages (path_in_hand s) (vars s)).
Proof.
  intros R. destruct (staged_reachable lv fl args s R) as [H1 _ H3 _]. auto.
Qed.

Lemma X2_stat_negotiate_resume_open_in_order_witness :
  stages_so_far finished_state =
    [ Stat "dir/a"%string; Net (ConfigReq "a"%string 6) true;
      Net (ResumeReq "tok"%string) true; Open "dir/a"%string ].
Proof.
  apply (X2_stat_negotiate_resume_open_in_order PerLoop sample_flags ["dir/a"%string]
           finished_state finished_state_reachable).
  reflexivity.
Defined.

(** X3: every fragment request made for a file is the request of a fragment
    that [main] has enqueued for it: it carries the negotiated token, the
    fragment's index and bytes, the range that begins at index times
    (part size - 1) and has the fragment's length, and the size [os.Stat]
    gave. *)
Theorem X3_fragment_requests_are_of_enqueued_fragments
    (lv : loopvar) (fl : Flags) (args : list string) (s : state)
    (req : NetRequest) (ok : bool) :
  reachable lv fl args s ->
  In (Net req ok) (segment (trace s)) -> is_fragment req = true ->
  exists item,
    In item (enqueued s) /\
    req = FragmentReq (Token (config (vars s))) (count item)
            (count item * wrap_int (PartSize (Config (config (vars s))) - 1))
            (count item * wrap_int (PartSize (Config (config (vars s))) - 1)
             + len (content item) - 1)
            (FileSize (info (vars s))) (content item).
Proof.
  intros R Hin Hf. destruct (staged_reachable lv fl args s R) as [_ _ _ H4].
  exact (H4 req ok Hin Hf).
Qed.

Lemma X3_fragment_requests_are_of_enqueued_fragments_witness :
  exists item,
    In item (enqueued racy_state) /\
    FragmentReq "tok"%string 1 3 5 6 [x04; x05; x06] =
      FragmentReq (Token (config (vars racy_state))) (count item)
        (count item * wrap_int (PartSize (Config (config (vars racy_state))) - 1))
        (count item * wrap_int (PartSize (Config (config (vars racy_state))) - 1)
         + len (content item) - 1)
        (FileSize (info (vars racy_state))) (content item).
Proof.
  apply (X3_fragment_requests_are_of_enqueued_fragments PerLoop sample_flags
           ["dir/a"%string] racy_state (FragmentReq "tok"%string 1 3 5 6 [x04; x05; x06])
           true).
  - exists racy_run. vm_compute. reflexivity.
  - vm_compute. tauto.
  - reflexivity.
Defined.





(** ** Goroutines and the counter *)

(** X4: while a file is dispatched there are exactly [Parallel] uploaders,
    and the counter is the number of fragments that are with [main] in its
    send, with an uploader inside a pass or with a re-send goroutine; it is
    never negative.  Outside that phase, and so when [wg.Wait()] has
    returned and the channel is closed, the counter is zero, no uploader is
    left and no re-send is pending: nothing can send on the closed
    channel. *)
Theorem X4_goroutines_and_counter
    (lv : loopvar) (fl : Flags) (args : list string) (s : state) :
  reachable lv fl args s ->
  0 <= wg (shared s) /\
  wg (shared s) =
    Z.of_nat (length (sending (pc s))
              + length (filter working (uploaders (shared s)))
              + length (resends (shared s))) /\
  (dispatching (pc s) = true ->
   length (uploaders (shared s)) = Z.to_nat (Parallel (Config (config (vars s))))) /\
  (dispatching (pc s) = false ->
   wg (shared s) = 0 /\ uploaders (shared s) = [] /\ resends (shared s) = []).
Proof.
  intros R. pose proof (invariant_reachable _ _ _ _ R) as I.
  pose proof (inv_counter lv s I) as Hc. unfold under_way in Hc.
  split; [lia|]. split; [exact Hc|]. split; [exact (inv_workers lv s I)|].
  intros Hd. destruct (inv_quiet lv s I Hd) as [Hu Hr].
  rewrite Hu, Hr in Hc. split; [|auto].
  destruct (pc s); try discriminate Hd; cbn in Hc; exact Hc.
Qed.

Lemma X4_goroutines_and_counter_witness :
  wg (shared contended_state) = 2 /\
  length (uploaders (shared contended_state)) = 1%nat.
Proof.
  destruct (X4_goroutines_and_counter PerLoop sample_flags ["dir/a"%string]
              contended_state) as (_ & H & Hn & _).
  - exists contended_prefix. vm_compute. reflexivity.
  - split; [exact H | exact (Hn eq_refl)].
Defined.

(** X5: an upload that the remote confirms is acknowledged, whatever else
    is going on: the progress grows by the fragment's length and the
    counter goes down by one, without going below zero, so that
    [wg.Done()] never panics. *)
Theorem X5_confirmed_upload_is_acknowledged
    (lv : loopvar) (fl : Flags) (args : list string) (s : state)
    (w : nat) (item : UploadPart) (net : network) :
  reachable lv fl args s -> panicked s = false ->
  nth_error (uploaders (shared s)) w = Some (mkUploader (Some item) true) ->
  confirmed item (net (request_of s item)) ->
  exists s',
    step lv fl (Work w net) s = Some s' /\
    panicked s' = false /\ pc s' = pc s /\
    trace s' = Ack item :: Net (request_of s item) true :: trace s /\
    wg (shared s') = wg (shared s) - 1 /\ 0 <= wg (shared s') /\
    bar (shared s') = bar (shared s) + len (content item) /\
    nth_error (uploaders (shared s')) w = Some (mkUploader (Some item) false).
Proof.
  intros R Hp Hn (st & b & res & Er & Eb & E1 & E2).
  pose proof (invariant_reachable _ _ _ _ R) as I.
  pose proof (inv_counter lv s I) as Hc. unfold under_way in Hc.
  pose proof (working_counted _ _ _ Hn eq_refl) as Hw.
  assert (Hpos : (wg (shared s) - 1 <? 0) = false) by (apply Z.ltb_ge; lia).
  unfold step. rewrite Hp. unfold work_step. rewrite Hn.
  unfold uploader_pass. cbv zeta. fold (request_of s item).
  rewrite Er, Eb, E1, E2, !Z.eqb_refl. cbn [negb orb]. rewrite Hpos.
  eexists. split; [reflexivity|].
  cbn [panicked pc trace shared wg bar uploaders log with_shared rev app].
  repeat (split; [first [reflexivity | exact Hp | lia]|]).
  eapply set_nth_lookup. exact Hn.
Qed.

Lemma X5_confirmed_upload_is_acknowledged_witness :
  exists s',
    step PerLoop sample_flags (Work 0 (good_server tiny_config)) sample_state = Some s' /\
    wg (shared s') = 0.
Proof.
  destruct (X5_confirmed_upload_is_acknowledged PerLoop sample_flags ["dir/a"%string]
              sample_state 0 first_half (good_server tiny_config))
    as (s' & H & _ & _ & _ & Hwg & _).
  - exists sample_prefix. vm_compute. reflexivity.
  - reflexivity.
  - reflexivity.
  - exists 200, (mkBody (inl "not a config"%string)
                   (inr (mkPartResult 1 ""%string 3))), (mkPartResult 1 ""%string 3).
    repeat split.
  - exists s'. split; [exact H|]. rewrite Hwg. reflexivity.
Defined.

(** ** The byte ranges of the fragments *)

Lemma chunks_at {A} (S : nat) (l : list (list A)) :
  (forall i x, nth_error l i = Some x -> (i + 1 < length l)%nat -> length x = S) ->
  forall i x,
    nth_error l i = Some x ->
    x = firstn (length x) (skipn (i * S) (concat l)) /\
    (i * S + length x <= length (concat l))%nat /\
    ((i + 1 = length l)%nat -> (i * S + length x = length (concat l))%nat).
Proof.
  induction l as [|a l IH]; intros Hfull i x Hi; [destruct i; discriminate|].
  destruct i as [|i]; cbn [nth_error concat] in *.
  - inversion Hi; subst a. cbn [Nat.mul skipn].
    rewrite firstn_app, firstn_all, Nat.sub_diag, length_app. cbn [firstn].
    rewrite app_nil_r. split; [reflexivity|]. split; [lia|].
    intros Hl. cbn [length] in Hl. destruct l; [cbn; lia | cbn in Hl; lia].
  - assert (Hlt : (i < length l)%nat) by (apply nth_error_Some; congruence).
    assert (Ha : length a = S).
    { apply (Hfull 0%nat a eq_refl). cbn [length]. lia. }
    destruct (IH (fun j y Hj Hlen => Hfull (Datatypes.S j) y Hj
                                       ltac:(cbn [length]; lia)) i x Hi)
      as (H1 & H2 & H3).
    replace (Datatypes.S i * S)%nat with (length a + i * S)%nat by lia.
    rewrite skipn_app, skipn_all2 by lia.
    replace (length a + i * S - length a)%nat with (i * S)%nat by lia.
    cbn [app]. rewrite length_app. split; [exact H1|]. split; [lia|].
    intros Hl. cbn [length] in Hl. lia.
Qed.

(** X6: the [Content-Range] of the fragments of a file.  Let the negotiated
    part size be at least 2 and let the size [os.Stat] gave be the file's
    length.  The request for the [i]-th fragment the reader produces names
    the range that begins at [i * (PartSize - 1)] and has the fragment's
    length, and its body is the bytes of the file in that range.  Every
    fragment but the last has [PartSize - 1] bytes, so each range begins
    right after the one before; the last range ends with the file. *)
Theorem X6_content_ranges_tile_the_file
    (c : UploadConfigResp) (f : bytes) (tok : string) :
  2 <= PartSize (Config c) < 2 ^ 63 ->
  exists sent p,
    fragments c f = ReadDone sent p /\
    forall i item,
      nth_error sent i = Some item ->
      let first := Z.of_nat i * (PartSize (Config c) - 1) in
      fragment_request tok (wrap_int (PartSize (Config c) - 1)) (len f) item =
        FragmentReq tok (Z.of_nat i) first (first + len (content item) - 1) (len f)
          (content item) /\
      content item =
        firstn (length (content item)) (skipn (Z.to_nat first) f) /\
      first + len (content item) <= len f /\
      ((i + 1 < length sent)%nat -> len (content item) = PartSize (Config c) - 1) /\
      ((i + 1 = length sent)%nat -> first + len (content item) = len f).
Proof.
  intros V.
  destruct (read_loop_healthy c V (S (length f)) (os_Open f) (-1))
    as (sent & Hrun & Hcnt & Hfull & Hsz & Hcat); [cbn; lia|].
  change (unread (os_Open f)) with f in Hcat.
  exists sent, (-1 + 1 + Z.of_nat (length sent)). split; [exact Hrun|].
  intros i item Hi first.
  assert (Hchunks := chunks_at (Z.to_nat (PartSize (Config c) - 1)) (map content sent)).
  rewrite length_map in Hchunks.
  destruct (Hchunks ltac:(
              intros j x Hj Hlen; rewrite nth_error_map in Hj;
              destruct (nth_error sent j) as [it|] eqn:Ej; [|discriminate];
              inversion Hj; subst x;
              pose proof (Hfull j it Ej Hlen) as Hl; unfold len in Hl; lia)
              i (content item)) as (H1 & H2 & H3).
  { rewrite nth_error_map, Hi. reflexivity. }
  rewrite Hcat in H1, H2, H3.
  assert (Hfirst : Z.to_nat first = (i * Z.to_nat (PartSize (Config c) - 1))%nat).
  { subst first. rewrite Z2Nat.inj_mul, Nat2Z.id by lia. reflexivity. }
  assert (Hfz : first = Z.of_nat (i * Z.to_nat (PartSize (Config c) - 1))) by lia.
  split.
  - unfold fragment_request. rewrite (Hcnt i item Hi).
    rewrite wrap_int_small by lia.
    replace (-1 + 1 + Z.of_nat i) with (Z.of_nat i) by lia. reflexivity.
  - split; [rewrite Hfirst; exact H1|].
    unfold len. split; [lia|]. split.
    + intros Hlen. pose proof (Hfull i item Hi Hlen) as Hl. unfold len in Hl. exact Hl.
    + intros Hlen. specialize (H3 Hlen). lia.
Qed.

Lemma X6_content_ranges_tile_the_file_witness :
  exists sent p,
    fragments tiny_config six_bytes = ReadDone sent p /\
    forall i item,
      nth_error sent i = Some item ->
      fragment_request "tok"%string (wrap_int 3) 6 item =
        FragmentReq "tok"%string (Z.of_nat i) (Z.of_nat i * 3)
          (Z.of_nat i * 3 + len (content item) - 1) 6 (content item).
Proof.
  destruct (X6_content_ranges_tile_the_file tiny_config six_bytes "tok"%string)
    as (sent & p & H & Hall).
  - cbn. lia.
  - exists sent, p. split; [exact H|].
    intros i item Hi. exact (proj1 (Hall i item Hi)).
Defined.

(** ** Configurations at the edge *)

Lemma opening_step (lv : loopvar) (fl : Flags) (s : state) (contents : bytes) :
  panicked s = false -> pc s = Opening ->
  step lv fl (Main (OpenResult (inr contents))) s =
    Some (log [BarStart (FileSize (info (vars s))); Open (v (vars s));
               Go (Z.to_nat (Parallel (Config (config (vars s)))))]
            (goto Reading
               (with_shared
                  (mkPool 0 0
                     (repeat (mkUploader None false)
                        (Z.to_nat (Parallel (Config (config (vars s)))))) [])
                  (with_vars
                     (mkLocals (v (vars s)) (info (vars s)) (config (vars s))
                        (os_Open contents) (-1)) s)))).
Proof.
  intros Hp Hpc. unfold step. rewrite Hp. unfold main_step. rewrite Hpc. reflexivity.
Qed.

Lemma read_turn_empty_buffer (c : UploadConfigResp) (f : File) (p : Z)
    (fault : option error) :
  PartSize (Config c) = 1 -> read_turn c f p fault = TurnBreak 0 (p + 1).
Proof.
  intros HP. unfold read_turn. rewrite HP.
  change (wrap_int (1 - 1)) with 0. change (make 0) with (Some (@nil byte)).
  destruct fault; reflexivity.
Qed.

(** X7: a negotiated part size of 1 makes the read buffer empty.  Whatever
    the file holds, the first read returns nothing, the loop is left with
    no fragment enqueued, the wait is over at once and the handshake is
    made with a fragment count of 0: the file is reported as uploaded
    without a byte of it having been sent. *)
Theorem X7_part_size_one_sends_nothing
    (lv : loopvar) (fl : Flags) (s : state) (contents : bytes) (fault : option error) :
  panicked s = false -> pc s = Opening ->
  PartSize (Config (config (vars s))) = 1 ->
  exists s3,
    run lv fl [Main (OpenResult (inr contents)); Main (ReadResult fault); Main Tick] s
      = Some s3 /\
    pc s3 = Finishing /\ part (vars s3) = 0 /\ wg (shared s3) = 0 /\
    trace s3 =
      [ BarFinish 0; FileRead 0;
        Go (Z.to_nat (Parallel (Config (config (vars s)))));
        Open (v (vars s)); BarStart (FileSize (info (vars s))) ] ++ trace s /\
    forall net,
    exists s4 ok,
      step lv fl (Main (Network net)) s3 = Some s4 /\ pc s4 = NextFile /\
      In (Net (CompleteReq 0 (Token (config (vars s)))) ok) (trace s4).
Proof.
  intros Hp Hpc HP.
  eexists. split.
  - cbn [run]. rewrite (opening_step lv fl s contents Hp Hpc).
    unfold step at 1. cbn [panicked log goto with_shared with_vars pc].
    rewrite Hp. unfold main_step at 1.
    cbn [pc log goto with_shared with_vars vars config file part].
    rewrite (read_turn_empty_buffer _ _ _ _ HP). change (-1 + 1) with 0.
    unfold step at 1. cbn [panicked log goto with_shared with_vars pc].
    rewrite Hp. unfold main_step.
    cbn [pc log goto with_shared with_vars shared wg bar uploaders resends].
    rewrite filter_working_fresh. cbn [Z.eqb]. reflexivity.
  - cbn [pc vars shared part wg trace log goto with_shared with_vars rev app].
    repeat (split; [reflexivity|]).
    intros net.
    match goal with |- exists s4 ok, step _ _ _ ?s3 = _ /\ _ =>
      destruct (finishing_calls_complete lv fl s3 net) as (s4 & ok & H1 & H2 & H3);
        [exact Hp | reflexivity | exists s4, ok; auto]
    end.
Qed.

Lemma X7_part_size_one_sends_nothing_witness :
  exists s3,
    run PerLoop sample_flags
      [Main (OpenResult (inr six_bytes)); Main (ReadResult None); Main Tick]
      opening_one_byte_parts = Some s3 /\
    pc s3 = Finishing /\ part (vars s3) = 0 /\
    forall net,
    exists s4 ok,
      step PerLoop sample_flags (Main (Network net)) s3 = Some s4 /\
      In (Net (CompleteReq 0 "tok"%string) ok) (trace s4).
Proof.
  destruct (X7_part_size_one_sends_nothing PerLoop sample_flags opening_one_byte_parts
              six_bytes None eq_refl eq_refl eq_refl)
    as (s3 & Hrun & Hpc & Hpart & _ & _ & Hfin).
  exists s3. repeat (split; [assumption|]).
  intros net. destruct (Hfin net) as (s4 & ok & H1 & _ & H2).
  exists s4, ok. split; [exact H1 | exact H2].
Defined.

Lemma panicked_stuck (lv : loopvar) (fl : Flags) (l : label) (s : state) :
  panicked s = true -> step lv fl l s = None.
Proof. intros H. unfold step. rewrite H. reflexivity. Qed.

(** X8: a negotiated part size of 0 or less makes the length of the read
    buffer negative.  The file is opened and the uploaders are started, and
    the first turn of the read loop panics in [make], whatever the file
    holds: nothing is read or sent, no further step is possible, and the
    files that come after are never looked at. *)
Theorem X8_part_size_below_one_panics
    (lv : loopvar) (fl : Flags) (s : state) (contents : bytes) (fault : option error) :
  panicked s = false -> pc s = Opening ->
  - 2 ^ 63 < PartSize (Config (config (vars s))) <= 0 ->
  exists s2,
    run lv fl [Main (OpenResult (inr contents)); Main (ReadResult fault)] s = Some s2 /\
    panicked s2 = true /\ files s2 = files s /\
    trace s2 =
      [ Go (Z.to_nat (Parallel (Config (config (vars s)))));
        Open (v (vars s)); BarStart (FileSize (info (vars s))) ] ++ trace s /\
    forall l, step lv fl l s2 = None.
Proof.
  intros Hp Hpc HP.
  eexists. split.
  - cbn [run]. rewrite (opening_step lv fl s contents Hp Hpc).
    unfold step at 1. cbn [panicked log goto with_shared with_vars pc].
    rewrite Hp. unfold main_step at 1.
    cbn [pc log goto with_shared with_vars vars config file part].
    unfold read_turn, make. rewrite wrap_int_small by lia.
    destruct (PartSize (Config (config (vars s))) - 1 <? 0) eqn:E;
      [|apply Z.ltb_ge in E; lia].
    reflexivity.
  - cbn [panicked files trace panic log goto with_shared with_vars rev app].
    repeat (split; [reflexivity|]).
    intros l. apply panicked_stuck. reflexivity.
Qed.

Lemma X8_part_size_below_one_panics_witness :
  exists s2,
    run PerLoop sample_flags
      [Main (OpenResult (inr six_bytes)); Main (ReadResult None)] opening_refused
      = Some s2 /\
    panicked s2 = true /\ files s2 = ["dir/b"%string].
Proof.
  destruct (X8_part_size_below_one_panics PerLoop sample_flags opening_refused
              six_bytes None eq_refl eq_refl) as (s2 & H1 & H2 & H3 & _).
  - cbn. lia.
  - exists s2. auto.
Defined.

(** X9: a negotiated [parallel] of 0 or less starts no uploader.  For a
    file that is not empty (and a part size of at least 2) [main] reads the
    first fragment, counts it in and blocks in the send on the channel,
    which nobody receives from: no step of the program is possible any
    more. *)
Theorem X9_no_uploader_blocks_main
    (lv : loopvar) (fl : Flags) (s : state) (b : byte) (rest : bytes) :
  panicked s = false -> pc s = Opening ->
  Parallel (Config (config (vars s))) <= 0 ->
  2 <= PartSize (Config (config (vars s))) < 2 ^ 63 ->
  exists s2 item,
    run lv fl [Main (OpenResult (inr (b :: rest))); Main (ReadResult None)] s = Some s2 /\
    pc s2 = Sending item /\ count item = 0 /\
    content item =
      firstn (Z.to_nat (PartSize (Config (config (vars s))) - 1)) (b :: rest) /\
    wg (shared s2) = 1 /\ uploaders (shared s2) = [] /\ panicked s2 = false /\
    forall l, step lv fl l s2 = None.
Proof.
  intros Hp Hpc Hpar HP.
  eexists. eexists. split.
  - cbn [run]. rewrite opening_step by assumption.
    unfold step at 1. cbn [panicked log goto with_shared with_vars pc].
    rewrite Hp. unfold main_step at 1.
    cbn [pc log goto with_shared with_vars vars config file part].
    rewrite (read_turn_healthy _ _ _ HP).
    change (unread (os_Open (b :: rest))) with (b :: rest). cbv zeta.
    reflexivity.
  - cbn [pc panicked shared wg uploaders log goto with_shared with_vars count content].
    replace (Z.to_nat (Parallel (Config (config (vars s))))) with 0%nat by lia.
    cbn [repeat]. repeat (split; [first [reflexivity | exact Hp]|]).
    intros l. unfold step.
    cbn [pc panicked shared wg uploaders resends log goto with_shared with_vars].
    rewrite Hp.
    destruct l as [i|src w|g|w net].
    + destruct i; reflexivity.
    + unfold recv_step, receive.
      cbn [pc panicked shared wg uploaders resends log goto with_shared with_vars].
      destruct src as [g|]; [destruct g|destruct w]; reflexivity.
    + unfold eval_step.
      cbn [pc panicked shared wg uploaders resends log goto with_shared with_vars].
      destruct g; reflexivity.
    + unfold work_step.
      cbn [pc panicked shared wg uploaders resends log goto with_shared with_vars].
      destruct w; reflexivity.
Qed.

Lemma X9_no_uploader_blocks_main_witness :
  exists s2 item,
    run PerLoop sample_flags
      [Main (OpenResult (inr six_bytes)); Main (ReadResult None)] opening_no_uploaders
      = Some s2 /\
    pc s2 = Sending item /\
    forall l, step PerLoop sample_flags l s2 = None.
Proof.
  destruct (X9_no_uploader_blocks_main PerLoop sample_flags opening_no_uploaders
              x01 [x02; x03; x04; x05; x06] eq_refl eq_refl)
    as (s2 & item & H1 & H2 & _ & _ & _ & _ & _ & H3).
  - cbn. lia.
  - cbn. lia.
  - exists s2, item. auto.
Defined.

(** ** Verbose mode *)

Lemma step_debug (lv : loopvar) (fl : Flags) (l : label) (s : state) :
  readable_label l ->
  step lv (with_debug true fl) l s = step lv (with_debug false fl) l s.
Proof.
  intros Hr. unfold step. destruct (panicked s); [reflexivity|].
  destruct l as [i|src w|g|w net]; try reflexivity.
  unfold main_step. cbn [token uid debug with_debug].
  destruct (pc s); destruct i; try reflexivity; cbn in Hr.
  - unfold uploadRequest.
    destruct (net (ResumeReq _)) as [e|e|st [e|b]] eqn:E; try reflexivity.
    exfalso. eapply Hr; [|exact E]. reflexivity.
  - unfold finishUpload, uploadRequest.
    destruct (net (CompleteReq _ _)) as [e|e|st [e|b]] eqn:E; try reflexivity.
    exfalso. eapply Hr; [|exact E]. reflexivity.
Qed.

(** X10: verbose mode changes what the program does in one case only.  In
    a run in which no response to the resume request or to the completion
    call has a body that cannot be read, the program behaves the same with
    and without [-verbose].  When such a body cannot be read, the resume
    request counts as failed in verbose mode (the error is printed and the
    file is left) and as done otherwise (the file is opened). *)
Theorem X10_verbose_changes_only_unreadable_bodies
    (lv : loopvar) (fl : Flags) (ls : list label) :
  (Forall readable_label ls ->
   forall s, run lv (with_debug true fl) ls s = run lv (with_debug false fl) ls s) /\
  (forall s net st e,
      panicked s = false -> pc s = Resume ->
      net (ResumeReq (Token (config (vars s)))) = Response st (inl e) ->
      step lv (with_debug true fl) (Main (Network net)) s =
        Some (log [Net (ResumeReq (Token (config (vars s)))) false;
                   Stdout (UploadRequestError e)] (goto NextFile s)) /\
      step lv (with_debug false fl) (Main (Network net)) s =
        Some (log [Net (ResumeReq (Token (config (vars s)))) true] (goto Opening s))).
Proof.
  split.
  - induction 1 as [|l ls Hl _ IH]; intros s; cbn [run]; [reflexivity|].
    rewrite (step_debug lv fl l s Hl).
    destruct (step lv (with_debug false fl) l s); [apply IH | reflexivity].
  - intros s net st e Hp Hpc E. unfold step. rewrite Hp. unfold main_step.
    rewrite Hpc. unfold uploadRequest. rewrite E. split; reflexivity.
Qed.

Lemma sample_run_readable : Forall readable_label sample_run.
Proof.
  repeat constructor; intros req st e Hreq; destruct req; discriminate.
Qed.

Lemma X10_verbose_changes_only_unreadable_bodies_witness :
  run PerLoop (with_debug true sample_flags) sample_run (init ["dir/a"%string]) =
  run PerLoop (with_debug false sample_flags) sample_run (init ["dir/a"%string]).
Proof.
  destruct (X10_verbose_changes_only_unreadable_bodies PerLoop sample_flags sample_run)
    as [H _].
  exact (H sample_run_readable (init ["dir/a"%string])).
Defined.

(** ** What is not read of a response *)

Ltac pair_blank_bodies :=
  repeat match goal with
         | H : match as_config ?b1 with _ => _ end
               = match as_config ?b2 with _ => _ end |- _ =>
             destruct (as_config b1) as [?e|[? ? ? ? ?]];
             destruct (as_config b2) as [?e|[? ? ? ? ?]];
             try discriminate H;
             cbn [blank_config Config TaskID Token] in H;
             inversion H; subst; clear H
         | H : match as_part ?b1 with _ => _ end
               = match as_part ?b2 with _ => _ end |- _ =>
             destruct (as_part b1) as [?e|[? ? ?]];
             destruct (as_part b2) as [?e|[? ? ?]];
             try discriminate H;
             cbn [blank_part PartResult Size] in H;
             inversion H; subst; clear H
         end.

Ltac pair_blank_replies :=
  repeat match goal with
         | Hs : alike_replies ?n1 ?n2 |- context [?n1 ?req] =>
             let E := fresh "E" in
             pose proof (Hs req) as E;
             destruct (n1 req) as [?e|?e|?st [?e|?b]];
             destruct (n2 req) as [?e|?e|?st [?e|?b]];
             cbn [blank_reply] in E; try discriminate E;
             injection E as E; subst; pair_blank_bodies;
             cbn beta iota zeta
         end.

Ltac settle_blank :=
  repeat (cbn beta iota zeta;
          match goal with
          | |- alike_outcome None None => exact I
          | |- alike_outcome (Some _) (Some _) =>
              unfold alike_outcome, blank_state, with_vars, blank_config in *;
              cbn in *; congruence
          | |- context [match ?x with _ => _ end] =>
              lazymatch x with
              | context [match _ with _ => _ end] => fail
              | _ => destruct x eqn:?
              end
          end).

Lemma step_alike (lv : loopvar) (fl : Flags) (l1 l2 : label) (s1 s2 : state) :
  blank_state s1 = blank_state s2 -> alike_label l1 l2 ->
  alike_outcome (step lv fl l1 s1) (step lv fl l2 s2).
Proof.
  intros Hs Hl.
  destruct s1 as [pc1 files1 [v1 info1 c1 file1 part1] sh1 tr1 pan1].
  destruct s2 as [pc2 files2 [v2 info2 c2 file2 part2] sh2 tr2 pan2].
  pose proof (f_equal pc Hs) as Hpc. pose proof (f_equal files Hs) as Hfiles.
  pose proof (f_equal (fun s => v (vars s)) Hs) as Hv.
  pose proof (f_equal (fun s => info (vars s)) Hs) as Hinfo.
  pose proof (f_equal (fun s => config (vars s)) Hs) as Hc.
  pose proof (f_equal (fun s => file (vars s)) Hs) as Hfile.
  pose proof (f_equal (fun s => part (vars s)) Hs) as Hpart.
  pose proof (f_equal shared Hs) as Hsh. pose proof (f_equal trace Hs) as Htr.
  pose proof (f_equal panicked Hs) as Hpan.
  cbn in Hpc, Hfiles, Hv, Hinfo, Hfile, Hpart, Hsh, Htr, Hpan.
  cbn [blank_state with_vars vars config] in Hc. clear Hs. subst.
  destruct c1 as [r1 h1 cfg1 task1 tok1].
  destruct c2 as [r2 h2 cfg2 task2 tok2].
  pose proof (f_equal Config Hc) as Hcfg.
  pose proof (f_equal TaskID Hc) as Htask. pose proof (f_equal Token Hc) as Htok.
  cbn in Hcfg, Htask, Htok. clear Hc. subst.
  destruct pan2; [destruct l1, l2; exact I || (cbn in Hl; contradiction)|].
  destruct l1 as [i1|src1 w1|g1|k1 n1], l2 as [i2|src2 w2|g2|k2 n2];
    cbn in Hl; try contradiction.
  - destruct i1, i2; cbn in Hl; try contradiction; try (inversion Hl; subst).
    all: unfold step, main_step; cbn [panicked pc vars shared files v info config file part].
    all: destruct pc2; try exact I.
    all: unfold getUploadConfig, finishUpload, uploadRequest, request, read_turn;
      cbn [Config PartSize Parallel Token TaskID];
      pair_blank_replies; settle_blank.
  - destruct Hl as [-> ->]. unfold step, recv_step, receive.
    cbn [panicked pc shared]. settle_blank.
  - subst. unfold step, eval_step. cbn [panicked pc shared]. settle_blank.
  - destruct Hl as [-> Hl]. unfold step, work_step, uploader_pass, fragment_request.
    cbn [panicked pc vars shared files v info config file part Config PartSize Parallel Token TaskID].
    destruct (nth_error (uploaders sh2) k2) as [[[item|] [|]]|]; try exact I.
    cbv zeta. pair_blank_replies; settle_blank.
Qed.

Lemma run_alike (lv : loopvar) (fl : Flags) (ls1 ls2 : list label) :
  Forall2 alike_label ls1 ls2 ->
  forall s1 s2,
    blank_state s1 = blank_state s2 ->
    alike_outcome (run lv fl ls1 s1) (run lv fl ls2 s2).
Proof.
  induction 1 as [|l1 l2 ls1 ls2 Hl _ IH]; intros s1 s2 Hs; cbn [run].
  - exact Hs.
  - pose proof (step_alike lv fl l1 l2 s1 s2 Hs Hl) as H.
    destruct (step lv fl l1 s1) as [a|], (step lv fl l2 s2) as [b|]; cbn in H;
      try contradiction; [apply IH; exact H | exact I].
Qed.

(** X11: the program never looks at the status code of a response, at
    [result] and [host-name] of the configuration, or at [checksum] of a
    fragment result.  Take two runs on the same arguments whose inputs are
    alike step by step but for those fields of the responses.  Either both
    are impossible, or both lead to the same place in [main] with the same
    remaining arguments, file offset, [part], counter, bar, uploaders,
    re-sends and trace, and to configurations that agree in part size,
    number of uploaders, retry hints, task and token. *)
Theorem X11_status_code_and_unread_fields_ignored
    (lv : loopvar) (fl : Flags) (args : list string) (ls1 ls2 : list label) :
  Forall2 alike_label ls1 ls2 ->
  match run lv fl ls1 (init args), run lv fl ls2 (init args) with
  | Some s1, Some s2 =>
      blank_state s1 = blank_state s2 /\
      pc s1 = pc s2 /\ files s1 = files s2 /\
      file (vars s1) = file (vars s2) /\ part (vars s1) = part (vars s2) /\
      shared s1 = shared s2 /\ trace s1 = trace s2 /\
      panicked s1 = panicked s2
  | None, None => True
  | _, _ => False
  end.
Proof.
  intros H. pose proof (run_alike lv fl ls1 ls2 H (init args) (init args) eq_refl) as R.
  destruct (run lv fl ls1 (init args)) as [s1|], (run lv fl ls2 (init args)) as [s2|];
    cbn in R; try contradiction; [|exact I].
  split; [exact R|].
  split; [exact (f_equal pc R)|]. split; [exact (f_equal files R)|].
  split; [exact (f_equal (fun s => file (vars s)) R)|].
  split; [exact (f_equal (fun s => part (vars s)) R)|].
  split; [exact (f_equal shared R)|]. split; [exact (f_equal trace R)|].
  exact (f_equal panicked R).
Qed.

Lemma sample_runs_alike_but_fields : Forall2 alike_label sample_run sample_run_odd_server.
Proof.
  repeat constructor; cbn; try reflexivity; intros req; destruct req; reflexivity.
Qed.

Lemma X11_status_code_and_unread_fields_ignored_witness :
  exists s1 s2,
    run PerLoop sample_flags sample_run (init ["dir/a"%string]) = Some s1 /\
    run PerLoop sample_flags sample_run_odd_server (init ["dir/a"%string]) = Some s2 /\
    Result (config (vars s1)) = 1 /\ Result (config (vars s2)) = -7 /\
    trace s1 = trace s2 /\ shared s1 = shared s2.
Proof.
  pose proof (X11_status_code_and_unread_fields_ignored PerLoop sample_flags
                ["dir/a"%string] sample_run sample_run_odd_server
                sample_runs_alike_but_fields) as H.
  destruct (run PerLoop sample_flags sample_run (init ["dir/a"%string])) as [s1|] eqn:E1;
    [|vm_compute in E1; discriminate E1].
  destruct (run PerLoop sample_flags sample_run_odd_server (init ["dir/a"%string]))
    as [s2|] eqn:E2; [|vm_compute in E2; discriminate E2].
  exists s1, s2. destruct H as (_ & _ & _ & _ & _ & Hsh & Htr & _).
  vm_compute in E1. vm_compute in E2.
  injection E1 as <-. injection E2 as <-.
  repeat split; reflexivity || assumption.
Defined.

(** ** Files that are left before the first read *)

Lemma request_event (net : network) (req : NetRequest) :
  exists ok, fst (request net req) = [Net req ok].
Proof.
  unfold request. destruct (net req) as [e|e|st [e|b]]; eexists; reflexivity.
Qed.

Lemma uploadRequest_event (dbg : bool) (net : network) (req : NetRequest) :
  exists ok, fst (uploadRequest dbg net req) = [Net req ok].
Proof.
  unfold uploadRequest.
  destruct (net req) as [e|e|st [e|b]]; try destruct dbg; eexists; reflexivity.
Qed.

Lemma getUploadConfig_event (net : network) (i : FileInfo) :
  exists ok, fst (getUploadConfig net i) = [Net (ConfigReq (Name i) (FileSize i)) ok].
Proof.
  unfold getUploadConfig.
  destruct (request_event net (ConfigReq (Name i) (FileSize i))) as [ok E].
  destruct (request net _) as [evs [e|b]]; cbn in E; subst evs;
    [|destruct (as_config b)]; exists ok; reflexivity.
Qed.

(** One file with a mishap: [main] is back at the head of the loop, the
    file is announced, one error line is printed, and nothing that comes
    after [os.Open] has happened. *)
Lemma mishap_skips_file (lv : loopvar) (fl : Flags) (m : mishap) (s : state)
    (p : string) (rest : list string) :
  befalls (debug fl) m ->
  panicked s = false -> pc s = NextFile -> files s = p :: rest ->
  exists s' evs,
    run lv fl (mishap_labels m) s = Some s' /\
    panicked s' = false /\ pc s' = NextFile /\ files s' = rest /\
    trace s' = evs ++ trace s /\
    announced evs = [p] /\
    existsb after_open evs = false /\
    length (filter is_error_line evs) = 1%nat.
Proof.
  intros Hm Hp Hpc Hfiles.
  destruct m as [e|i net|i net1 net2|i net1 net2 e]; cbn [befalls mishap_labels run] in *.
  - unfold step, main_step. rewrite Hp, Hpc, Hfiles.
    eexists. exists [Stdout (GetFileInfoError e); Stat p; Stdout (Local p)].
    split; [reflexivity|].
    cbn [panicked pc files trace log goto with_files with_vars rev app].
    repeat (split; [first [reflexivity | exact Hp | exact Hpc]|]). reflexivity.
  - destruct Hm as [e He].
    destruct (getUploadConfig_event net i) as [ok Hev].
    unfold step at 1, main_step at 1. rewrite Hp, Hpc, Hfiles.
    unfold step at 1, main_step at 1.
    cbn [panicked pc files vars info trace log goto with_files with_vars].
    rewrite Hp.
    destruct (getUploadConfig net i) as [evs r]. cbn in He, Hev. subst evs r.
    eexists. exists [Stdout (GetUploadConfigError e);
                     Net (ConfigReq (Name i) (FileSize i)) ok;
                     Stat p; Stdout (Local p)].
    split; [reflexivity|].
    cbn [panicked pc files trace log goto with_files with_vars rev app].
    repeat (split; [first [reflexivity | exact Hp | exact Hpc]|]). reflexivity.
  - destruct Hm as (c & e & Hc & He).
    destruct (getUploadConfig_event net1 i) as [ok1 Hev1].
    destruct (uploadRequest_event (debug fl) net2 (ResumeReq (Token c))) as [ok2 Hev2].
    unfold step at 1, main_step at 1. rewrite Hp, Hpc, Hfiles.
    unfold step at 1, main_step at 1.
    cbn [panicked pc files vars info trace log goto with_files with_vars].
    rewrite Hp.
    destruct (getUploadConfig net1 i) as [evs1 r1]. cbn in Hc, Hev1. subst evs1 r1.
    unfold step at 1, main_step at 1.
    cbn [panicked pc files vars info config trace log goto with_files with_vars].
    rewrite Hp.
    destruct (uploadRequest (debug fl) net2 (ResumeReq (Token c))) as [evs2 r2].
    cbn in He, Hev2. subst evs2 r2.
    eexists. exists [Stdout (UploadRequestError e);
                     Net (ResumeReq (Token c)) ok2;
                     Net (ConfigReq (Name i) (FileSize i)) ok1;
                     Stat p; Stdout (Local p)].
    split; [reflexivity|].
    cbn [panicked pc files trace log goto with_files with_vars rev app].
    repeat (split; [first [reflexivity | exact Hp | exact Hpc]|]). reflexivity.
  - destruct Hm as (c & Hc & He).
    destruct (getUploadConfig_event net1 i) as [ok1 Hev1].
    destruct (uploadRequest_event (debug fl) net2 (ResumeReq (Token c))) as [ok2 Hev2].
    unfold step at 1, main_step at 1. rewrite Hp, Hpc, Hfiles.
    unfold step at 1, main_step at 1.
    cbn [panicked pc files vars info trace log goto with_files with_vars].
    rewrite Hp.
    destruct (getUploadConfig net1 i) as [evs1 r1]. cbn in Hc, Hev1. subst evs1 r1.
    unfold step at 1, main_step at 1.
    cbn [panicked pc files vars info config trace log goto with_files with_vars].
    rewrite Hp.
    destruct (uploadRequest (debug fl) net2 (ResumeReq (Token c))) as [evs2 r2].
    cbn in He, Hev2. subst evs2 r2.
    unfold step at 1, main_step at 1.
    cbn [panicked pc files vars info config trace log goto with_files with_vars].
    rewrite Hp.
    eexists. exists [Stdout (OpenFileError e); Open p;
                     BarStart (FileSize i);
                     Net (ResumeReq (Token c)) ok2;
                     Net (ConfigReq (Name i) (FileSize i)) ok1;
                     Stat p; Stdout (Local p)].
    split; [reflexivity|].
    cbn [panicked pc files trace log goto with_files with_vars with_shared rev app].
    repeat (split; [first [reflexivity | exact Hp | exact Hpc]|]). reflexivity.
Qed.

Lemma announced_app (l1 l2 : list event) :
  announced (l1 ++ l2) = announced l1 ++ announced l2.
Proof.
  induction l1 as [|e l1 IH]; [reflexivity|].
  destruct e as [o| | | | | | | | | |]; cbn [app announced]; try exact IH.
  destruct o; cbn [app]; rewrite ?IH; reflexivity.
Qed.

Lemma mishaps_skip_files (lv : loopvar) (fl : Flags) :
  forall (ms : list mishap) (fs : list string) (s : state),
    length ms = length fs -> Forall (befalls (debug fl)) ms ->
    panicked s = false -> pc s = NextFile -> files s = fs ->
    exists s' evs,
      run lv fl (flat_map mishap_labels ms ++ [Main Tick]) s = Some s' /\
      panicked s' = false /\ pc s' = Exited /\ files s' = [] /\
      trace s' = evs ++ trace s /\
      announced evs = rev fs /\
      existsb after_open evs = false /\
      length (filter is_error_line evs) = length fs.
Proof.
  induction ms as [|m ms IH]; intros fs s Hlen Hall Hp Hpc Hfiles.
  - destruct fs; [|discriminate Hlen]. exists (goto Exited s), [].
    cbn [flat_map app run]. unfold step, main_step. rewrite Hp, Hpc, Hfiles.
    repeat (split; [first [reflexivity | exact Hp | exact Hfiles]|]). reflexivity.
  - destruct fs as [|p rest]; [discriminate Hlen|].
    inversion Hall as [|? ? Hm Hms]; subst.
    destruct (mishap_skips_file lv fl m s p rest Hm Hp Hpc Hfiles)
      as (s1 & evs1 & Hrun1 & Hp1 & Hpc1 & Hfiles1 & Htr1 & Han1 & Haf1 & Herr1).
    destruct (IH rest s1 ltac:(cbn in Hlen; lia) Hms Hp1 Hpc1 Hfiles1)
      as (s2 & evs2 & Hrun2 & Hp2 & Hpc2 & Hfiles2 & Htr2 & Han2 & Haf2 & Herr2).
    exists s2, (evs2 ++ evs1).
    cbn [flat_map]. rewrite <- app_assoc, run_app, Hrun1.
    split; [exact Hrun2|].
    split; [exact Hp2|]. split; [exact Hpc2|]. split; [exact Hfiles2|].
    split; [rewrite Htr2, Htr1, app_assoc; reflexivity|].
    split; [rewrite announced_app, Han1, Han2; reflexivity|].
    split; [rewrite existsb_app, Haf1, Haf2; reflexivity|].
    rewrite filter_app, length_app, Herr1, Herr2. cbn [length]. lia.
Qed.

(** X12: when every file named on the command line meets a mishap before
    its first read ([os.Stat] fails, [getUploadConfig] or the resume request
    returns an error, or [os.Open] fails), [main] goes through all of them
    and returns: every file is announced, in order, one error line is
    printed for each, and no uploader is started, nothing is read or sent
    and no finalize call is made. *)
Theorem X12_files_with_mishaps_are_skipped
    (lv : loopvar) (fl : Flags) (args : list string) (ms : list mishap) :
  token fl <> ""%string -> uid fl <> ""%string ->
  length ms = length args -> Forall (befalls (debug fl)) ms ->
  exists s,
    run lv fl (mishap_run ms) (init args) = Some s /\
    pc s = Exited /\ files s = [] /\ panicked s = false /\
    rev (announced (trace s)) = args /\
    existsb after_open (trace s) = false /\
    length (filter is_error_line (trace s)) = length args.
Proof.
  intros Ht Hu Hlen Hall.
  assert (Hcred : ((token fl =? "") || (uid fl =? ""))%string = false).
  { apply orb_false_iff. split; apply String.eqb_neq; assumption. }
  destruct (mishaps_skip_files lv fl ms args (goto NextFile (init args)) Hlen Hall
              eq_refl eq_refl eq_refl)
    as (s & evs & Hrun & Hp & Hpc & Hfiles & Htr & Han & Haf & Herr).
  exists s. unfold mishap_run. cbn [app run].
  unfold step at 1, main_step at 1. cbn [panicked pc init]. rewrite Hcred.
  split; [exact Hrun|].
  cbn [trace goto init] in Htr. rewrite app_nil_r in Htr. subst evs.
  split; [exact Hpc|]. split; [exact Hfiles|]. split; [exact Hp|].
  split; [rewrite Han; apply rev_involutive|]. split; [exact Haf|exact Herr].
Qed.

Lemma X12_files_with_mishaps_are_skipped_witness :
  exists s,
    run PerLoop sample_flags (mishap_run three_mishaps)
      (init ["a"%string; "b"%string; "c"%string]) = Some s /\
    pc s = Exited /\
    rev (announced (trace s)) = ["a"%string; "b"%string; "c"%string].
Proof.
  destruct (X12_files_with_mishaps_are_skipped PerLoop sample_flags
              ["a"%string; "b"%string; "c"%string] three_mishaps)
    as (s & H1 & H2 & _ & _ & H3 & _).
  - discriminate.
  - discriminate.
  - reflexivity.
  - repeat constructor.
    + exists "502"%string. reflexivity.
    + exists tiny_config. split; reflexivity.
  - exists s. auto.
Defined.

(** ** The reader of the earlier stage *)

Lemma length_overwrite (buf d : bytes) :
  (length d <= length buf)%nat -> length (overwrite buf d) = length buf.
Proof.
  intros H. unfold overwrite. rewrite length_app, length_skipn. lia.
Qed.

Lemma Read_into_buffer (f : File) (buf : bytes) :
  (0 < length buf)%nat ->
  Read f buf None =
    match unread f with
    | [] => (0, Some EOF, buf, f)
    | _ :: _ =>
        let d := firstn (length buf) (unread f) in
        (len d, None, overwrite buf d, mkFile (data f) (pos f + length d))
    end.
Proof. destruct buf; [cbn; lia | reflexivity]. Qed.

Lemma MainGo_read_loop_spec :
  forall (fuel : nat) (buf : bytes) (f : File) (p : Z),
    (0 < length buf)%nat -> (length (unread f) < fuel)%nat ->
    exists sent buf',
      MainGo.read_loop fuel buf f p =
        MainGo.ReadDone sent buf' (p + 1 + Z.of_nat (length sent)) /\
      (forall i item, nth_error sent i = Some item ->
                      MainGo.count item = p + 1 + Z.of_nat i) /\
      length buf' = length buf /\
      (length (unread f) <= length sent * length buf
       < length (unread f) + length buf)%nat /\
      (unread f = [] -> sent = [] /\ buf' = buf) /\
      (unread f <> [] ->
       firstn (length (unread f) - (length sent - 1) * length buf) buf' =
         skipn ((length sent - 1) * length buf) (unread f)).
Proof.
  induction fuel as [|fuel IH]; intros buf f p Hbuf Hfuel; [lia|].
  cbn [MainGo.read_loop]. unfold MainGo.read_turn.
  rewrite (Read_into_buffer f buf Hbuf).
  destruct (unread f) as [|u0 u] eqn:Eu.
  - cbn. exists [], buf. rewrite Z.add_0_r.
    split; [reflexivity|]. split; [intros i item H; destruct i; discriminate|].
    split; [reflexivity|]. split; [cbn; lia|]. split; [auto|].
    intros H. contradiction.
  - rewrite <- Eu in Hfuel |- *. cbv beta iota zeta.
    set (d := firstn (length buf) (unread f)).
    assert (Hd : (0 < length d)%nat).
    { subst d. rewrite length_firstn, Eu. cbn [length]. lia. }
    assert (Hdle : (length d <= length buf)%nat).
    { subst d. rewrite length_firstn. lia. }
    assert (Hdu : (length d <= length (unread f))%nat).
    { subst d. rewrite length_firstn. lia. }
    assert (E : (len d <=? 0) = false) by (apply Z.leb_gt; unfold len; lia).
    rewrite E. cbn [orb is_some].
    set (f' := mkFile (data f) (pos f + length d)).
    assert (Hu' : unread f' = skipn (length d) (unread f)).
    { subst f'. apply unread_advance. }
    destruct (IH (overwrite buf d) f' (p + 1)) as
      (sent & buf' & Hrun & Hcnt & Hlen & Hnum & Hnil & Hlast).
    { rewrite length_overwrite by exact Hdle. lia. }
    { rewrite Hu', length_skipn. lia. }
    rewrite Hrun. rewrite length_overwrite in * by exact Hdle.
    exists (MainGo.mkPart (p + 1) :: sent), buf'.
    split; [f_equal; cbn [length]; lia|].
    split.
    { intros i item Hi. destruct i as [|i]; cbn in Hi.
      - inversion Hi. cbn. lia.
      - rewrite (Hcnt i item Hi). lia. }
    split; [exact Hlen|].
    rewrite Hu', length_skipn in Hnum.
    assert (Hdcase : length d = length buf \/
                     (length d = length (unread f) /\ length d < length buf)%nat).
    { subst d. rewrite length_firstn. lia. }
    cbn [length].
    destruct (unread f') as [|x xs] eqn:Ex.
    + destruct (Hnil eq_refl) as [-> ->]. cbn [length] in *.
      assert (Hall : length (unread f) = length d).
      { pose proof (f_equal (@length _) Hu') as HH.
        rewrite length_skipn in HH. cbn [length] in HH. lia. }
      split; [lia|]. split; [intros H; rewrite Eu in H; discriminate|].
      intros _. replace (length (unread f) - (1 - 1) * length buf)%nat
        with (length d) by lia.
      cbn [Nat.sub Nat.mul skipn]. unfold overwrite.
      rewrite firstn_app, firstn_all, Nat.sub_diag. cbn [firstn].
      rewrite app_nil_r. subst d. apply firstn_all2. lia.
    + assert (Hrest : (length (unread f) - length d = S (length xs))%nat).
      { pose proof (f_equal (@length _) Hu') as HH.
        rewrite length_skipn in HH. cbn [length] in HH. lia. }
      assert (Hfull : length d = length buf).
      { destruct Hdcase as [H|[H _]]; [exact H | lia]. }
      assert (Hsent : (1 <= length sent)%nat).
      { destruct sent; [cbn in Hnum; lia | cbn; lia]. }
      split; [nia|]. split; [intros H; rewrite Eu in H; discriminate|].
      intros _. specialize (Hlast ltac:(discriminate)).
      rewrite Hu', length_skipn, skipn_skipn in Hlast.
      replace (S (length sent) - 1)%nat with (length sent) by lia.
      replace (length (unread f) - length sent * length buf)%nat
        with (length (unread f) - length d - (length sent - 1) * length buf)%nat by nia.
      rewrite Hlast. f_equal. nia.
Qed.

(** X13: the reader of [src/main.go], for a part size of at least 1.  The
    items are numbered from 1 and there are as many as the file has chunks
    of [PartSize] bytes, the last one possibly short; [part] ends one above
    their number.  All of them refer to the one buffer of [PartSize] bytes,
    which in the end begins with the last chunk of the file: what an item
    holds is what was read for it only until the next read. *)
Theorem X13_MainGo_reader_numbers_from_one_and_shares_the_buffer
    (c : UploadConfigResp) (f : bytes) :
  1 <= PartSize (Config c) ->
  exists sent buf,
    MainGo.fragments c f = MainGo.ReadDone sent buf (1 + Z.of_nat (length sent)) /\
    (forall i item, nth_error sent i = Some item ->
                    MainGo.count item = Z.of_nat i + 1) /\
    len buf = PartSize (Config c) /\
    len f <= Z.of_nat (length sent) * PartSize (Config c)
          < len f + PartSize (Config c) /\
    (f <> [] ->
     firstn (length f - (length sent - 1) * length buf) buf =
       skipn ((length sent - 1) * length buf) f).
Proof.
  intros HP. unfold MainGo.fragments, make.
  destruct (PartSize (Config c) <? 0) eqn:E; [apply Z.ltb_lt in E; lia|].
  set (buf0 := repeat x00 (Z.to_nat (PartSize (Config c)))).
  assert (Hb0 : length buf0 = Z.to_nat (PartSize (Config c))) by apply repeat_length.
  destruct (MainGo_read_loop_spec (S (length f)) buf0 (os_Open f) 0)
    as (sent & buf & Hrun & Hcnt & Hlen & Hnum & _ & Hlast); [lia | cbn; lia |].
  change (unread (os_Open f)) with f in *.
  exists sent, buf. rewrite Hrun.
  split; [f_equal|].
  split; [intros i item Hi; rewrite (Hcnt i item Hi); lia|].
  split; [unfold len; lia|].
  split; [unfold len; nia|].
  intros Hf. rewrite Hlen. exact (Hlast Hf).
Qed.

Lemma X13_MainGo_reader_numbers_from_one_and_shares_the_buffer_witness :
  exists sent buf,
    MainGo.fragments tiny_config six_bytes =
      MainGo.ReadDone sent buf (1 + Z.of_nat (length sent)) /\
    len buf = 4.
Proof.
  destruct (X13_MainGo_reader_numbers_from_one_and_shares_the_buffer
              tiny_config six_bytes) as (sent & buf & H1 & _ & H2 & _).
  - cbn. lia.
  - exists sent, buf. split; [exact H1 | exact H2].
Defined.


(** ** The file name sent to [createVideo] *)

Lemma upto_slash_clean (l : list ascii) : existsb is_slash (upto_slash l) = false.
Proof.
  induction l as [|c l IH]; [reflexivity|]. cbn [upto_slash].
  destruct (is_slash c) eqn:E; [reflexivity|]. cbn [existsb]. rewrite E. exact IH.
Qed.

Lemma existsb_rev {A} (f : A -> bool) (l : list A) :
  existsb f (rev l) = existsb f l.
Proof.
  induction l as [|a l IH]; [reflexivity|]. cbn [rev existsb].
  rewrite existsb_app, IH. cbn [existsb]. rewrite orb_false_r. apply orb_comm.
Qed.

Lemma list_ascii_of_string_app (s1 s2 : string) :
  list_ascii_of_string (s1 ++ s2) = list_ascii_of_string s1 ++ list_ascii_of_string s2.
Proof.
  induction s1 as [|c s1 IH]; [reflexivity|]. cbn. rewrite IH. reflexivity.
Qed.

Lemma upto_slash_stops (l1 l2 : list ascii) :
  existsb is_slash l1 = false -> upto_slash (l1 ++ "/"%char :: l2) = l1.
Proof.
  induction l1 as [|c l1 IH]; intros H; [reflexivity|].
  cbn [existsb] in H. apply orb_false_iff in H. destruct H as [Hc Hl].
  cbn [app upto_slash]. rewrite Hc, (IH Hl). reflexivity.
Qed.

Lemma upto_slash_all (l : list ascii) :
  existsb is_slash l = false -> upto_slash l = l.
Proof.
  induction l as [|c l IH]; intros H; [reflexivity|].
  cbn [existsb] in H. apply orb_false_iff in H. destruct H as [Hc Hl].
  cbn [upto_slash]. rewrite Hc, (IH Hl). reflexivity.
Qed.

Lemma drop_slashes_none (l : list ascii) :
  l <> [] -> existsb is_slash l = false -> drop_slashes l = l.
Proof.
  destruct l as [|c l]; [contradiction|]. intros _ H.
  cbn [existsb] in H. apply orb_false_iff in H. destruct H as [Hc _].
  cbn [drop_slashes]. rewrite Hc. reflexivity.
Qed.

Lemma drop_slashes_head (l1 l2 : list ascii) :
  l1 <> [] -> existsb is_slash l1 = false -> drop_slashes (l1 ++ l2) = l1 ++ l2.
Proof.
  destruct l1 as [|c l1]; [contradiction|]. intros _ H.
  cbn [existsb] in H. apply orb_false_iff in H. destruct H as [Hc _].
  cbn [app drop_slashes]. rewrite Hc. reflexivity.
Qed.

(** X15: the file name sent to [createVideo] is [path.Base] of the
    argument.  It is never empty; it is ["/"] or holds no slash; a name
    without a slash is its own base; and the base of a directory, a slash
    and such a name is the name, so that no part of the local directory is
    sent. *)
Theorem X15_path_Base_is_the_last_element (p : string) :
  path_Base p <> ""%string /\
  (path_Base p = "/"%string \/ has_slash (path_Base p) = false) /\
  (forall dir name,
      name <> ""%string -> has_slash name = false ->
      path_Base name = name /\
      path_Base (dir ++ "/" ++ name) = name).
Proof.
  split; [|split].
  - unfold path_Base. destruct (list_ascii_of_string p) as [|c l]; [discriminate|].
    destruct (rev (upto_slash (drop_slashes (rev (c :: l))))) as [|b bs];
      [discriminate|]. cbn. discriminate.
  - unfold path_Base. destruct (list_ascii_of_string p) as [|c l].
    + right. reflexivity.
    + destruct (rev (upto_slash (drop_slashes (rev (c :: l))))) as [|b bs] eqn:E;
        [left; reflexivity|].
      right. unfold has_slash. rewrite list_ascii_of_string_of_list_ascii, <- E.
      rewrite existsb_rev. apply upto_slash_clean.
  - intros dir name Hne Hns. unfold has_slash in Hns.
    assert (Hl : list_ascii_of_string name <> []).
    { intros H. apply Hne. rewrite <- (string_of_list_ascii_of_string name), H.
      reflexivity. }
    assert (Hrl : rev (list_ascii_of_string name) <> []).
    { intros H. apply Hl. rewrite <- (rev_involutive (list_ascii_of_string name)), H.
      reflexivity. }
    assert (Hrs : existsb is_slash (rev (list_ascii_of_string name)) = false)
      by (rewrite existsb_rev; exact Hns).
    split.
    + unfold path_Base.
      destruct (list_ascii_of_string name) as [|c l] eqn:E; [contradiction|].
      rewrite <- E in *.
      rewrite (drop_slashes_none _ Hrl Hrs), (upto_slash_all _ Hrs), rev_involutive.
      rewrite E, <- E. apply string_of_list_ascii_of_string.
    + unfold path_Base. rewrite !list_ascii_of_string_app.
      change (list_ascii_of_string "/") with ["/"%char].
      destruct (list_ascii_of_string dir ++ ["/"%char] ++ list_ascii_of_string name)
        as [|c l] eqn:E.
      { exfalso. apply app_eq_nil in E. destruct E as [_ E]. discriminate E. }
      rewrite <- E. rewrite !rev_app_distr. cbn [rev app].
      rewrite <- !app_assoc. cbn [app].
      rewrite (drop_slashes_head _ _ Hrl Hrs), (upto_slash_stops _ _ Hrs), rev_involutive.
      destruct (list_ascii_of_string name) as [|c' l'] eqn:E'; [contradiction|].
      rewrite <- E'. apply string_of_list_ascii_of_string.
Qed.

Lemma X15_path_Base_is_the_last_element_witness :
  path_Base ("videos/2020" ++ "/" ++ "clip.mp4") = "clip.mp4"%string.
Proof.
  apply (X15_path_Base_is_the_last_element ""%string).
  - discriminate.
  - reflexivity.
Defined.

(** * What holds of the uploader, the counter and the handshake under either
      reading of the loop variable *)

(** X16: the pass of an uploader moves the counter, the progress bar or
    the acknowledgments only if the reply has result code 1 and a size equal
    to the fragment's length, and then by one decrement, the fragment's
    length and the one acknowledgment of that fragment. *)
Theorem X16_acknowledged_only_when_confirmed
    (lv : loopvar) (fl : Flags) (s : state) (w : nat) (item : UploadPart)
    (net : network) (s' : state) :
  panicked s = false ->
  nth_error (uploaders (shared s)) w = Some (mkUploader (Some item) true) ->
  step lv fl (Work w net) s = Some s' ->
  wg (shared s') <> wg (shared s) \/ bar (shared s') <> bar (shared s) \/
  acked s' <> acked s ->
  confirmed item (net (request_of s item)) /\
  wg (shared s') = wg (shared s) - 1 /\
  bar (shared s') = bar (shared s) + len (content item) /\
  acked s' = item :: acked s.
Proof.
  intros Hp Hn Hstep Hchg.
  unfold step in Hstep. rewrite Hp in Hstep. unfold work_step in Hstep.
  rewrite Hn in Hstep. fold (request_of s item) in Hstep.
  destruct (uploader_pass _ _ _ net item) as [evs vd] eqn:Epass.
  destruct vd.
  - pose proof (pass_acked _ _ _ _ _ _ Epass) as Hconf.
    fold (request_of s item) in Hconf.
    unfold uploader_pass in Epass. cbv zeta in Epass.
    destruct Hconf as (st & b & res & Er & Eb & E1 & E2).
    fold (request_of s item) in Epass. rewrite Er, Eb, E1, E2 in Epass.
    rewrite !Z.eqb_refl in Epass. cbn in Epass. inversion Epass; subst evs.
    destruct (wg (shared s) - 1 <? 0).
    + inversion Hstep; subst s'. unfold acked in Hchg. cbn in Hchg.
      destruct Hchg as [H|[H|H]]; congruence.
    + inversion Hstep; subst s'. unfold acked. cbn.
      split; [exists st, b, res; auto|]. auto.
  - exfalso. unfold uploader_pass in Epass. cbv zeta in Epass.
    destruct (net _) as [e|e|st [e|b]]; try discriminate;
      [| |destruct (as_part b) as [e|res];
          [|destruct (negb (PartResult res =? 1) || negb (Size res =? len (content item)));
            try discriminate]];
      inversion Epass; subst evs; destruct lv; inversion Hstep; subst s';
      unfold acked in Hchg; cbn in Hchg;
      destruct Hchg as [H|[H|H]]; congruence.
  - exfalso. inversion Hstep; subst s'. unfold acked in Hchg. cbn in Hchg.
    destruct Hchg as [H|[H|H]]; congruence.
Qed.

Lemma X16_acknowledged_only_when_confirmed_witness :
  confirmed first_half (good_server tiny_config (request_of sample_state first_half)) /\
  wg (shared acked_state) = wg (shared sample_state) - 1 /\
  bar (shared acked_state) = bar (shared sample_state) + len (content first_half) /\
  acked acked_state = first_half :: acked sample_state.
Proof.
  apply (X16_acknowledged_only_when_confirmed PerLoop sample_flags sample_state 0
           first_half (good_server tiny_config) acked_state eq_refl eq_refl).
  - vm_compute. reflexivity.
  - left. vm_compute. discriminate.
Defined.

(** X17: when the upload of a fragment fails (transport error, body that
    cannot be read or decoded, result code other than 1, or another size)
    the pass ends without a trace but the request: counter, progress bar,
    acknowledgments, [main] and the output are as before, and one re-send
    goroutine has been started. *)
Theorem X17_failed_upload_changes_nothing
    (lv : loopvar) (fl : Flags) (s : state) (w : nat) (item : UploadPart)
    (net : network) :
  panicked s = false ->
  nth_error (uploaders (shared s)) w = Some (mkUploader (Some item) true) ->
  upload_failure item (net (request_of s item)) ->
  exists s',
    step lv fl (Work w net) s = Some s' /\
    panicked s' = false /\ pc s' = pc s /\ vars s' = vars s /\ files s' = files s /\
    wg (shared s') = wg (shared s) /\ bar (shared s') = bar (shared s) /\
    acked s' = acked s /\ enqueued s' = enqueued s /\
    length (resends (shared s')) = S (length (resends (shared s))) /\
    forall o, In (Stdout o) (trace s') -> In (Stdout o) (trace s).
Proof.
  intros Hp Hn F. destruct (work_failed lv fl s w item net Hp Hn F) as [ok E].
  eexists. split; [exact E|]. cbv zeta.
  destruct lv; unfold acked, enqueued; cbn; repeat (split; [first [reflexivity|exact Hp]|]).
  all: intros o [H|H]; try discriminate; auto.
  destruct H as [H|H]; [discriminate|exact H].
Qed.

Lemma X17_failed_upload_changes_nothing_witness :
  exists s',
    step PerLoop sample_flags (Work 0 bad_gateway) sample_state = Some s' /\
    wg (shared s') = wg (shared sample_state) /\
    length (resends (shared s')) = 1%nat.
Proof.
  destruct (X17_failed_upload_changes_nothing PerLoop sample_flags sample_state 0
              first_half bad_gateway eq_refl eq_refl (transport_error _ "502"%string))
    as (s' & H1 & _ & _ & _ & _ & H2 & _ & _ & _ & H3 & _).
  exists s'. split; [exact H1|]. split; [exact H2 | exact H3].
Defined.

(** X18: in every reachable state the counter is the number of fragments
    enqueued for the file in hand minus the number of acknowledgments; only
    enqueued fragments are acknowledged; and once the read loop is left,
    [part] is the number of fragments enqueued. *)
Theorem X18_counter_is_enqueued_minus_acknowledged
    (lv : loopvar) (fl : Flags) (args : list string) (s : state) :
  reachable lv fl args s ->
  wg (shared s) = Z.of_nat (length (enqueued s)) - Z.of_nat (length (acked s)) /\
  (forall item, In item (acked s) ->
                In item (enqueued s) /\
                0 <= count item < Z.of_nat (length (enqueued s))) /\
  (pc s = Waiting \/ pc s = Finishing ->
   part (vars s) = Z.of_nat (length (enqueued s))).
Proof.
  intros R. pose proof (invariant_reachable _ _ _ _ R) as I.
  split; [exact (inv_balance lv s I)|]. split.
  - intros item Hin.
    assert (He : In item (enqueued s)) by (apply (inv_known lv s I); auto).
    split; [exact He|]. apply indexed_range; [exact (inv_index lv s I) | exact He].
  - intros Hpc. pose proof (inv_part lv s I) as Hpart.
    destruct Hpc as [E|E]; rewrite E in Hpart; cbn in Hpart;
      rewrite Hpart by reflexivity; lia.
Qed.

Lemma racy_state_reachable : reachable PerLoop sample_flags ["dir/a"%string] racy_state.
Proof. exists racy_run. vm_compute. reflexivity. Qed.

Lemma X18_counter_is_enqueued_minus_acknowledged_witness :
  wg (shared racy_state) =
    Z.of_nat (length (enqueued racy_state)) - Z.of_nat (length (acked racy_state)) /\
  part (vars racy_state) = Z.of_nat (length (enqueued racy_state)).
Proof.
  destruct (X18_counter_is_enqueued_minus_acknowledged PerLoop sample_flags
              ["dir/a"%string] racy_state racy_state_reachable) as (H1 & _ & H2).
  split; [exact H1 | apply H2; right; reflexivity].
Defined.

(** X19: in every reachable state the finalize calls made for the file in
    hand are, in order, a beginning of completion call, [createVideo],
    [uploadFinish], each made at most once and each only if the one before
    came back without error; if [uploadFinish] succeeded, the three were made
    once each.  None is made while the file is negotiated, read or
    dispatched.  When one has been made, or [main] stands right before the
    handshake, the counter is zero, there are as many acknowledgments as
    fragments enqueued, and nothing of the dispatch is later than a finalize
    call. *)
Theorem X19_finalize_calls_in_order_after_the_wait
    (lv : loopvar) (fl : Flags) (args : list string) (s : state) :
  reachable lv fl args s ->
  let calls := rev (finalize_calls (segment (trace s))) in
  In calls (handshakes (vars s)) /\
  (forall task, In (Net (FinishReq task) true) (segment (trace s)) ->
     calls = [ (CompleteReq (part (vars s)) (Token (config (vars s))), true);
               (CreateVideoReq (TaskID (config (vars s))) (path_Base (v (vars s))), true);
               (FinishReq (TaskID (config (vars s))), true) ]) /\
  (in_session (pc s) = true -> calls = []) /\
  (calls <> [] \/ pc s = Finishing ->
     wg (shared s) = 0 /\ length (acked s) = length (enqueued s) /\
     dispatch_before_finalize (segment (trace s)) = true).
Proof.
  intros R calls.
  destruct (finalize_once_after_counter_zero lv fl args s R) as (H1 & H2 & H3 & H4).
  split; [exact H1|]. split; [exact H2|]. split; [exact H3|].
  intros Hc. destruct (H4 Hc) as (Hwg & Hlen & _ & Hord). auto.
Qed.

Lemma X19_finalize_calls_in_order_after_the_wait_witness :
  rev (finalize_calls (segment (trace racy_finalized_state))) =
    [ (CompleteReq 2 "tok"%string, true);
      (CreateVideoReq "task"%string "a"%string, true);
      (FinishReq "task"%string, true) ].
Proof.
  destruct (X19_finalize_calls_in_order_after_the_wait PerLoop sample_flags
              ["dir/a"%string] racy_finalized_state) as (_ & H & _).
  - exists racy_run_finalized. vm_compute. reflexivity.
  - apply (H "task"%string). vm_compute. tauto.
Defined.

(** X20: in a run in which no read of the file fails, under a part size of
    at least 2, once the read loop is left [main] has enqueued exactly the
    fragments the reader makes of the file, in their order, and [part] is
    their number; this holds whatever the uploaders and the re-sends
    did. *)
Theorem X20_main_enqueues_what_the_reader_produces
    (lv : loopvar) (fl : Flags) (args : list string) (ls : list label) (s : state) :
  forallb healthy_label ls = true ->
  run lv fl ls (init args) = Some s ->
  valid_part_size (config (vars s)) ->
  pc s = Waiting \/ pc s = Finishing ->
  fragments (config (vars s)) (data (file (vars s))) =
    ReadDone (enqueued s) (part (vars s)).
Proof.
  intros Hh H V Hpc.
  assert (F : follows_reader s).
  { eapply follows_reader_run; eauto using invariant_init, follows_reader_init. }
  unfold follows_reader, remaining_reads in F.
  destruct Hpc as [E|E]; rewrite E in F;
    destruct (F eq_refl V) as (rest & p & Hrest & Hfr);
    inversion Hrest; subst rest p; rewrite app_nil_r in Hfr; exact Hfr.
Qed.

Lemma X20_main_enqueues_what_the_reader_produces_witness :
  fragments (config (vars racy_state)) (data (file (vars racy_state))) =
    ReadDone (enqueued racy_state) (part (vars racy_state)).
Proof.
  apply (X20_main_enqueues_what_the_reader_produces PerLoop sample_flags
           ["dir/a"%string] racy_run racy_state).
  - reflexivity.
  - vm_compute. reflexivity.
  - unfold valid_part_size. cbn. lia.
  - right. reflexivity.
Defined.

(** X21: with a variable per iteration (Go 1.22 and later) the counter is
    zero exactly when every fragment enqueued so far has an acknowledgment,
    and no fragment is acknowledged twice. *)
Theorem X21_per_iteration_counter_zero_iff_all_acknowledged
    (fl : Flags) (args : list string) (s : state) :
  reachable PerIteration fl args s ->
  (wg (shared s) = 0 <->
   forall i, 0 <= i < Z.of_nat (length (enqueued s)) -> In i (map count (acked s))) /\
  NoDup (map count (acked s)).
Proof.
  intros R. pose proof (invariant_reachable _ _ _ _ R) as I.
  pose proof (inv_balance _ s I) as Hc.
  destruct (inv_items _ s I eq_refl) as [Hp _].
  pose proof (inv_index _ s I) as Hidx.
  assert (Hnd : NoDup (map count (acked s ++ inflight s))).
  { eapply Permutation_NoDup.
    - symmetry. apply Permutation_map. exact Hp.
    - apply indexed_NoDup, Hidx. }
  assert (Hlen : length (enqueued s) = (length (acked s) + length (inflight s))%nat).
  { rewrite <- (Permutation_length Hp). apply length_app. }
  split.
  - split.
    + intros Hz i Hi.
      assert (Hnil : inflight s = []).
      { destruct (inflight s); [reflexivity|cbn in Hlen; lia]. }
      rewrite Hnil, app_nil_r in Hp.
      destruct (nth_error (enqueued s) (Z.to_nat i)) as [item|] eqn:E.
      * pose proof (Hidx _ _ E) as Hci. apply in_map_iff. exists item. split; [lia|].
        eapply Permutation_in; [symmetry; exact Hp|].
        eapply nth_error_In; exact E.
      * apply nth_error_None in E. lia.
    + intros Hall. destruct (inflight s) as [|x F'] eqn:EF; [cbn in Hlen; lia|].
      exfalso.
      assert (Hx : In x (enqueued s)).
      { eapply Permutation_in; [exact Hp|]. apply in_or_app. right. left. reflexivity. }
      pose proof (indexed_range _ _ Hidx Hx) as Hr.
      rewrite map_app in Hnd.
      apply (NoDup_app_disjoint _ _ (count x) Hnd).
      * apply Hall, Hr.
      * cbn. left. reflexivity.
  - rewrite map_app in Hnd. eapply NoDup_app_remove_r. exact Hnd.
Qed.

Lemma X21_per_iteration_counter_zero_iff_all_acknowledged_witness :
  NoDup (map count (acked acked_state)) /\
  (wg (shared acked_state) = 0 <->
   forall i, 0 <= i < Z.of_nat (length (enqueued acked_state)) ->
             In i (map count (acked acked_state))).
Proof.
  destruct (X21_per_iteration_counter_zero_iff_all_acknowledged sample_flags
              ["dir/a"%string] acked_state) as [H1 H2].
  - exists (sample_prefix ++ [Work 0 (good_server tiny_config)]).
    vm_compute. reflexivity.
  - split; [exact H2 | exact H1].
Defined.

(** X22: so long as every re-send runs before its uploader receives again,
    a fragment whose upload fails any number of times in a row is after
    that in the uploader's hands again, with its content and index, and
    counter, progress bar, acknowledgments and output are as before: the
    retries are not bounded and nothing is reported. *)
Theorem X22_prompt_resend_gives_back_the_same_fragment
    (lv : loopvar) (fl : Flags) (s : state) (w : nat) (item : UploadPart)
    (nets : list network) :
  panicked s = false ->
  nth_error (uploaders (shared s)) w = Some (mkUploader (Some item) true) ->
  Forall (fun net => upload_failure item (net (request_of s item))) nets ->
  exists s',
    run lv fl (retry_schedule lv w nets) s = Some s' /\
    nth_error (uploaders (shared s')) w = Some (mkUploader (Some item) true) /\
    panicked s' = false /\ pc s' = pc s /\ vars s' = vars s /\
    wg (shared s') = wg (shared s) /\ bar (shared s') = bar (shared s) /\
    acked s' = acked s /\ enqueued s' = enqueued s /\
    forall o, In (Stdout o) (trace s') -> In (Stdout o) (trace s).
Proof.
  intros Hp Hn F.
  destruct (retry_rounds lv fl w item nets s Hp Hn F)
    as (s' & evs & Hrun & Hp' & Hpc & _ & Hvars & Hsh & Htr & Hevs & _).
  destruct (retry_events_silent s item evs (trace s) Hevs) as (Hseg & Hacks & Hsends).
  exists s'. split; [exact Hrun|].
  split; [rewrite Hsh; exact Hn|].
  split; [exact Hp'|]. split; [exact Hpc|]. split; [exact Hvars|].
  split; [rewrite Hsh; reflexivity|]. split; [rewrite Hsh; reflexivity|].
  split; [unfold acked; rewrite Htr; exact Hacks|].
  split; [unfold enqueued; rewrite Htr, Hsends; reflexivity|].
  intros o Ho. rewrite Htr in Ho. apply in_app_or in Ho.
  destruct Ho as [Ho|Ho]; [|exact Ho].
  exfalso. rewrite Forall_forall in Hevs.
  destruct (Hevs _ Ho) as [H|[ok H]]; discriminate.
Qed.

Lemma X22_prompt_resend_gives_back_the_same_fragment_witness :
  exists s',
    run PerLoop sample_flags
      (retry_schedule PerLoop 0 [bad_gateway; bad_gateway; bad_gateway]) sample_state
      = Some s' /\
    nth_error (uploaders (shared s')) 0 = Some (mkUploader (Some first_half) true) /\
    wg (shared s') = wg (shared sample_state).
Proof.
  destruct (X22_prompt_resend_gives_back_the_same_fragment PerLoop sample_flags
              sample_state 0 first_half [bad_gateway; bad_gateway; bad_gateway]
              eq_refl eq_refl) as (s' & H1 & H2 & _ & _ & _ & H3 & _).
  - repeat constructor.
  - exists s'. auto.
Defined.

(** X23: while a file is open, the fragments enqueued so far, put together
    in order, are the bytes of the file up to the read offset, without gap
    or overlap, the [i]-th of them carries index [i], and the progress bar
    stands at the sum of the lengths of the acknowledged fragments.  This
    holds also in runs in which reads or uploads fail. *)
Theorem X23_enqueued_bytes_and_progress
    (lv : loopvar) (fl : Flags) (args : list string) (s : state) :
  reachable lv fl args s -> file_open (pc s) = true ->
  concat (map content (enqueued s)) =
    firstn (pos (file (vars s))) (data (file (vars s))) /\
  (pos (file (vars s)) <= length (data (file (vars s))))%nat /\
  (forall i item, nth_error (enqueued s) i = Some item -> count item = Z.of_nat i) /\
  bar (shared s) = total_len (acked s).
Proof.
  intros R Hopen. pose proof (invariant_reachable _ _ _ _ R) as I.
  destruct (inv_bytes lv s I Hopen) as [H1 H2].
  split; [exact H1|]. split; [exact H2|].
  split; [exact (inv_index lv s I) | exact (inv_bar lv s I Hopen)].
Qed.

Lemma X23_enqueued_bytes_and_progress_witness :
  concat (map content (enqueued racy_state)) =
    firstn (pos (file (vars racy_state))) (data (file (vars racy_state))) /\
  bar (shared racy_state) = total_len (acked racy_state).
Proof.
  destruct (X23_enqueued_bytes_and_progress PerLoop sample_flags ["dir/a"%string]
              racy_state racy_state_reachable eq_refl) as (H1 & _ & _ & H2).
  split; [exact H1 | exact H2].
Defined.

(** ** A whole file against a server that answers well *)

Lemma segment_dispatch (evs tr : list event) :
  forallb is_dispatch evs = true ->
  segment (evs ++ tr) = evs ++ segment tr /\
  finalize_calls (evs ++ tr) = finalize_calls tr /\
  (forall o, In (Stdout o) evs -> False).
Proof.
  induction evs as [|e evs IH]; intros H; [cbn; auto|].
  cbn [forallb] in H. apply andb_true_iff in H. destruct H as [He Hevs].
  destruct (IH Hevs) as (H1 & H2 & H3).
  destruct e as [o| | | |r ok| | | | | |]; try discriminate He;
    cbn [app segment finalize_calls]; rewrite ?H1, ?H2.
  all: try (destruct r; try discriminate He; cbn [is_finalize]).
  all: split; [reflexivity|]; split; [reflexivity|].
  all: intros o [Ho|Ho]; [discriminate Ho | exact (H3 o Ho)].
Qed.

Lemma sends_app (l1 l2 : list event) : sends (l1 ++ l2) = sends l1 ++ sends l2.
Proof.
  induction l1 as [|e l1 IH]; [reflexivity|].
  destruct e; cbn [app sends]; rewrite ?IH; reflexivity.
Qed.

Lemma acks_app (l1 l2 : list event) : acks (l1 ++ l2) = acks l1 ++ acks l2.
Proof.
  induction l1 as [|e l1 IH]; [reflexivity|].
  destruct e; cbn [app acks]; rewrite ?IH; reflexivity.
Qed.

(** One round: the fragment at the read offset is read, handed to the first
    uploader, posted and acknowledged. *)
Lemma upload_round_runs (lv : loopvar) (fl : Flags) (net : network) (s : state)
    (u : option UploadPart) (ups : list uploader) (b : byte) (rest : bytes) :
  obliging (config (vars s)) net -> valid_part_size (config (vars s)) ->
  panicked s = false -> pc s = Reading ->
  shared s = mkPool 0 (bar (shared s)) (mkUploader u false :: ups) [] ->
  unread (file (vars s)) = b :: rest ->
  let d := firstn (Z.to_nat (PartSize (Config (config (vars s))) - 1)) (b :: rest) in
  let item := mkPart d (part (vars s) + 1) in
  exists r,
    run lv fl (upload_round net) s =
      Some (mkState Reading (files s)
              (mkLocals (v (vars s)) (info (vars s)) (config (vars s))
                 (mkFile (data (file (vars s))) (pos (file (vars s)) + length d))
                 (part (vars s) + 1))
              (mkPool 0 (bar (shared s) + len d) (mkUploader (Some item) false :: ups) [])
              ([Ack item; Net r true; Send item; FileRead (len d)] ++ trace s)
              false) /\
    is_fragment r = true.
Proof.
  intros Hob V Hp Hpc Hsh Hu d item.
  destruct Hob as (_ & _ & Hfrag & _).
  unfold upload_round. cbn [run].
  unfold step at 1. rewrite Hp. unfold main_step. rewrite Hpc.
  rewrite (read_turn_healthy _ _ _ V), Hu. cbv zeta. fold d. fold item.
  unfold step at 1. cbn [panicked log goto with_shared with_vars].
  rewrite Hp. unfold recv_step, receive.
  cbn [pc shared log goto with_shared with_vars uploaders wg bar resends].
  rewrite Hsh. cbn [uploaders nth_error working set_nth firstn skipn app wg bar resends].
  unfold step at 1. cbn [panicked log goto with_shared with_vars].
  rewrite Hp. unfold work_step.
  cbn [pc shared vars log goto with_shared with_vars uploaders wg bar resends
       nth_error config info].
  unfold uploader_pass. cbv zeta.
  match goal with
  | |- context [net ?r] =>
      match r with
      | fragment_request ?t ?ps ?fs ?it =>
          destruct (Hfrag t (count it) (count it * ps)
                      (count it * ps + len (content it) - 1) fs (content it))
            as (st & bd & ck & Er & Eb);
          change (net r) with
            (net (FragmentReq t (count it) (count it * ps)
                    (count it * ps + len (content it) - 1) fs (content it)));
          exists r
      end
  end.
  rewrite Er, Eb. cbn [PartResult Size]. rewrite !Z.eqb_refl. cbn [negb orb].
  change (0 + 1 - 1 <? 0) with false. cbv iota.
  split; [|reflexivity].
  unfold log, goto, with_shared, with_vars.
  cbn [pc files vars shared trace panicked rev app].
  rewrite Hp. reflexivity.
Qed.

Lemma upload_rounds_run (lv : loopvar) (fl : Flags) (net : network) :
  forall (fuel : nat) (s : state) (u : option UploadPart) (ups : list uploader),
    obliging (config (vars s)) net -> valid_part_size (config (vars s)) ->
    panicked s = false -> pc s = Reading ->
    shared s = mkPool 0 (bar (shared s)) (mkUploader u false :: ups) [] ->
    (length (unread (file (vars s))) < fuel)%nat ->
    exists sent s' evs,
      read_loop fuel (config (vars s)) (file (vars s)) (part (vars s)) =
        ReadDone sent (part (vars s) + 1 + Z.of_nat (length sent)) /\
      run lv fl (concat (repeat (upload_round net) (length sent))
                 ++ [Main (ReadResult None)]) s = Some s' /\
      pc s' = Waiting /\ panicked s' = false /\ files s' = files s /\
      v (vars s') = v (vars s) /\ info (vars s') = info (vars s) /\
      config (vars s') = config (vars s) /\
      data (file (vars s')) = data (file (vars s)) /\
      part (vars s') = part (vars s) + 1 + Z.of_nat (length sent) /\
      wg (shared s') = 0 /\
      bar (shared s') = bar (shared s) + total_len sent /\
      trace s' = evs ++ trace s /\
      forallb is_dispatch evs = true /\
      sends evs = rev sent /\ acks evs = rev sent.
Proof.
  induction fuel as [|fuel IH]; intros s u ups Hob V Hp Hpc Hsh Hfuel; [lia|].
  cbn [read_loop]. rewrite (read_turn_healthy _ _ _ V).
  destruct (unread (file (vars s))) as [|b rest] eqn:Hu.
  - exists [], (log [FileRead 0]
                  (goto Waiting
                     (with_vars
                        (mkLocals (v (vars s)) (info (vars s)) (config (vars s))
                           (file (vars s)) (part (vars s) + 1)) s))),
      [FileRead 0].
    split; [f_equal; cbn [length]; lia|].
    split.
    { cbn [length repeat concat app run]. unfold step. rewrite Hp.
      unfold main_step. rewrite Hpc, (read_turn_healthy _ _ _ V), Hu. reflexivity. }
    cbn [pc panicked files vars shared trace log goto with_vars v info config file
         part rev app length total_len fold_right].
    rewrite Hsh. cbn [wg bar].
    repeat (split; [first [reflexivity | exact Hp | lia]|]). reflexivity.
  - cbv zeta.
    destruct (upload_round_runs lv fl net s u ups b rest Hob V Hp Hpc Hsh Hu)
      as (r & Hround & Hr).
    set (d := firstn (Z.to_nat (PartSize (Config (config (vars s))) - 1)) (b :: rest)) in *.
    set (item := mkPart d (part (vars s) + 1)) in *.
    match type of Hround with _ = Some ?x => set (s1 := x) in * end.
    assert (Hd : (0 < length d)%nat).
    { subst d. rewrite length_firstn. cbn [length].
      unfold valid_part_size in V. lia. }
    destruct (IH s1 (Some item) ups) as
      (sent & s' & evs & Hloop & Hrun & Hpc' & Hp' & Hfiles & Hv & Hinfo & Hcfg
       & Hdata & Hpart & Hwg & Hbar & Htr & Hdisp & Hsends & Hacks);
      try reflexivity; try assumption.
    { subst s1. cbn [vars file]. rewrite unread_advance, Hu, length_skipn.
      cbn [length] in *. lia. }
    unfold s1 in Hloop. cbn [vars config file part] in Hloop. rewrite Hloop.
    exists (item :: sent), s', (evs ++ [Ack item; Net r true; Send item; FileRead (len d)]).
    split; [f_equal; cbn [length]; lia|].
    split.
    { cbn [length repeat concat]. rewrite <- app_assoc, run_app, Hround. exact Hrun. }
    subst s1. cbn [pc panicked files vars shared trace v info config file part wg bar
                   data] in *.
    split; [exact Hpc'|]. split; [exact Hp'|]. split; [exact Hfiles|].
    split; [exact Hv|]. split; [exact Hinfo|]. split; [exact Hcfg|].
    split; [exact Hdata|].
    split; [rewrite Hpart; cbn [length]; lia|]. split; [exact Hwg|].
    split; [rewrite Hbar; unfold total_len; cbn [fold_right]; unfold item;
            cbn [content]; lia|].
    split; [rewrite Htr, <- app_assoc; reflexivity|].
    split.
    { rewrite forallb_app, Hdisp. cbn [forallb is_dispatch andb].
      destruct r; try discriminate Hr. reflexivity. }
    split.
    + rewrite sends_app, Hsends. cbn [sends rev]. reflexivity.
    + rewrite acks_app, Hacks. cbn [acks rev]. reflexivity.
Qed.

Lemma negotiated_and_opened (lv : loopvar) (fl : Flags) (net : network)
    (p : string) (i : FileInfo) (c : UploadConfigResp) (contents : bytes) :
  token fl <> ""%string -> uid fl <> ""%string -> obliging c net ->
  run lv fl
    [Main Tick; Main (StatResult (inr i)); Main (Network net); Main (Network net);
     Main (OpenResult (inr contents))] (init [p]) =
  Some (mkState Reading []
          (mkLocals p i c (os_Open contents) (-1))
          (mkPool 0 0 (repeat (mkUploader None false) (Z.to_nat (Parallel (Config c)))) [])
          [ Go (Z.to_nat (Parallel (Config c))); Open p; BarStart (FileSize i);
            Net (ResumeReq (Token c)) true;
            Net (ConfigReq (Name i) (FileSize i)) true;
            Stat p; Stdout (Local p) ]
          false).
Proof.
  intros Ht Hu (Hcfg & Hres & _).
  assert (Hcred : ((token fl =? "") || (uid fl =? ""))%string = false).
  { apply orb_false_iff. split; apply String.eqb_neq; assumption. }
  destruct (Hcfg (Name i) (FileSize i)) as (st1 & b1 & E1 & Eb1).
  destruct (Hres (Token c)) as (st2 & b2 & E2).
  cbn [run]. unfold init. unfold step at 1, main_step at 1. cbn [panicked pc]. rewrite Hcred.
  unfold step at 1, main_step at 1. cbn [panicked pc files goto].
  unfold step at 1, main_step at 1.
  cbn [panicked pc files vars info log goto with_vars with_files].
  unfold getUploadConfig, request. rewrite E1, Eb1. cbv beta iota zeta.
  unfold step at 1, main_step at 1.
  cbn [panicked pc files vars info config log goto with_vars with_files].
  unfold uploadRequest. rewrite E2. cbv beta iota zeta.
  unfold step at 1, main_step at 1.
  cbn [panicked pc files vars info config log goto with_vars with_files].
  reflexivity.
Qed.

(** X24: one file against a server that answers as the program expects,
    with a part size of at least 2 and at least one uploader.  There is a
    run in which [main] goes through the whole file and returns: what is
    enqueued is what the reader makes of the file, every fragment is
    acknowledged, once, in the order of the file, the progress bar stands at
    the length of the file, the three finalize calls are made with success,
    the first with the number of fragments, and nothing but the ["Local:
    ..."] line is printed. *)
Theorem X24_a_whole_file_is_uploaded_and_finalized
    (lv : loopvar) (fl : Flags) (net : network)
    (p : string) (i : FileInfo) (c : UploadConfigResp) (contents : bytes) :
  token fl <> ""%string -> uid fl <> ""%string ->
  valid_part_size c -> 1 <= Parallel (Config c) -> obliging c net ->
  exists sent s,
    fragments c contents = ReadDone sent (Z.of_nat (length sent)) /\
    run lv fl (whole_run net i contents (length sent)) (init [p]) = Some s /\
    pc s = Exited /\ panicked s = false /\ files s = [] /\
    enqueued s = sent /\ acked s = rev sent /\
    wg (shared s) = 0 /\ bar (shared s) = len contents /\
    rev (finalize_calls (segment (trace s))) =
      [ (CompleteReq (Z.of_nat (length sent)) (Token c), true);
        (CreateVideoReq (TaskID c) (path_Base p), true);
        (FinishReq (TaskID c), true) ] /\
    forall o, In (Stdout o) (trace s) -> o = Local p.
Proof.
  intros Ht Hu V Hpar Hob.
  pose proof (negotiated_and_opened lv fl net p i c contents Ht Hu Hob) as Hopen.
  match type of Hopen with _ = Some ?x => set (s5 := x) in * end.
  assert (Hups : exists ups, repeat (mkUploader None false) (Z.to_nat (Parallel (Config c)))
                             = mkUploader None false :: ups).
  { destruct (Z.to_nat (Parallel (Config c))) eqn:E; [lia|]. eexists. reflexivity. }
  destruct Hups as [ups Hups].
  destruct (upload_rounds_run lv fl net (S (length contents)) s5 None ups)
    as (sent & s6 & evs & Hloop & Hrun & Hpc & Hp & Hfiles & Hv & Hinfo & Hcfg
        & Hdata & Hpart & Hwg & Hbar & Htr & Hdisp & Hsends & Hacks);
    try reflexivity; try assumption.
  { unfold s5. cbn [shared bar]. rewrite Hups. reflexivity. }
  { unfold s5. cbn. lia. }
  unfold s5 in Hloop, Hfiles, Hv, Hinfo, Hcfg, Hdata, Hpart, Hbar, Htr.
  cbn [vars config file part files v info shared bar trace data] in *.
  destruct (read_loop_healthy c V (S (length contents)) (os_Open contents) (-1))
    as (sent' & Hrl & _ & _ & _ & Hcat); [cbn; lia|].
  rewrite Hloop in Hrl. inversion Hrl; subst sent'.
  change (unread (os_Open contents)) with contents in Hcat.
  destruct Hob as (_ & _ & _ & Hcomp & Hcreate & Hfin).
  destruct (Hcomp (part (vars s6)) (Token c)) as (st1 & b1 & E1).
  destruct (Hcreate (TaskID c) (path_Base p)) as (st2 & b2 & E2).
  destruct (Hfin (TaskID c)) as (st3 & b3 & E3).
  exists sent. eexists.
  split; [unfold fragments; rewrite Hloop; f_equal; lia|].
  split.
  { unfold whole_run.
    replace (concat (repeat (upload_round net) (length sent))
             ++ [Main (ReadResult None); Main Tick; Main (Network net); Main Tick])
      with ((concat (repeat (upload_round net) (length sent))
             ++ [Main (ReadResult None)])
            ++ [Main Tick; Main (Network net); Main Tick])
      by (rewrite <- app_assoc; reflexivity).
    rewrite run_app, Hopen, run_app, Hrun. cbn [run].
    unfold step at 1, main_step at 1. rewrite Hp, Hpc, Hwg. cbn [Z.eqb].
    unfold step at 1, main_step at 1.
    cbn [panicked pc vars shared log goto with_shared].
    rewrite Hp. unfold finishUpload, uploadRequest, request.
    rewrite Hcfg, Hv, E1, E2, E3. cbv beta iota zeta.
    unfold step at 1, main_step at 1.
    cbn [panicked pc files log goto with_shared]. rewrite Hp, Hfiles.
    reflexivity. }
  unfold enqueued, acked.
  cbn [pc panicked files shared trace wg bar log goto with_shared rev app].
  rewrite Htr.
  cbn [segment finalize_calls is_finalize app].
  destruct (segment_dispatch evs
              [ Go (Z.to_nat (Parallel (Config c))); Open p; BarStart (FileSize i);
                Net (ResumeReq (Token c)) true;
                Net (ConfigReq (Name i) (FileSize i)) true;
                Stat p; Stdout (Local p) ] Hdisp) as (Hseg & Hfc & Hout).
  rewrite Hseg. cbn [segment sends acks].
  rewrite !sends_app, !acks_app, Hsends, Hacks. cbn [sends acks].
  rewrite !app_nil_r, rev_involutive.
  split; [reflexivity|]. split; [exact Hp|]. split; [exact Hfiles|].
  split; [reflexivity|]. split; [reflexivity|]. split; [first [exact Hwg | reflexivity]|].
  split; [rewrite Hbar, <- total_len_concat, Hcat; lia|].
  split.
  { pose proof (segment_dispatch evs
                  [ Go (Z.to_nat (Parallel (Config c))); Open p; BarStart (FileSize i);
                    Net (ResumeReq (Token c)) true;
                    Net (ConfigReq (Name i) (FileSize i)) true;
                    Stat p ] Hdisp) as (_ & Hfc' & _).
    rewrite Hfc'. cbn [finalize_calls is_finalize rev app].
    rewrite Hpart. repeat f_equal; lia. }
  intros o Ho. cbn [In] in Ho.
  repeat (destruct Ho as [Ho|Ho]; [discriminate Ho|]).
  apply in_app_or in Ho. destruct Ho as [Ho|Ho]; [destruct (Hout o Ho)|].
  cbn [In] in Ho.
  repeat (destruct Ho as [Ho|Ho]; [try discriminate Ho; inversion Ho; reflexivity|]).
  destruct Ho.
Qed.

Lemma good_server_obliging (c : UploadConfigResp) : obliging c (good_server c).
Proof.
  repeat split; intros; cbn; repeat eexists.
Qed.

Lemma X24_a_whole_file_is_uploaded_and_finalized_witness :
  exists sent s,
    fragments tiny_config six_bytes = ReadDone sent (Z.of_nat (length sent)) /\
    run PerLoop sample_flags
      (whole_run (good_server tiny_config) sample_info six_bytes (length sent))
      (init ["dir/a"%string]) = Some s /\
    pc s = Exited /\ acked s = rev sent /\ bar (shared s) = 6.
Proof.
  destruct (X24_a_whole_file_is_uploaded_and_finalized PerLoop sample_flags
              (good_server tiny_config) "dir/a"%string sample_info tiny_config
              six_bytes)
    as (sent & s & H1 & H2 & H3 & _ & _ & _ & H4 & _ & H5 & _).
  - discriminate.
  - discriminate.
  - unfold valid_part_size. cbn. lia.
  - cbn. lia.
  - apply good_server_obliging.
  - exists sent, s. repeat (split; [assumption|]). exact H5.
Defined.

(** ** The dispatch of the earlier stage *)

Ltac mstep_cases H :=
  unfold MainGoRun.step in H;
  match type of H with
  | context [MainGoRun.pc ?s] =>
      let Hpc := fresh "Hpc" in destruct (MainGoRun.pc s) eqn:Hpc
  end;
  try discriminate H;
  match type of H with
  | match ?l with _ => _ end = _ => destruct l as [?fault| |[?g|] ?w|?w ?net]
  end;
  try discriminate H;
  repeat match type of H with
         | context [nth_error (MainGoRun.uploaders ?s) ?w] =>
             let Hn := fresh "Hn" in
             destruct (nth_error (MainGoRun.uploaders s) w) as [[|?it|?it]|] eqn:Hn;
             try discriminate H
         | context [MainGo.read_turn ?b ?f ?p ?x] =>
             let Ht := fresh "Hturn" in
             destruct (MainGo.read_turn b f p x) eqn:Ht
         | context [MainGo.uploader_pass ?d ?t ?n ?b ?i] =>
             let Hv := fresh "Hverdict" in
             destruct (MainGo.uploader_pass d t n b i) eqn:Hv; try discriminate H
         | context [if ?c then _ else _] =>
             let Hc := fresh "Hif" in destruct c eqn:Hc; try discriminate H
         end;
  try discriminate H;
  injection H as <-.

Lemma MainGo_read_turn_length (b : bytes) (f : File) (p : Z) (fault : option error) :
  match MainGo.read_turn b f p fault with
  | MainGo.TurnBreak b' _ => length b' = length b
  | MainGo.TurnEmit b' _ _ _ => length b' = length b
  end.
Proof.
  unfold MainGo.read_turn, Read.
  destruct fault; [reflexivity|].
  destruct b as [|b0 b]; [reflexivity|].
  destruct (unread f) as [|u0 u]; [reflexivity|].
  set (d := firstn (length (b0 :: b)) (u0 :: u)).
  assert (Hd : (length d <= length (b0 :: b))%nat)
    by (subst d; rewrite length_firstn; lia).
  destruct ((len d <=? 0) || is_some None); apply length_overwrite; exact Hd.
Qed.



Lemma filter_holds_fresh (k : nat) :
  filter MainGoRun.holds (repeat MainGoRun.Receiving k) = [].
Proof. induction k; [reflexivity | exact IHk]. Qed.

Lemma MainGoRun_invariant_start (contents : bytes) (n k : nat) :
  MainGoRun.invariant n k (MainGoRun.start contents n k).
Proof.
  constructor; cbn.
  - apply repeat_length.
  - constructor.
  - rewrite filter_holds_fresh. reflexivity.
  - reflexivity.
  - lia.
  - apply repeat_length.
  - discriminate.
  - discriminate.
Qed.

Lemma length_set_nth {A} (l : list A) (k : nat) (x y : A) :
  nth_error l k = Some y -> length (set_nth k x l) = length l.
Proof.
  intros H. destruct (nth_error_split l k H) as (l1 & l2 & -> & <-).
  rewrite set_nth_at, !length_app. reflexivity.
Qed.


Lemma MainGoRun_counter_moves (ups : list MainGoRun.uploader) (w : nat)
    (x y : MainGoRun.uploader) :
  nth_error ups w = Some y ->
  Z.of_nat (length (filter MainGoRun.holds (set_nth w x ups)))
  = Z.of_nat (length (filter MainGoRun.holds ups))
    + (if MainGoRun.holds x then 1 else 0) - (if MainGoRun.holds y then 1 else 0).
Proof.
  intros H. pose proof (filter_length_set_nth MainGoRun.holds ups w x y H) as E.
  destruct (MainGoRun.holds x), (MainGoRun.holds y); lia.
Qed.

Lemma MainGoRun_holder_counted (ups : list MainGoRun.uploader) (w : nat)
    (y : MainGoRun.uploader) :
  nth_error ups w = Some y -> MainGoRun.holds y = true ->
  (1 <= length (filter MainGoRun.holds ups))%nat.
Proof.
  intros H Hy. destruct (nth_error_split ups w H) as (l1 & l2 & -> & _).
  rewrite filter_app, length_app. cbn [filter]. rewrite Hy. cbn [length]. lia.
Qed.

Lemma MainGoRun_invariant_step (dbg : bool) (tok : string) (n k : nat)
    (l : MainGoRun.label) (s s' : MainGoRun.state) :
  MainGoRun.invariant n k s -> MainGoRun.step dbg tok l s = Some s' ->
  MainGoRun.invariant n k s'.
Proof.
  intros [Hbuf Hbod Hcnt Hbal Hbar Hups Hcl Hsane] H.
  mstep_cases H; constructor;
    cbn [MainGoRun.pc MainGoRun.file MainGoRun.buf MainGoRun.part MainGoRun.wg
         MainGoRun.bar MainGoRun.uploaders MainGoRun.sent MainGoRun.attempts
         MainGoRun.in_send MainGoRun.successes filter MainGoRun.done length] in *;
    try rewrite Hpc in *; cbn [MainGoRun.in_send] in *;
    unfold MainGoRun.successes in *; rewrite ?Nat2Z.inj_add.
  all: try assumption.
  all: try discriminate.
  all: try (constructor; [exact Hbuf | exact Hbod]).
  all: try match goal with
       | Ht : MainGo.read_turn ?b ?f ?p ?x = _ |- length _ = _ =>
           pose proof (MainGo_read_turn_length b f p x) as Hl;
           rewrite Ht in Hl; lia
       end.
  all: try match goal with
       | Hg : nth_error ?u ?g = Some (MainGoRun.Resending _),
         Hw : nth_error ?u ?w = Some MainGoRun.Receiving |- _ =>
           assert (Hgw : g <> w) by (intros ->; rewrite Hg in Hw; discriminate);
           pose proof (set_nth_other u g w MainGoRun.Receiving _ Hg Hgw) as Hw';
           rewrite Hw in Hw'
       end.
  all: repeat match goal with
       | |- context [length (filter MainGoRun.holds (set_nth ?w ?x ?u))] =>
           match goal with
           | Hn : nth_error u w = Some _ |- _ =>
               rewrite (MainGoRun_counter_moves u w x _ Hn)
           end
       | |- context [length (set_nth ?w ?x ?u)] =>
           match goal with
           | Hn : nth_error u w = Some _ |- _ =>
               rewrite (length_set_nth u w x _ Hn)
           end
       end; cbn [MainGoRun.holds].
  all: try (unfold len in *; rewrite ?Nat2Z.inj_add in *; lia).
  all: try (intros _; apply Z.eqb_eq; assumption).
  all: try (intros _; specialize (Hcl eq_refl); apply Z.ltb_ge in Hif; lia).
  all: exfalso; apply Z.ltb_lt in Hif;
    pose proof (MainGoRun_holder_counted _ _ _ Hn eq_refl); lia.
Qed.

Lemma MainGoRun_invariant_run (dbg : bool) (tok : string) (n k : nat) :
  forall (ls : list MainGoRun.label) (s s' : MainGoRun.state),
    MainGoRun.invariant n k s -> MainGoRun.run dbg tok ls s = Some s' ->
    MainGoRun.invariant n k s'.
Proof.
  induction ls as [|l ls IH]; intros s s' Hinv Hrun; cbn [MainGoRun.run] in Hrun.
  - injection Hrun as <-. exact Hinv.
  - destruct (MainGoRun.step dbg tok l s) as [s1|] eqn:Hstep; [|discriminate].
    exact (IH s1 s' (MainGoRun_invariant_step dbg tok n k l s s1 Hinv Hstep) Hrun).
Qed.

Lemma MainGoRun_invariant_reachable (dbg : bool) (tok : string)
    (contents : bytes) (n k : nat) (s : MainGoRun.state) :
  MainGoRun.reachable dbg tok contents n k s -> MainGoRun.invariant n k s.
Proof.
  intros [ls Hrun].
  exact (MainGoRun_invariant_run dbg tok n k ls _ s
           (MainGoRun_invariant_start contents n k) Hrun).
Qed.

Lemma MainGoRun_no_holder (ups : list MainGoRun.uploader) :
  length (filter MainGoRun.holds ups) = 0%nat ->
  Forall (fun u => u = MainGoRun.Receiving) ups.
Proof.
  induction ups as [|u ups IH]; intros H; [constructor|].
  cbn [filter] in H. destruct u; cbn [MainGoRun.holds length] in H; try discriminate.
  constructor; [reflexivity | exact (IH H)].
Qed.

Lemma two_uploader_state_reachable :
  MainGoRun.reachable false "tok" [x61; x62; x63] 2 2 MainGoRun.two_uploader_state.
Proof. exists MainGoRun.two_uploader_run. vm_compute. reflexivity. Qed.

Lemma lone_uploader_state_reachable :
  MainGoRun.reachable false "tok" [x61; x62; x63] 2 1 MainGoRun.lone_uploader_state.
Proof. exists MainGoRun.lone_uploader_run. vm_compute. reflexivity. Qed.

(** X25: in [src/main.go], every post carries the whole buffer, [PartSize]
    bytes, whatever the read that produced the item returned.  The progress
    bar stands at [PartSize] times the number of posts counted as done, and
    when [wg.Wait()] has returned at [PartSize] times the number of items
    [main] has enqueued. *)
Theorem X25_MainGo_posts_and_counts_the_whole_buffer (dbg : bool) (tok : string)
    (contents : bytes) (n k : nat) (s : MainGoRun.state) :
  MainGoRun.reachable dbg tok contents n k s ->
  Forall (fun a => length (MainGoRun.body a) = n) (MainGoRun.attempts s) /\
  MainGoRun.bar s
    = Z.of_nat n * Z.of_nat (length (MainGoRun.successes (MainGoRun.attempts s))) /\
  (MainGoRun.pc s = MainGoRun.Closed ->
   MainGoRun.bar s = Z.of_nat n * Z.of_nat (length (MainGoRun.sent s))).
Proof.
  intros Hreach.
  destruct (MainGoRun_invariant_reachable dbg tok contents n k s Hreach)
    as [_ Hbod _ Hbal Hbar _ Hcl _].
  split; [exact Hbod|]. split; [exact Hbar|].
  intros Hpc. specialize (Hcl Hpc). rewrite Hbar. f_equal. lia.
Qed.

Lemma X25_witness :
  Forall (fun a => length (MainGoRun.body a) = 2%nat)
    (MainGoRun.attempts MainGoRun.two_uploader_state) /\
  MainGoRun.bar MainGoRun.two_uploader_state = 4.
Proof.
  destruct (X25_MainGo_posts_and_counts_the_whole_buffer false "tok"
              [x61; x62; x63] 2 2 MainGoRun.two_uploader_state
              two_uploader_state_reachable) as (Hb & _ & Hc).
  split; [exact Hb | exact (Hc eq_refl)].
Defined.

(** X26: in [src/main.go], the WaitGroup counter is the number of items
    enqueued minus the number of posts counted as done, and it is the number
    of items in hand: the one [main] is sending, if any, and one for each
    uploader that is posting or re-sending.  The counter never goes below
    zero, and when [wg.Wait()] has returned every uploader is back in its
    receive and as many posts were counted as items were enqueued. *)
Theorem X26_MainGo_counter_is_items_in_hand (dbg : bool) (tok : string)
    (contents : bytes) (n k : nat) (s : MainGoRun.state) :
  MainGoRun.reachable dbg tok contents n k s ->
  MainGoRun.wg s
    = Z.of_nat (length (MainGoRun.sent s))
      - Z.of_nat (length (MainGoRun.successes (MainGoRun.attempts s))) /\
  MainGoRun.wg s
    = Z.of_nat (MainGoRun.in_send (MainGoRun.pc s)
                + length (filter MainGoRun.holds (MainGoRun.uploaders s))) /\
  MainGoRun.pc s <> MainGoRun.Panicked /\
  (MainGoRun.pc s = MainGoRun.Closed ->
   Forall (fun u => u = MainGoRun.Receiving) (MainGoRun.uploaders s) /\
   length (MainGoRun.successes (MainGoRun.attempts s)) = length (MainGoRun.sent s)).
Proof.
  intros Hreach.
  destruct (MainGoRun_invariant_reachable dbg tok contents n k s Hreach)
    as [_ _ Hcnt Hbal _ _ Hcl Hsane].
  repeat split; try assumption.
  - apply MainGoRun_no_holder. specialize (Hcl H). lia.
  - specialize (Hcl H). lia.
Qed.

Lemma X26_witness :
  MainGoRun.wg MainGoRun.lone_uploader_state = 1 /\
  MainGoRun.uploaders MainGoRun.lone_uploader_state
    = [MainGoRun.Resending (MainGo.mkPart 1)].
Proof.
  destruct (X26_MainGo_counter_is_items_in_hand false "tok"
              [x61; x62; x63] 2 1 MainGoRun.lone_uploader_state
              lone_uploader_state_reachable) as (_ & Hc & _).
  split; [exact Hc | reflexivity].
Defined.


Lemma MainGo_read_turn_full (buf c rest : bytes) (f : File) (p : Z) :
  length buf = length c -> c <> [] -> unread f = c ++ rest ->
  MainGo.read_turn buf f p None
    = MainGo.TurnEmit c (MainGo.mkPart (p + 1))
        (mkFile (data f) (pos f + length c)) (p + 1) /\
  unread (mkFile (data f) (pos f + length c)) = rest.
Proof.
  intros Hlen Hc Hu.
  assert (Hpos : (0 < length c)%nat) by (destruct c; [congruence | cbn; lia]).
  assert (Hd : firstn (length buf) (unread f) = c).
  { rewrite Hu, Hlen, firstn_app, firstn_all, Nat.sub_diag. cbn [firstn].
    apply app_nil_r. }
  split.
  - unfold MainGo.read_turn. rewrite Read_into_buffer by lia.
    destruct (unread f) as [|u0 u] eqn:E.
    { destruct c; [congruence | discriminate Hu]. }
    cbv beta iota zeta. rewrite Hd.
    replace (len c <=? 0) with false
      by (symmetry; apply Z.leb_gt; unfold len; lia).
    cbn [orb is_some]. unfold overwrite.
    rewrite skipn_all2 by lia. rewrite app_nil_r. reflexivity.
  - unfold unread in *. cbn [data pos].
    rewrite Nat.add_comm, <- skipn_skipn, Hu, skipn_app, skipn_all, Nat.sub_diag.
    reflexivity.
Qed.

Lemma MainGo_uploader_pass_never_crashes (dbg : bool) (tok : string)
    (net : MainGo.fragment_post -> http_reply) (buf : bytes)
    (item : MainGo.UploadPart) :
  MainGo.uploader_pass dbg tok net buf item <> Crashed.
Proof.
  unfold MainGo.uploader_pass.
  destruct (net _) as [e|e|code [b|b]]; destruct dbg; discriminate.
Qed.

(** X27: in [src/main.go], an uploader that has received an item and makes
    its copy only after [main] has read again posts the bytes of the next
    fragment under the number of its own: with two full fragments unread,
    the run read, receive, read, post makes a post of fragment [part + 1]
    whose body is the second fragment. *)
Theorem X27_MainGo_late_copy_posts_the_next_fragment (dbg : bool) (tok : string)
    (contents : bytes) (n k : nat) (s : MainGoRun.state) (w : nat)
    (net : MainGo.fragment_post -> http_reply) (c1 c2 rest : bytes) :
  MainGoRun.reachable dbg tok contents n k s ->
  MainGoRun.pc s = MainGoRun.Reading ->
  nth_error (MainGoRun.uploaders s) w = Some MainGoRun.Receiving ->
  unread (MainGoRun.file s) = c1 ++ c2 ++ rest ->
  length c1 = n -> length c2 = n -> (0 < n)%nat ->
  exists s' d,
    MainGoRun.run dbg tok
      [MainGoRun.Read None; MainGoRun.Recv None w; MainGoRun.Read None;
       MainGoRun.Post w net] s = Some s' /\
    MainGoRun.attempts s'
      = MainGoRun.mkAttempt (MainGo.mkPart (MainGoRun.part s + 1)) c2 d
        :: MainGoRun.attempts s.
Proof.
  intros Hreach Hpc Hw Hu H1 H2 Hn.
  destruct (MainGoRun_invariant_reachable dbg tok contents n k s Hreach)
    as [Hbuf _ Hcnt _ _ _ _ _].
  assert (Hwg : 0 <= MainGoRun.wg s) by lia.
  assert (Hc1 : c1 <> []) by (intros ->; cbn in H1; lia).
  assert (Hc2 : c2 <> []) by (intros ->; cbn in H2; lia).
  destruct (MainGo_read_turn_full (MainGoRun.buf s) c1 (c2 ++ rest)
              (MainGoRun.file s) (MainGoRun.part s)
              ltac:(congruence) Hc1 Hu) as [Hr1 Hu1].
  destruct (MainGo_read_turn_full c1 c2 rest _ (MainGoRun.part s + 1)
              ltac:(congruence) Hc2 Hu1) as [Hr2 _].
  cbn [MainGoRun.run].
  unfold MainGoRun.step at 1. rewrite Hpc, Hr1.
  unfold MainGoRun.step at 1.
  cbn [MainGoRun.pc MainGoRun.uploaders MainGoRun.file MainGoRun.buf
       MainGoRun.part MainGoRun.wg MainGoRun.bar MainGoRun.sent MainGoRun.attempts].
  rewrite Hw.
  unfold MainGoRun.step at 1.
  cbn [MainGoRun.pc MainGoRun.uploaders MainGoRun.file MainGoRun.buf
       MainGoRun.part MainGoRun.wg MainGoRun.bar MainGoRun.sent MainGoRun.attempts].
  rewrite Hr2.
  unfold MainGoRun.step at 1.
  cbn [MainGoRun.pc MainGoRun.uploaders MainGoRun.file MainGoRun.buf
       MainGoRun.part MainGoRun.wg MainGoRun.bar MainGoRun.sent MainGoRun.attempts].
  rewrite (set_nth_lookup _ _ _ _ Hw).
  pose proof (MainGo_uploader_pass_never_crashes dbg tok net c2
                (MainGo.mkPart (MainGoRun.part s + 1))) as Hnc.
  destruct (MainGo.uploader_pass dbg tok net c2 _); [| |congruence].
  - replace (MainGoRun.wg s + 1 + 1 - 1 <? 0) with false
      by (symmetry; apply Z.ltb_ge; lia).
    eexists; exists true. split; reflexivity.
  - eexists; exists false. split; reflexivity.
Qed.

Lemma X27_witness :
  exists s' d,
    MainGoRun.run false "tok"
      [MainGoRun.Read None; MainGoRun.Recv None 0%nat; MainGoRun.Read None;
       MainGoRun.Post 0%nat MainGoRun.accepting]
      (MainGoRun.start [x61; x62; x63; x64] 2 1) = Some s' /\
    MainGoRun.attempts s'
      = [MainGoRun.mkAttempt (MainGo.mkPart 1) [x63; x64] d].
Proof.
  exact (X27_MainGo_late_copy_posts_the_next_fragment false "tok"
           [x61; x62; x63; x64] 2 1 (MainGoRun.start [x61; x62; x63; x64] 2 1)
           0%nat MainGoRun.accepting [x61; x62] [x63; x64] []
           (ex_intro _ [] eq_refl) eq_refl eq_refl eq_refl eq_refl eq_refl
           (le_S _ _ (le_n 1))).
Defined.

Lemma MainGoRun_all_resending_lookup (ups : list MainGoRun.uploader) (w : nat)
    (u : MainGoRun.uploader) :
  forallb MainGoRun.is_resending ups = true -> nth_error ups w = Some u ->
  MainGoRun.is_resending u = true.
Proof.
  intros Hall Hn. rewrite forallb_forall in Hall.
  exact (Hall u (nth_error_In ups w Hn)).
Qed.

Lemma MainGoRun_all_resending_hold (ups : list MainGoRun.uploader) :
  forallb MainGoRun.is_resending ups = true -> ups <> [] ->
  (1 <= length (filter MainGoRun.holds ups))%nat.
Proof.
  intros Hall Hne. destruct ups as [|u ups]; [congruence|].
  cbn [forallb] in Hall. apply andb_prop in Hall as [Hu _].
  cbn [filter]. destruct u; try discriminate. cbn [MainGoRun.holds length]. lia.
Qed.

Lemma MainGoRun_all_resending_step (dbg : bool) (tok : string)
    (l : MainGoRun.label) (s s' : MainGoRun.state) :
  forallb MainGoRun.is_resending (MainGoRun.uploaders s) = true ->
  MainGoRun.step dbg tok l s = Some s' ->
  MainGoRun.uploaders s' = MainGoRun.uploaders s /\
  MainGoRun.attempts s' = MainGoRun.attempts s.
Proof.
  intros Hall H.
  mstep_cases H;
    cbn [MainGoRun.uploaders MainGoRun.attempts];
    try (split; reflexivity);
    try match goal with
        | Hn : nth_error _ _ = Some MainGoRun.Receiving |- _ =>
            pose proof (MainGoRun_all_resending_lookup _ _ _ Hall Hn);
            discriminate
        | Hn : nth_error _ _ = Some (MainGoRun.Posting _) |- _ =>
            pose proof (MainGoRun_all_resending_lookup _ _ _ Hall Hn);
            discriminate
        end.
Qed.

(** X28: in [src/main.go], a failed post is given back by a send on the
    channel the uploaders receive from, so it needs another uploader that is
    receiving.  Once every uploader is in that send (with one uploader: after
    its first failed post) nothing moves any more: no run makes another post,
    no uploader leaves its send, and [wg.Wait()] never returns. *)
Theorem X28_MainGo_all_uploaders_resending_is_a_deadlock (dbg : bool)
    (tok : string) (contents : bytes) (n k : nat) (s : MainGoRun.state) :
  MainGoRun.reachable dbg tok contents n k s ->
  MainGoRun.uploaders s <> [] ->
  forallb MainGoRun.is_resending (MainGoRun.uploaders s) = true ->
  forall (ls : list MainGoRun.label) (s' : MainGoRun.state),
    MainGoRun.run dbg tok ls s = Some s' ->
    MainGoRun.uploaders s' = MainGoRun.uploaders s /\
    MainGoRun.attempts s' = MainGoRun.attempts s /\
    MainGoRun.pc s' <> MainGoRun.Closed.
Proof.
  intros Hreach Hne Hall ls.
  pose proof (MainGoRun_invariant_reachable dbg tok contents n k s Hreach) as Hinv.
  clear Hreach. revert s Hinv Hne Hall.
  induction ls as [|l ls IH]; intros s Hinv Hne Hall s' Hrun;
    cbn [MainGoRun.run] in Hrun.
  - injection Hrun as <-. split; [reflexivity|]. split; [reflexivity|].
    intros Hpc. destruct Hinv as [_ _ Hcnt _ _ _ Hcl _]. specialize (Hcl Hpc).
    pose proof (MainGoRun_all_resending_hold _ Hall Hne). lia.
  - destruct (MainGoRun.step dbg tok l s) as [s1|] eqn:Hstep; [|discriminate].
    destruct (MainGoRun_all_resending_step dbg tok l s s1 Hall Hstep) as [Hu Ha].
    pose proof (MainGoRun_invariant_step dbg tok n k l s s1 Hinv Hstep) as Hinv1.
    rewrite <- Hu in Hne, Hall.
    destruct (IH s1 Hinv1 Hne Hall s' Hrun) as (Hu' & Ha' & Hpc').
    split; [congruence|]. split; [congruence | exact Hpc'].
Qed.

Lemma X28_witness :
  exists s',
    MainGoRun.run false "tok" [MainGoRun.Read None]
      MainGoRun.lone_uploader_state = Some s' /\
    MainGoRun.uploaders s' = [MainGoRun.Resending (MainGo.mkPart 1)] /\
    MainGoRun.attempts s' = MainGoRun.attempts MainGoRun.lone_uploader_state /\
    MainGoRun.pc s' <> MainGoRun.Closed.
Proof.
  eexists. split; [vm_compute; reflexivity|].
  exact (X28_MainGo_all_uploaders_resending_is_a_deadlock false "tok"
           [x61; x62; x63] 2 1 MainGoRun.lone_uploader_state
           lone_uploader_state_reachable
           ltac:(discriminate) eq_refl
           [MainGoRun.Read None] _ eq_refl).
Defined.

Lemma MainGo_read_turn_at_end (buf : bytes) (f : File) (p : Z) :
  unread f = [] -> MainGo.read_turn buf f p None = MainGo.TurnBreak buf (p + 1).
Proof.
  intros Hu. unfold MainGo.read_turn, Read. rewrite Hu.
  destruct buf; reflexivity.
Qed.

Lemma MainGoRun_prompt_rounds (dbg : bool) (tok : string) (w : nat)
    (net : MainGo.fragment_post -> http_reply) (n : nat) :
  (0 < n)%nat ->
  (forall r, exists code b, net r = Response code (inr b)) ->
  forall (chunks : list bytes) (s : MainGoRun.state),
    Forall (fun c => length c = n) chunks ->
    MainGoRun.pc s = MainGoRun.Reading ->
    length (MainGoRun.buf s) = n ->
    nth_error (MainGoRun.uploaders s) w = Some MainGoRun.Receiving ->
    unread (MainGoRun.file s) = concat chunks ->
    MainGoRun.wg s = 0 ->
    exists s',
      MainGoRun.run dbg tok (MainGoRun.prompt_run w net (length chunks)) s = Some s' /\
      MainGoRun.pc s' = MainGoRun.Closed /\
      MainGoRun.attempts s'
        = rev (MainGoRun.posted_in_order (MainGoRun.part s) chunks)
          ++ MainGoRun.attempts s /\
      MainGoRun.bar s' = MainGoRun.bar s + Z.of_nat n * Z.of_nat (length chunks).
Proof.
  intros Hn Hnet.
  induction chunks as [|c chunks IH]; intros s Hall Hpc Hbuf Hw Hu Hwg;
    cbn [length MainGoRun.prompt_run MainGoRun.run MainGoRun.posted_in_order rev].
  - unfold MainGoRun.step at 1. rewrite Hpc, (MainGo_read_turn_at_end _ _ _ Hu).
    unfold MainGoRun.step at 1.
    cbn [MainGoRun.pc MainGoRun.wg]. rewrite Hwg. cbn [Z.eqb].
    eexists. split; [reflexivity|]. cbn [MainGoRun.pc MainGoRun.attempts MainGoRun.bar app].
    split; [reflexivity|]. split; [reflexivity | lia].
  - inversion Hall as [|c' chunks' Hc Hrest]; subst c' chunks'.
    assert (Hne : c <> []) by (intros ->; cbn in Hc; lia).
    cbn [concat] in Hu.
    destruct (MainGo_read_turn_full (MainGoRun.buf s) c (concat chunks)
                (MainGoRun.file s) (MainGoRun.part s)
                ltac:(congruence) Hne Hu) as [Hr Hu1].
    unfold MainGoRun.step at 1. rewrite Hpc, Hr.
    unfold MainGoRun.step at 1.
    cbn [MainGoRun.pc MainGoRun.uploaders MainGoRun.file MainGoRun.buf
         MainGoRun.part MainGoRun.wg MainGoRun.bar MainGoRun.sent MainGoRun.attempts].
    rewrite Hw.
    unfold MainGoRun.step at 1.
    cbn [MainGoRun.pc MainGoRun.uploaders MainGoRun.file MainGoRun.buf
         MainGoRun.part MainGoRun.wg MainGoRun.bar MainGoRun.sent MainGoRun.attempts].
    rewrite (set_nth_lookup _ _ _ _ Hw).
    assert (Hack : MainGo.uploader_pass dbg tok net c
                     (MainGo.mkPart (MainGoRun.part s + 1)) = Acked).
    { unfold MainGo.uploader_pass.
      destruct (Hnet (MainGo.Post tok
                        (MainGo.count (MainGo.mkPart (MainGoRun.part s + 1))) c))
        as (code & b & ->).
      destruct dbg; reflexivity. }
    rewrite Hack, Hwg. cbn [Z.add Z.sub Z.opp Z.pos_sub Z.ltb Z.compare].
    rewrite (set_nth_twice _ _ _ _ _ Hw), (set_nth_same _ _ _ Hw).
    match goal with
    | |- exists s', MainGoRun.run _ _ _ ?s1 = _ /\ _ =>
        destruct (IH s1 Hrest eq_refl Hc Hw Hu1 eq_refl) as (s' & Hrun & Hcl & Hatt & Hb)
    end.
    exists s'. split; [exact Hrun|]. split; [exact Hcl|].
    cbn [MainGoRun.attempts MainGoRun.part MainGoRun.bar] in Hatt, Hb.
    split.
    + rewrite Hatt, <- app_assoc. reflexivity.
    + rewrite Hb. unfold len. rewrite Hc. lia.
Qed.

(** X29: in [src/main.go], for a file of whole fragments, a server that
    answers every post with a body that can be read, and the schedule in
    which one uploader makes each post before [main] reads again, every
    fragment is posted once with its own bytes under its number, counted
    from 1, [wg.Wait()] returns, and the progress bar stands at the length
    of the file. *)
Theorem X29_MainGo_prompt_posts_upload_the_file (dbg : bool) (tok : string)
    (w k n : nat) (net : MainGo.fragment_post -> http_reply)
    (chunks : list bytes) :
  (0 < n)%nat -> (w < k)%nat ->
  Forall (fun c => length c = n) chunks ->
  (forall r, exists code b, net r = Response code (inr b)) ->
  exists s',
    MainGoRun.run dbg tok (MainGoRun.prompt_run w net (length chunks))
      (MainGoRun.start (concat chunks) n k) = Some s' /\
    MainGoRun.pc s' = MainGoRun.Closed /\
    rev (MainGoRun.attempts s') = MainGoRun.posted_in_order 0 chunks /\
    MainGoRun.bar s' = len (concat chunks).
Proof.
  intros Hn Hw Hall Hnet.
  destruct (MainGoRun_prompt_rounds dbg tok w net n Hn Hnet chunks
              (MainGoRun.start (concat chunks) n k) Hall eq_refl)
    as (s' & Hrun & Hcl & Hatt & Hb).
  - apply repeat_length.
  - unfold MainGoRun.start. cbn [MainGoRun.uploaders].
    rewrite nth_error_repeat by exact Hw. reflexivity.
  - unfold MainGoRun.start, os_Open, unread. reflexivity.
  - reflexivity.
  - exists s'. split; [exact Hrun|]. split; [exact Hcl|].
    cbn [MainGoRun.start MainGoRun.attempts MainGoRun.part MainGoRun.bar] in Hatt, Hb.
    split.
    + rewrite Hatt, app_nil_r, rev_involutive. reflexivity.
    + assert (Hlen : length (concat chunks) = (n * length chunks)%nat).
      { clear - Hall. induction Hall as [|c l Hc _ IH]; [cbn; lia|].
        cbn [concat length]. rewrite length_app, Hc, IH. lia. }
      rewrite Hb. unfold len. rewrite Hlen. lia.
Qed.

Lemma X29_witness :
  exists s',
    MainGoRun.run false "tok" (MainGoRun.prompt_run 0 MainGoRun.accepting 2)
      (MainGoRun.start [x61; x62; x63; x64] 2 1) = Some s' /\
    MainGoRun.pc s' = MainGoRun.Closed /\
    rev (MainGoRun.attempts s')
      = [MainGoRun.mkAttempt (MainGo.mkPart 1) [x61; x62] true;
         MainGoRun.mkAttempt (MainGo.mkPart 2) [x63; x64] true] /\
    MainGoRun.bar s' = 4.
Proof.
  exact (X29_MainGo_prompt_posts_upload_the_file false "tok" 0 1 2
           MainGoRun.accepting [[x61; x62]; [x63; x64]]
           (le_S _ _ (le_n 1)) (le_n 1)
           (Forall_cons [x61; x62] (eq_refl 2%nat)
              (Forall_cons [x63; x64] (eq_refl 2%nat) (Forall_nil _)))
           (fun r => ex_intro _ 200 (ex_intro _ _ eq_refl))).
Defined.
(** ** The wait can always end *)

Lemma stalled_state_reachable :
  reachable PerLoop sample_flags ["dir/a"%string] stalled_state.
Proof.
  exists (sample_prefix ++ [failed_read; Work 0 bad_gateway]).
  vm_compute. reflexivity.
Qed.

(** X30: while [main] is in [wg.Wait()], the work under way can always be
    finished: a failed upload is given back by a goroutine of its own, so no
    uploader is ever stuck with it.  From every state in the wait, whatever
    uploads have failed before, and against a server that confirms every
    fragment, there are steps of the uploaders and the re-sends after which
    the counter is zero; nothing is enqueued on the way, and [wg.Wait()]
    returns. *)
Theorem X30_the_wait_can_always_end (lv : loopvar) (fl : Flags)
    (args : list string) (s : state) (net : network) :
  reachable lv fl args s -> panicked s = false -> pc s = Waiting ->
  confirming net ->
  exists ls s' s'',
    forallb uploader_label ls = true /\
    run lv fl ls s = Some s' /\
    wg (shared s') = 0 /\
    enqueued s' = enqueued s /\
    step lv fl (Main Tick) s' = Some s'' /\
    pc s'' = Finishing /\ panicked s'' = false.
Proof.
  intros Hreach Hp Hpc Hnet.
  pose proof (invariant_reachable lv fl args s Hreach) as I.
  destruct (pool_drains lv fl net Hnet (pool_weight (shared s)) s I
              (pool_sound_reachable lv fl args s Hreach) Hp Hpc (le_n _))
    as (ls & s' & Hls & Hrun & Hp' & Hwg).
  destruct (uploader_run_while_waiting lv fl ls s s' Hls Hpc Hrun)
    as (Hpc' & _ & _ & Hsends & _).
  exists ls, s'. eexists.
  split; [exact Hls|]. split; [exact Hrun|]. split; [exact Hwg|].
  split; [unfold enqueued; rewrite Hsends; reflexivity|].
  split.
  - unfold step, main_step. rewrite Hp', Hpc', Hwg. reflexivity.
  - split; [reflexivity | exact Hp'].
Qed.

Lemma X30_the_wait_can_always_end_witness :
  wg (shared stalled_state) = 1 /\
  resends (shared stalled_state) = [Started 0] /\
  exists ls s' s'',
    run PerLoop sample_flags ls stalled_state = Some s' /\
    wg (shared s') = 0 /\
    step PerLoop sample_flags (Main Tick) s' = Some s'' /\
    pc s'' = Finishing.
Proof.
  split; [reflexivity|]. split; [reflexivity|].
  destruct (X30_the_wait_can_always_end PerLoop sample_flags ["dir/a"%string]
              stalled_state (good_server tiny_config)
              stalled_state_reachable eq_refl eq_refl)
    as (ls & s' & s'' & _ & Hrun & Hwg & _ & Htick & Hpc & _).
  - destruct (good_server_obliging tiny_config) as (_ & _ & H & _). exact H.
  - exists ls, s', s''. repeat (split; [assumption|]). exact Hpc.
Defined.
